(** * Certificate Authority Service: the CA state engine

    A shallow embedding of the Go sources of the single-operator CA
    (dn.go, store.go, ca.go, crl.go, verify.go, request.go) and the
    properties of its state engine: the name codec round trip, the serial
    counter invariant, the error texts of the precondition failures, CSR key
    acceptance, certificate verification, revocation irreversibility, the
    stage and commit protocol of InitCA, and the display status computed by
    ListCerts; then the frames of the operations, the path from a revocation
    to the CRL and the verification report, the SAN parser and the request
    utility.

    Go strings are byte sequences: they are [string]s here, and the byte
    level algorithms of package strings run on their [list ascii] view.
    int64 values are [Z] with the wrap-around written out ([wrap64]).
    The data directory lives in a store of files and directories; the
    calls into the Go standard library whose results the engine cannot
    compute itself (crypto, PEM, DER, JSON, time formatting) are the fields
    of the class [GoLib]. *)

From Stdlib Require Import ZArith Lia Ascii String HexString BinaryString.
From stdpp Require Import base decidable option list gmap strings sets countable.

Set Default Proof Using "Type".
Local Open Scope Z_scope.

(** ** Results: Go's [(value, error)] pairs *)

Inductive result (A : Type) : Type :=
  | Ok (a : A)
  | Err (msg : string).
Arguments Ok {A} a.
Arguments Err {A} msg.

Definition isOk {A} (r : result A) : bool :=
  match r with Ok _ => true | Err _ => false end.

(** [fmt.Errorf("<prefix>: %w", err)]: the text of a wrapped error. *)
Definition wrapErr (prefix inner : string) : string := prefix +:+ ": " +:+ inner.

(** The line feed that ends every text file of the data directory. *)
Definition LF : string := String (ascii_of_N 10) "".

(** ** int64 arithmetic *)

Definition minInt64 : Z := - 2 ^ 63.
Definition maxInt64 : Z := 2 ^ 63 - 1.
Definition wrap64 (z : Z) : Z := (z + 2 ^ 63) mod 2 ^ 64 - 2 ^ 63.
Definition inInt64 (z : Z) : Prop := minInt64 <= z <= maxInt64.


(** ** Package strings *)

Module strings.

Abbreviation bytesOf := list_ascii_of_string.
Abbreviation ofBytes := string_of_list_ascii.

Definition byteVal (c : ascii) : N := N_of_ascii c.

(** ASCII white space, the table [asciiSpace] of package strings. *)
Definition asciiSpace (c : ascii) : bool :=
  bool_decide (byteVal c ∈ [9; 10; 11; 12; 13; 32]%N).

(** Bytes from [utf8.RuneSelf] on start or continue a multi-byte rune. *)
Definition highByte (c : ascii) : bool := bool_decide (128 ≤ byteVal c)%N.

Definition rune (bs : list N) : list ascii := ascii_of_N <$> bs.

(** The runes for which [unicode.IsSpace] holds, in their UTF-8 encoding:
    the six ASCII ones, U+0085, U+00A0, U+1680, U+2000 to U+200A, U+2028,
    U+2029, U+202F, U+205F and U+3000. *)
Definition spaceRunes : list (list ascii) :=
  (rune <$> [[9]; [10]; [11]; [12]; [13]; [32]; [194; 133]; [194; 160];
             [225; 154; 128]])%N
  ++ ((λ b, rune [226; 128; b]) <$> [128; 129; 130; 131; 132; 133; 134; 135;
                                     136; 137; 138; 168; 169; 175])%N
  ++ (rune <$> [[226; 129; 159]; [227; 128; 128]])%N.

(** The white-space rune that [utf8.DecodeRuneInString] finds at the start
    of the bytes, resp. [utf8.DecodeLastRuneInString] at their end. *)
Definition leadingSpace (l : list ascii) : option (list ascii) :=
  head (filter (λ r, r `prefix_of` l) spaceRunes).
Definition trailingSpace (l : list ascii) : option (list ascii) :=
  head (filter (λ r, r `suffix_of` l) spaceRunes).

Fixpoint trimLeftFuel (fuel : nat) (l : list ascii) : list ascii :=
  match fuel with
  | O => l
  | S fuel' =>
      match leadingSpace l with
      | Some r => trimLeftFuel fuel' (drop (length r) l)
      | None => l
      end
  end.

Fixpoint trimRightFuel (fuel : nat) (l : list ascii) : list ascii :=
  match fuel with
  | O => l
  | S fuel' =>
      match trailingSpace l with
      | Some r => trimRightFuel fuel' (take (length l - length r) l)
      | None => l
      end
  end.

(** [strings.TrimLeftFunc(s, unicode.IsSpace)]; every step removes at
    least one byte, so the length of the input is fuel enough. *)
Definition trimLeft (l : list ascii) : list ascii := trimLeftFuel (length l) l.
Definition trimRight (l : list ascii) : list ascii := trimRightFuel (length l) l.

(** [strings.TrimSpace]: its ASCII fast path and its fall-back
    [TrimFunc(s, unicode.IsSpace)] both compute this. *)
Definition TrimSpace (s : string) : string :=
  ofBytes (trimRight (trimLeft (bytesOf s))).

(** [strings.Split(s, sep)] for a one-byte separator. *)
Fixpoint Split (s : string) (sep : ascii) : list string :=
  match s with
  | EmptyString => [EmptyString]
  | String c s' =>
      if bool_decide (c = sep) then EmptyString :: Split s' sep
      else match Split s' sep with
           | piece :: pieces => String c piece :: pieces
           | [] => [String c EmptyString]
           end
  end.

(** [strings.Join(elems, sep)]. *)
Fixpoint Join (elems : list string) (sep : string) : string :=
  match elems with
  | [] => ""
  | [e] => e
  | e :: rest => e +:+ sep +:+ Join rest sep
  end.

(** [strings.Index(s, sep)] for a one-byte separator; -1 when absent. *)
Fixpoint Index (s : string) (sep : ascii) : Z :=
  match s with
  | EmptyString => -1
  | String c s' =>
      if bool_decide (c = sep) then 0
      else let i := Index s' sep in if i <? 0 then -1 else i + 1
  end.

(** The slices [s[:i]] and [s[i:]]. *)
Definition sliceTo (s : string) (i : Z) : string :=
  ofBytes (take (Z.to_nat i) (bytesOf s)).
Definition sliceFrom (s : string) (i : Z) : string :=
  ofBytes (drop (Z.to_nat i) (bytesOf s)).

Definition isASCII (s : string) : bool :=
  forallb (λ c, negb (highByte c)) (bytesOf s).

Definition upperByte (c : ascii) : ascii :=
  if bool_decide (97 ≤ byteVal c ≤ 122)%N then ascii_of_N (byteVal c - 32) else c.

(** [strings.ToUpper]: the ASCII path maps bytes; other inputs go through
    [unicode.ToUpper] rune by rune, which is [special]. *)
Definition ToUpper (special : string → string) (s : string) : string :=
  if isASCII s then ofBytes (upperByte <$> bytesOf s) else special s.

Definition lowerByte (c : ascii) : ascii :=
  if bool_decide (65 ≤ byteVal c ≤ 90)%N then ascii_of_N (byteVal c + 32) else c.

(** [strings.ToLower], likewise. *)
Definition ToLower (special : string → string) (s : string) : string :=
  if isASCII s then ofBytes (lowerByte <$> bytesOf s) else special s.

(** [strings.HasPrefix]. *)
Definition HasPrefix (s pre : string) : bool := String.prefix pre s.

(** [strings.TrimPrefix]: [s[len(prefix):]] when [s] has the prefix. *)
Definition TrimPrefix (s pre : string) : string :=
  if HasPrefix s pre then sliceFrom s (Z.of_nat (String.length pre)) else s.

End strings.


(** ** Package unicode/utf8, and what encoding/json does with a string *)

Module utf8.
Import strings.

Definition between (lo hi : N) (c : ascii) : bool :=
  ((lo <=? byteVal c) && (byteVal c <=? hi))%N.

(** A continuation byte. *)
Definition cont (c : ascii) : bool := between 128 191 c.

(** The size of the rune that [utf8.DecodeRuneInString] finds at the head
    of the bytes; [None] when it returns [(RuneError, 1)]: a byte that
    starts no rune, a rune cut short, an overlong form, a surrogate or a
    value above U+10FFFF. The second byte has its own range after the first
    bytes E0, ED, F0 and F4. *)
Definition runeLen (l : list ascii) : option nat :=
  match l with
  | [] => None
  | c0 :: rest =>
      if (byteVal c0 <? 128)%N then Some 1%nat
      else if between 194 223 c0 then
        match rest with
        | c1 :: _ => if cont c1 then Some 2%nat else None
        | _ => None
        end
      else if between 224 239 c0 then
        match rest with
        | c1 :: c2 :: _ =>
            if between (if (byteVal c0 =? 224)%N then 160 else 128)
                 (if (byteVal c0 =? 237)%N then 159 else 191) c1
               && cont c2
            then Some 3%nat else None
        | _ => None
        end
      else if between 240 244 c0 then
        match rest with
        | c1 :: c2 :: c3 :: _ =>
            if between (if (byteVal c0 =? 240)%N then 144 else 128)
                 (if (byteVal c0 =? 244)%N then 143 else 191) c1
               && cont c2 && cont c3
            then Some 4%nat else None
        | _ => None
        end
      else None
  end.

(** U+FFFD, the replacement character. *)
Definition replacement : list ascii := rune [239; 191; 189]%N.

(** The loop of encoding/json over the bytes of a string: a rune is
    copied, a byte that starts none is written as U+FFFD; [pending] counts
    the bytes of the current rune still to copy. *)
Fixpoint validFrom (pending : nat) (l : list ascii) : list ascii :=
  match l with
  | [] => []
  | c :: rest =>
      match pending with
      | S k => c :: validFrom k rest
      | O =>
          match runeLen l with
          | Some n => c :: validFrom (n - 1) rest
          | None => replacement ++ validFrom 0 rest
          end
      end
  end.

(** The string that [json.Unmarshal] reads back from what [json.Marshal]
    has written for [s]: [s] with every invalid byte replaced by U+FFFD. *)
Definition coerce (s : string) : string := ofBytes (validFrom 0 (bytesOf s)).

End utf8.


(** ** Package strconv and the [%02x] verb of package fmt *)

Module strconv.

(** Digits of [n] in base 16, lower case, as [big.Int.Text(16)] and the
    [%x] verb print them. *)
Definition hexText (n : Z) : string :=
  match n with
  | Z0 => "0"
  | Zpos p => HexString.Raw.of_pos p ""
  | Zneg p => "-" +:+ HexString.Raw.of_pos p ""
  end.

(** [fmt.Sprintf("%02x", n)] on an int64: zero padding to width two, where
    the sign of a negative number takes one of the two columns. *)
Definition Sprintf02x (n : Z) : string :=
  match n with
  | Zneg _ => hexText n
  | _ => let h := hexText n in
         if (String.length h <? 2)%nat then "0" +:+ h else h
  end.

Inductive NumError := ErrSyntax | ErrRange.

(** The digit loop of [strconv.ParseUint(s, 16, 64)]: a byte that is no
    hexadecimal digit is a syntax error, and a further digit after the value
    has reached the cutoff 2^64 / 16 is a range error. *)
Fixpoint parseUintLoop (s : string) (n : N) : NumError + N :=
  match s with
  | EmptyString => inr n
  | String c s' =>
      match HexString.ascii_to_digit c with
      | None => inl ErrSyntax
      | Some d =>
          if (2 ^ 60 <=? n)%N then inl ErrRange
          else parseUintLoop s' (d + 16 * n)%N
      end
  end.

Definition ParseUint16 (s : string) : NumError + N :=
  match s with
  | EmptyString => inl ErrSyntax
  | _ => parseUintLoop s 0%N
  end.

(** [strconv.ParseInt(s, 16, 64)]. *)
Definition ParseInt16 (s : string) : NumError + Z :=
  match s with
  | EmptyString => inl ErrSyntax
  | String c s' =>
      let neg := bool_decide (c = "-"%char) in
      let digits :=
        if bool_decide (c = "+"%char) || neg then s' else s in
      match ParseUint16 digits with
      | inl e => inl e
      | inr un =>
          if negb neg && (2 ^ 63 <=? Z.of_N un) then inl ErrRange
          else if neg && (2 ^ 63 <? Z.of_N un) then inl ErrRange
          else inr (if neg then - Z.of_N un else Z.of_N un)
      end
  end.

(** The text of a [*strconv.NumError]; [quote] is [strconv.Quote]. *)
Definition numErrorText (quote : string → string) (s : string) (e : NumError) : string :=
  "strconv.ParseInt: parsing " +:+ quote s +:+
  match e with
  | ErrSyntax => ": invalid syntax"
  | ErrRange => ": value out of range"
  end.

End strconv.


(** ** Data of the X.509 layer *)

(** [pkix.Name], without the raw attribute lists [Names] and [ExtraNames]. *)
Record Name := mkName {
  Country : list string;
  Organization : list string;
  OrganizationalUnit : list string;
  Locality : list string;
  Province : list string;
  StreetAddress : list string;
  PostalCode : list string;
  SerialNumberAttr : string;
  CommonName : string
}.

Definition emptyName : Name := mkName [] [] [] [] [] [] [] "" "".

Inductive Curve := P224 | P256 | P384 | P521.

Global Instance Curve_eq_dec : EqDecision Curve.
Proof. solve_decision. Defined.

(** [crypto.PublicKey]: an interface value, possibly nil. *)
Inductive PublicKey :=
  | ECDSAPublicKey (curve : Curve) (X Y : Z)
  | RSAPublicKey (modulus : Z) (exponent : Z)
  | OtherPublicKey (alg : string)
  | NilPublicKey.

(** [crypto.PrivateKey]; [signer] tells whether a key of another kind
    implements [crypto.Signer]. *)
Inductive PrivateKey :=
  | ECDSAPrivateKey (curve : Curve) (X Y D : Z)
  | RSAPrivateKey (modulus exponent D : Z)
  | OtherPrivateKey (alg : string) (signer : bool).

Inductive SignatureAlgorithm :=
  | UnknownSignatureAlgorithm
  | SHA256WithRSA
  | ECDSAWithSHA256.

(** [big.Int.BitLen]: the length of the absolute value in bits. *)
Definition BitLen (n : Z) : Z := if n =? 0 then 0 else Z.log2 (Z.abs n) + 1.

Definition KeyUsageDigitalSignature : Z := 1.
Definition KeyUsageKeyEncipherment : Z := 4.
Definition KeyUsageCertSign : Z := 32.
Definition KeyUsageCRLSign : Z := 64.

(** [x509.Certificate], the fields the engine sets or reads; times are
    instants in nanoseconds since the zero [time.Time]. *)
Record Certificate := mkCertificate {
  certSerialNumber : Z;
  certSubject : Name;
  certIssuer : Name;
  certNotBefore : Z;
  certNotAfter : Z;
  certKeyUsage : Z;
  certBasicConstraintsValid : bool;
  certIsCA : bool;
  certSubjectKeyId : string;
  certAuthorityKeyId : string;
  certDNSNames : list string;
  certIPAddresses : list string;
  certEmailAddresses : list string;
  certSignatureAlgorithm : SignatureAlgorithm;
  certPublicKey : PublicKey
}.

(** [x509.CertificateRequest]. *)
Record CertificateRequest := mkCSR {
  csrSubject : Name;
  csrPublicKey : PublicKey;
  csrDNSNames : list string;
  csrIPAddresses : list string;
  csrEmailAddresses : list string
}.

(** [x509.RevocationListEntry] and [x509.RevocationList]. *)
Record RevocationListEntry := mkRLEntry {
  rleSerialNumber : Z;
  rleRevocationTime : Z;
  rleReasonCode : Z
}.

Record Extension := mkExtension {
  extId : list Z;
  extCritical : bool;
  extValue : string
}.

Record RevocationList := mkRevocationList {
  RevokedCertificateEntries : list RevocationListEntry;
  crlNumber : Z;
  crlThisUpdate : Z;
  crlNextUpdate : Z;
  crlSignatureAlgorithm : SignatureAlgorithm;
  crlExtraExtensions : list Extension
}.

(** [IndexEntry] of store.go: a certificate record of index.json. *)
Record IndexEntry := mkIndexEntry {
  Serial : string;
  Subject : string;
  NotBefore : string;
  NotAfter : string;
  Status : string;
  RevokedAt : string;
  RevocationReason : string
}.

(** ** The Go standard library, as far as the engine calls into it *)

Class GoLib := {
  (** [strings.ToUpper] and [strings.ToLower] outside ASCII *)
  unicode_ToUpper : string → string;
  unicode_ToLower : string → string;
  (** [strconv.Quote], the [%q] verb *)
  strconv_Quote : string → string;
  (** key generation from [rand.Reader], whose state is the entropy [N] *)
  ecdsa_GenerateKey : Curve → N → result PrivateKey;
  rsa_GenerateKey : N → Z → result PrivateKey;
  x509_MarshalPKIXPublicKey : PublicKey → result string;
  sha1_Sum : string → string;
  x509_CreateCertificate :
    N → Certificate → Certificate → PublicKey → PrivateKey → result string;
  x509_MarshalPKCS8PrivateKey : PrivateKey → result string;
  x509_ParsePKCS8PrivateKey : string → result PrivateKey;
  x509_ParseCertificate : string → result Certificate;
  x509_ParseCertificateRequest : string → result CertificateRequest;
  x509_ParseRevocationList : string → result RevocationList;
  x509_CreateRevocationList :
    N → RevocationList → Certificate → PrivateKey → result string;
  (** [csr.CheckSignature()] and [cert.CheckSignatureFrom(parent)]:
      [None] is the nil error *)
  CheckSignature : CertificateRequest → option string;
  CheckSignatureFrom : Certificate → Certificate → option string;
  (** [pem.EncodeToMemory] of a block type and its bytes; [pem.Decode]
      returns the block type and bytes of the first block *)
  pem_EncodeToMemory : string → string → string;
  pem_Decode : string → option (string * string);
  (** [json.MarshalIndent(entries, "", "  ")] and [json.Unmarshal] *)
  json_MarshalIndent : list IndexEntry → result string;
  json_Unmarshal : string → result (list IndexEntry);
  (** [asn1.Marshal] of the AuthorityKeyIdentifier structure *)
  asn1_MarshalAKI : string → result string;
  (** [t.Format(time.RFC3339)] and [time.Parse(time.RFC3339, s)] *)
  time_Format : Z → string;
  time_Parse : string → result Z
}.

(** An index entry as it is read back from its JSON text. *)
Definition jsonEntry (e : IndexEntry) : IndexEntry :=
  mkIndexEntry (utf8.coerce (Serial e)) (utf8.coerce (Subject e))
    (utf8.coerce (NotBefore e)) (utf8.coerce (NotAfter e))
    (utf8.coerce (Status e)) (utf8.coerce (RevokedAt e))
    (utf8.coerce (RevocationReason e)).

(** What the proofs use of packages encoding/json and time: the text
    ["[]\n"] that InitCA writes decodes to the empty index; an index that
    was encoded (and newline-terminated, as marshalIndex and SaveIndex do)
    decodes to itself but for the bytes that are not valid UTF-8, which come
    back as U+FFFD; the strings that json.Unmarshal returns are valid
    UTF-8; and so is an RFC 3339 time text. *)
Class GoLibLaws (L : GoLib) : Prop := {
  json_Unmarshal_empty : json_Unmarshal ("[]" +:+ LF) = Ok [];
  json_Unmarshal_Marshal entries data :
    json_MarshalIndent entries = Ok data →
    json_Unmarshal (data +:+ LF) = Ok (jsonEntry <$> entries);
  json_Unmarshal_valid data entries :
    json_Unmarshal data = Ok entries →
    Forall (λ e, jsonEntry e = e) entries;
  time_Format_valid t : utf8.coerce (time_Format t) = time_Format t
}.

(** ** The store: files and directories, and the calls that change them *)

Inductive Syscall :=
  | SysMkdirAll (path : string)
  | SysWriteFile (path : string)
  | SysRename (src dst : string)
  | SysRemove (path : string).

(** [files] maps a path to the bytes of the file, [dirs] are the existing
    directories, and [trace] lists the mutating calls made so far, oldest
    first. A path is the text given to package os; the engine builds its
    paths with [filepath.Join], which cleans them, so that one file has one
    text. *)
Record Store := mkStore {
  files : gmap string string;
  dirs : gset string;
  trace : list Syscall
}.

Definition emptyStore : Store := mkStore ∅ ∅ [].

(** How a call of [os.WriteFile] fails: with the error text [wfErr], leaving
    either nothing new at the path or a file with the bytes [wfLeft]. *)
Record WriteFault := mkWriteFault {
  wfErr : string;
  wfLeft : option string
}.

(** The failures of the environment, by path: of [os.WriteFile], of
    [os.Rename] (by source path) and of [os.MkdirAll]. Reading, [os.Stat] and
    [os.Remove] reflect the store: [os.Remove] removes what is there to
    remove, a file or an empty directory. *)
Record Faults := mkFaults {
  writeFault : string → option WriteFault;
  renameFault : string → option string;
  mkdirFault : string → option string
}.

Definition noFaults : Faults :=
  mkFaults (λ _, None) (λ _, None) (λ _, None).

(** Engine code: a function of the store that returns the new store and a
    value or an error. *)
Definition IO (A : Type) : Type := Store → Store * result A.

Definition ret {A} (a : A) : IO A := λ st, (st, Ok a).
Definition fail {A} (msg : string) : IO A := λ st, (st, Err msg).
Definition lift {A} (r : result A) : IO A := λ st, (st, r).
Definition gets {A} (f : Store → A) : IO A := λ st, (st, Ok (f st)).

Definition bind {A B} (m : IO A) (k : A → IO B) : IO B :=
  λ st, match m st with
        | (st', Ok a) => k a st'
        | (st', Err e) => (st', Err e)
        end.

(** [if err != nil { handler }]. *)
Definition onErr {A} (m : IO A) (handler : string → IO A) : IO A :=
  λ st, match m st with
        | (st', Ok a) => (st', Ok a)
        | (st', Err e) => handler e st'
        end.

(** [if err != nil { return fmt.Errorf("<prefix>: %w", err) }]. *)
Definition wrapping {A} (prefix : string) (m : IO A) : IO A :=
  onErr m (λ e, fail (wrapErr prefix e)).

Global Instance IO_ret : MRet IO := @ret.
Global Instance IO_bind : MBind IO := λ A B k m, bind m k.

Definition logCall (c : Syscall) (st : Store) : Store :=
  mkStore (files st) (dirs st) (trace st ++ [c]).
Definition setFiles (m : gmap string string) (st : Store) : Store :=
  mkStore m (dirs st) (trace st).
Definition setDirs (d : gset string) (st : Store) : Store :=
  mkStore (files st) d (trace st).

(** [os.Stat(path)] returns a nil error. *)
Definition statOk (path : string) (st : Store) : bool :=
  bool_decide (is_Some (files st !! path)) || bool_decide (path ∈ dirs st).

(** [os.ReadFile]. *)
Definition os_ReadFile (path : string) : IO string :=
  λ st, match files st !! path with
        | Some data => (st, Ok data)
        | None =>
            if bool_decide (path ∈ dirs st)
            then (st, Err ("read " +:+ path +:+ ": is a directory"))
            else (st, Err ("open " +:+ path +:+ ": no such file or directory"))
        end.

(** [os.WriteFile]. *)
Definition os_WriteFile (ft : Faults) (path data : string) : IO unit :=
  λ st, let st := logCall (SysWriteFile path) st in
        match writeFault ft path with
        | None => (setFiles (<[path := data]> (files st)) st, Ok tt)
        | Some wf =>
            (match wfLeft wf with
             | Some part => setFiles (<[path := part]> (files st)) st
             | None => st
             end, Err (wfErr wf))
        end.

(** [os.Rename]: atomic, it replaces the target. *)
Definition os_Rename (ft : Faults) (src dst : string) : IO unit :=
  λ st, let st := logCall (SysRename src dst) st in
        match renameFault ft src with
        | Some e => (st, Err e)
        | None =>
            match files st !! src with
            | Some data =>
                (setFiles (<[dst := data]> (delete src (files st))) st, Ok tt)
            | None =>
                (st, Err ("rename " +:+ src +:+ " " +:+ dst +:+
                          ": no such file or directory"))
            end
        end.

(** Whether nothing of the store lies below the directory [path]. *)
Definition emptyDir (path : string) (st : Store) : bool :=
  bool_decide
    (set_Forall (λ q, strings.HasPrefix q (path +:+ "/") = false)
       (dom (files st) ∪ dirs st)).

(** [os.Remove]: it removes a file, or a directory that is empty; its
    callers drop the error it returns otherwise. *)
Definition os_Remove (path : string) : IO unit :=
  λ st, let st := logCall (SysRemove path) st in
        match files st !! path with
        | Some _ => (setFiles (delete path (files st)) st, Ok tt)
        | None =>
            if bool_decide (path ∈ dirs st) && emptyDir path st
            then (setDirs (dirs st ∖ {[path]}) st, Ok tt)
            else (st, Ok tt)
        end.

(** The directories that [os.MkdirAll(path)] makes sure exist: the path and
    each of its prefixes that a separator follows. *)
Fixpoint dirPrefixes (path : string) : list string :=
  match path with
  | EmptyString => [EmptyString]
  | String c rest =>
      (if bool_decide (c = "/"%char) then [EmptyString] else [])
      ++ (String c <$> dirPrefixes rest)
  end.

(** [os.MkdirAll]. *)
Definition os_MkdirAll (ft : Faults) (path : string) : IO unit :=
  λ st, let st := logCall (SysMkdirAll path) st in
        match mkdirFault ft path with
        | Some e => (st, Err e)
        | None => (setDirs (dirs st ∪ list_to_set (dirPrefixes path)) st, Ok tt)
        end.

(** One element of a path in the loop of [filepath.Clean], on the elements
    kept so far, the last one first: an empty element and "." are dropped,
    ".." takes the element before it away, stays where there is none to
    take away, and is dropped at the root. *)
Definition cleanStep (rooted : bool) (kept : list string) (elem : string)
    : list string :=
  if bool_decide (elem = "") || bool_decide (elem = ".") then kept
  else if bool_decide (elem = "..") then
    match kept with
    | top :: below => if bool_decide (top = "..") then elem :: kept else below
    | [] => if rooted then [] else [elem]
    end
  else elem :: kept.

(** [filepath.Clean], on Unix. *)
Definition filepath_Clean (path : string) : string :=
  if bool_decide (path = "") then "."
  else
    let rooted := strings.HasPrefix path "/" in
    let kept := foldl (cleanStep rooted) [] (strings.Split path "/"%char) in
    let body := strings.Join (rev kept) "/" in
    if rooted then "/" +:+ body
    else if bool_decide (body = "") then "." else body.

(** [filepath.Join]: the elements from the first non-empty one on, joined
    and cleaned. *)
Fixpoint filepath_Join (elems : list string) : string :=
  match elems with
  | [] => ""
  | e :: rest =>
      if bool_decide (e = "") then filepath_Join rest
      else filepath_Clean (strings.Join elems "/")
  end.

(** The path [filepath.Join(dir, name)] of the entry [name] of [dir]. *)
Definition inDir (dir name : string) : string := filepath_Join [dir; name].

Arguments filepath_Clean : simpl never.
Arguments filepath_Join : simpl never.
Arguments inDir : simpl never.

(** The name, below the data directory, of the certificate file with the
    serial text [hex]: certs/<hex>.pem. *)
Definition certName (hex : string) : string := "certs/" +:+ hex +:+ ".pem".

(** Whether the path lies under the certs/ subdirectory of [dir]. *)
Definition underCerts (dir path : string) : bool :=
  strings.HasPrefix path (inDir dir "certs" +:+ "/").

(** An element that [filepath.Clean] keeps as it is, and a name made of
    such elements. *)
Definition normalElem (e : string) : bool :=
  negb (bool_decide (e = "") || bool_decide (e = ".") || bool_decide (e = "..")).

Definition normalName (name : string) : bool :=
  forallb normalElem (strings.Split name "/"%char).

(** The text that [filepath.Join] puts before such a name in the directory
    [dir]: nothing for the current directory, "/" for the root, and the
    cleaned directory with a separator otherwise. *)
Definition dirBase (dir : string) : string :=
  if bool_decide (dir = "") then ""
  else
    let rooted := strings.HasPrefix dir "/" in
    let kept := foldl (cleanStep rooted) [] (strings.Split dir "/"%char) in
    (if rooted then "/" else "")
    +:+ (if bool_decide (kept = []) then ""
         else strings.Join (rev kept) "/" +:+ "/").


Section Engine.
Context `{L : GoLib}.

(** ** dn.go: the name codec *)

Definition withCommonName (n : Name) (v : string) : Name :=
  mkName (Country n) (Organization n) (OrganizationalUnit n) (Locality n)
    (Province n) (StreetAddress n) (PostalCode n) (SerialNumberAttr n) v.
Definition addOrganization (n : Name) (v : string) : Name :=
  mkName (Country n) (Organization n ++ [v]) (OrganizationalUnit n)
    (Locality n) (Province n) (StreetAddress n) (PostalCode n)
    (SerialNumberAttr n) (CommonName n).
Definition addOrganizationalUnit (n : Name) (v : string) : Name :=
  mkName (Country n) (Organization n) (OrganizationalUnit n ++ [v])
    (Locality n) (Province n) (StreetAddress n) (PostalCode n)
    (SerialNumberAttr n) (CommonName n).
Definition addLocality (n : Name) (v : string) : Name :=
  mkName (Country n) (Organization n) (OrganizationalUnit n)
    (Locality n ++ [v]) (Province n) (StreetAddress n) (PostalCode n)
    (SerialNumberAttr n) (CommonName n).
Definition addProvince (n : Name) (v : string) : Name :=
  mkName (Country n) (Organization n) (OrganizationalUnit n) (Locality n)
    (Province n ++ [v]) (StreetAddress n) (PostalCode n)
    (SerialNumberAttr n) (CommonName n).
Definition addCountry (n : Name) (v : string) : Name :=
  mkName (Country n ++ [v]) (Organization n) (OrganizationalUnit n)
    (Locality n) (Province n) (StreetAddress n) (PostalCode n)
    (SerialNumberAttr n) (CommonName n).

(** The body of the loop of ParseDN, for one piece of the split input. *)
Definition parseComponent (name : Name) (part : string) : result Name :=
  let part := strings.TrimSpace part in
  if bool_decide (part = "") then Ok name
  else
    let idx := strings.Index part "="%char in
    if idx <? 0 then
      Err ("invalid DN component: " +:+ strconv_Quote part +:+ " (missing '=')")
    else
      let attrType := strings.TrimSpace (strings.sliceTo part idx) in
      let attrValue := strings.TrimSpace (strings.sliceFrom part (idx + 1)) in
      if bool_decide (attrValue = "") then
        Err ("empty value for attribute " +:+ strconv_Quote attrType)
      else
        let upper := strings.ToUpper unicode_ToUpper attrType in
        if bool_decide (upper = "CN") then Ok (withCommonName name attrValue)
        else if bool_decide (upper = "O") then Ok (addOrganization name attrValue)
        else if bool_decide (upper = "OU") then
          Ok (addOrganizationalUnit name attrValue)
        else if bool_decide (upper = "L") then Ok (addLocality name attrValue)
        else if bool_decide (upper = "ST") then Ok (addProvince name attrValue)
        else if bool_decide (upper = "C") then Ok (addCountry name attrValue)
        else Err ("unknown attribute type " +:+ strconv_Quote attrType).

Fixpoint parseComponents (parts : list string) (name : Name) : result Name :=
  match parts with
  | [] => Ok name
  | part :: rest =>
      match parseComponent name part with
      | Ok name' => parseComponents rest name'
      | Err e => Err e
      end
  end.

(** ParseDN parses a Distinguished Name string into a [pkix.Name]. *)
Definition ParseDN (dn : string) : result Name :=
  if bool_decide (strings.TrimSpace dn = "") then
    Err "distinguished name cannot be empty"
  else parseComponents (strings.Split dn ","%char) emptyName.

(** The components FormatDN joins, in the order CN, O, OU, L, ST, C. *)
Definition dnParts (name : Name) : list string :=
  (if bool_decide (CommonName name ≠ "") then ["CN=" +:+ CommonName name] else [])
  ++ (String.append "O=" <$> Organization name)
  ++ (String.append "OU=" <$> OrganizationalUnit name)
  ++ (String.append "L=" <$> Locality name)
  ++ (String.append "ST=" <$> Province name)
  ++ (String.append "C=" <$> Country name).

(** FormatDN formats a [pkix.Name] back to a DN string. *)
Definition FormatDN (name : Name) : string := strings.Join (dnParts name) ",".

(** AlgoDisplayName maps CLI key algorithm flags to display names. *)
Definition AlgoDisplayName (keyAlgo : string) : string :=
  if bool_decide (keyAlgo = "ecdsa-p256") then "ECDSA P-256"
  else if bool_decide (keyAlgo = "rsa-2048") then "RSA 2048"
  else keyAlgo.

(** ** store.go: the persistence layer *)

(** InitDataDir creates the CA data directory structure. *)
Definition InitDataDir (ft : Faults) (dataDir : string) : IO unit :=
  let certsDir := filepath_Join [dataDir; "certs"] in
  wrapping "failed to create certs directory" (os_MkdirAll ft certsDir).

(** IsInitialized returns true if both ca.key and ca.crt exist in dataDir. *)
Definition IsInitialized (dataDir : string) (st : Store) : bool :=
  let keyPath := filepath_Join [dataDir; "ca.key"] in
  let certPath := filepath_Join [dataDir; "ca.crt"] in
  statOk keyPath st && statOk certPath st.

(** LoadPrivateKey reads a PEM-encoded PKCS#8 private key from path. *)
Definition LoadPrivateKey (path : string) : IO PrivateKey :=
  data ← wrapping "failed to read private key" (os_ReadFile path);
  match pem_Decode data with
  | None => fail ("failed to decode PEM block from " +:+ path)
  | Some (_, der) =>
      wrapping "failed to parse private key" (lift (x509_ParsePKCS8PrivateKey der))
  end.

(** LoadCertificate reads a PEM-encoded X.509 certificate from path. *)
Definition LoadCertificate (path : string) : IO Certificate :=
  data ← wrapping "failed to read certificate" (os_ReadFile path);
  match pem_Decode data with
  | None => fail ("failed to decode PEM block from " +:+ path)
  | Some (_, der) =>
      wrapping "failed to parse certificate" (lift (x509_ParseCertificate der))
  end.

(** LoadCRL reads a PEM-encoded CRL from path. *)
Definition LoadCRL (path : string) : IO RevocationList :=
  data ← wrapping "failed to read CRL" (os_ReadFile path);
  match pem_Decode data with
  | None => fail ("failed to decode PEM block from " +:+ path)
  | Some (_, der) =>
      wrapping "failed to parse CRL" (lift (x509_ParseRevocationList der))
  end.

(** ReadCounter reads a hex string counter from a file and returns its
    int64 value. *)
Definition ReadCounter (path : string) : IO Z :=
  data ← onErr (os_ReadFile path)
         (λ e, fail ("failed to read counter from " +:+ path +:+ ": " +:+ e));
  let s := strings.TrimSpace data in
  match strconv.ParseInt16 s with
  | inr val => mret val
  | inl e =>
      fail ("failed to parse counter value " +:+ strconv_Quote s +:+ ": "
            +:+ strconv.numErrorText strconv_Quote s e)
  end.

(** LoadIndex reads and parses index.json from the data directory. *)
Definition LoadIndex (dataDir : string) : IO (list IndexEntry) :=
  let path := filepath_Join [dataDir; "index.json"] in
  data ← wrapping "failed to read index" (os_ReadFile path);
  wrapping "failed to parse index" (lift (json_Unmarshal data)).

(** FormatSerial returns a lowercase hex string zero-padded to at least 2
    digits. *)
Definition FormatSerial (n : Z) : string := strconv.Sprintf02x n.

(** FormatSerialBig returns a lowercase hex string from a [*big.Int],
    zero-padded to at least 2 digits. *)
Definition FormatSerialBig (n : Z) : string :=
  let s := strings.ToLower unicode_ToLower (strconv.hexText n) in
  if (String.length s <? 2)%nat then "0" +:+ s else s.

(** writeFileAtomic writes data to a temporary file then renames it
    atomically. *)
Definition writeFileAtomic (ft : Faults) (path data : string) : IO unit :=
  let tmpPath := path +:+ ".tmp" in
  onErr (os_WriteFile ft tmpPath data)
    (λ e, os_Remove tmpPath;;
          fail ("failed to write " +:+ path +:+ ": " +:+ e));;
  onErr (os_Rename ft tmpPath path)
    (λ e, os_Remove tmpPath;;
          fail ("failed to rename " +:+ path +:+ ": " +:+ e)).

(** SaveIndex serializes index entries to JSON and writes to index.json. *)
Definition SaveIndex (ft : Faults) (dataDir : string)
    (entries : list IndexEntry) : IO unit :=
  data ← wrapping "failed to marshal index" (lift (json_MarshalIndent entries));
  let data := data +:+ LF in
  let path := filepath_Join [dataDir; "index.json"] in
  writeFileAtomic ft path data.

(** WriteCounter writes an int64 value as a lowercase hex string to a file. *)
Definition WriteCounter (ft : Faults) (path : string) (value : Z) : IO unit :=
  let s := FormatSerial value in
  writeFileAtomic ft path (s +:+ LF).

(** cleanupTempFiles removes .tmp files best-effort. *)
Fixpoint cleanupTempFiles (paths : list string) : IO unit :=
  match paths with
  | [] => mret tt
  | p :: rest => os_Remove p;; cleanupTempFiles rest
  end.

(** ** ca.go: the engine *)

Record InitResult := mkInitResult {
  irSubject : string;
  irAlgorithm : string;
  irSerial : string;
  irNotAfter : Z;
  irCertPath : string;
  irKeyPath : string
}.

Record SignResult := mkSignResult {
  srSerial : string;
  srSubject : string;
  srNotAfter : Z;
  srCertPath : string
}.

Record CertInfo := mkCertInfo {
  ciSerial : string;
  ciSubject : string;
  ciNotAfter : Z;
  ciStatus : string
}.

(** ReasonCodes maps reason code strings to RFC 5280 CRL reason codes. *)
Definition ReasonCodes (reason : string) : option Z :=
  if bool_decide (reason = "unspecified") then Some 0
  else if bool_decide (reason = "keyCompromise") then Some 1
  else if bool_decide (reason = "affiliationChanged") then Some 3
  else if bool_decide (reason = "superseded") then Some 4
  else if bool_decide (reason = "cessationOfOperation") then Some 5
  else None.

Definition ValidReasons : list string :=
  ["unspecified"; "keyCompromise"; "affiliationChanged"; "superseded";
   "cessationOfOperation"].

(** generateKeyPair generates an ECDSA P-256 or RSA 2048 key pair. *)
Definition generateKeyPair (rnd : N) (keyAlgo : string) : result PrivateKey :=
  if bool_decide (keyAlgo = "ecdsa-p256") then ecdsa_GenerateKey P256 rnd
  else if bool_decide (keyAlgo = "rsa-2048") then rsa_GenerateKey rnd 2048
  else Err ("unsupported key algorithm: " +:+ keyAlgo).

(** publicKeyBytes returns the DER-encoded public key bytes. *)
Definition publicKeyBytes (pub : PublicKey) : result string :=
  match pub with
  | ECDSAPublicKey _ _ _ => x509_MarshalPKIXPublicKey pub
  | RSAPublicKey _ _ => x509_MarshalPKIXPublicKey pub
  | _ => Err "unsupported public key type"
  end.

(** computeSKI computes the Subject Key Identifier as SHA-1 hash of the
    public key. *)
Definition computeSKI (pub : PublicKey) : result string :=
  match publicKeyBytes pub with
  | Err e => Err e
  | Ok der => Ok (sha1_Sum der)
  end.

(** sigAlgorithm returns the signature algorithm for the key type. *)
Definition sigAlgorithm (key : PrivateKey) : SignatureAlgorithm :=
  match key with
  | ECDSAPrivateKey _ _ _ _ => ECDSAWithSHA256
  | RSAPrivateKey _ _ _ => SHA256WithRSA
  | OtherPrivateKey _ _ => UnknownSignatureAlgorithm
  end.

(** publicKey extracts the public key from a private key. *)
Definition publicKey (key : PrivateKey) : PublicKey :=
  match key with
  | ECDSAPrivateKey curve x y _ => ECDSAPublicKey curve x y
  | RSAPrivateKey n e _ => RSAPublicKey n e
  | OtherPrivateKey _ _ => NilPublicKey
  end.

(** [time.Duration(n) * unit], in int64 nanoseconds. *)
Definition hourNs : Z := 3600000000000.
Definition durationOf (n unit : Z) : Z := wrap64 (n * unit).

(** One step of a commit loop: rename, and on failure clean up and return
    the error "failed to commit <final>". *)
Definition commitOne (ft : Faults) (tmpPaths : list string)
    (c : string * string) : IO unit :=
  onErr (os_Rename ft c.1 c.2)
    (λ e, cleanupTempFiles tmpPaths;;
          fail ("failed to commit " +:+ c.2 +:+ ": " +:+ e)).

Fixpoint commitAll (ft : Faults) (tmpPaths : list string)
    (commitOrder : list (string * string)) : IO unit :=
  match commitOrder with
  | [] => mret tt
  | c :: rest => commitOne ft tmpPaths c;; commitAll ft tmpPaths rest
  end.

(** One staging write: on failure clean up and return the wrapped error. *)
Definition stage (ft : Faults) (tmpPaths : list string)
    (tmpPath data what : string) : IO unit :=
  onErr (os_WriteFile ft tmpPath data)
    (λ e, cleanupTempFiles tmpPaths;; fail (wrapErr what e)).

(** InitCA initializes the root CA with key pair and self-signed
    certificate. [rnd] is the state of [rand.Reader] and [now] the reading
    of the system clock. *)
Definition InitCA (ft : Faults) (rnd : N) (now : Z) (dataDir : string)
    (subject : Name) (keyAlgo : string) (validityDays : Z) : IO InitResult :=
  (* VALIDATE PHASE *)
  initialized ← gets (IsInitialized dataDir);
  if initialized : bool then
    fail ("Error: CA already initialized at " +:+ dataDir)
  else
  (* MUTATE PHASE *)
  privKey ← wrapping "failed to generate key pair" (lift (generateKeyPair rnd keyAlgo));
  let pub := publicKey privKey in
  ski ← wrapping "failed to compute subject key identifier" (lift (computeSKI pub));
  let notAfter := now + durationOf (wrap64 (validityDays * 24)) hourNs in
  let template :=
    mkCertificate 1 subject emptyName now notAfter
      (Z.lor KeyUsageCertSign KeyUsageCRLSign) true true ski "" [] [] []
      (sigAlgorithm privKey) NilPublicKey in
  certDER ← wrapping "failed to create certificate"
              (lift (x509_CreateCertificate rnd template template pub privKey));
  InitDataDir ft dataDir;;
  let keyPath := filepath_Join [dataDir; "ca.key"] in
  let certPath := filepath_Join [dataDir; "ca.crt"] in
  let serialPath := filepath_Join [dataDir; "serial"] in
  let crlnumPath := filepath_Join [dataDir; "crlnumber"] in
  let indexPath := filepath_Join [dataDir; "index.json"] in
  let serialData := FormatSerial 2 +:+ LF in
  let crlnumData := FormatSerial 1 +:+ LF in
  let indexData := "[]" +:+ LF in
  (* STAGE SUB-PHASE *)
  let tmpPaths :=
    [keyPath +:+ ".tmp"; certPath +:+ ".tmp"; serialPath +:+ ".tmp";
     crlnumPath +:+ ".tmp"; indexPath +:+ ".tmp"] in
  keyDER ← wrapping "failed to marshal private key"
             (lift (x509_MarshalPKCS8PrivateKey privKey));
  let keyPEM := pem_EncodeToMemory "PRIVATE KEY" keyDER in
  stage ft tmpPaths (keyPath +:+ ".tmp") keyPEM "failed to write CA key";;
  let certPEM := pem_EncodeToMemory "CERTIFICATE" certDER in
  stage ft tmpPaths (certPath +:+ ".tmp") certPEM "failed to write CA certificate";;
  stage ft tmpPaths (serialPath +:+ ".tmp") serialData "failed to write serial";;
  stage ft tmpPaths (crlnumPath +:+ ".tmp") crlnumData "failed to write crlnumber";;
  stage ft tmpPaths (indexPath +:+ ".tmp") indexData "failed to write index";;
  (* COMMIT SUB-PHASE *)
  let commitOrder :=
    [(keyPath +:+ ".tmp", keyPath);
     (certPath +:+ ".tmp", certPath);
     (serialPath +:+ ".tmp", serialPath);
     (crlnumPath +:+ ".tmp", crlnumPath);
     (indexPath +:+ ".tmp", indexPath)] in
  commitAll ft tmpPaths commitOrder;;
  mret (mkInitResult (FormatDN subject) (AlgoDisplayName keyAlgo)
          (FormatSerial 1) notAfter certPath keyPath).

Definition errUnsupportedCSRKey : string :=
  "Error: unsupported key algorithm in CSR. Supported: ECDSA P-256, RSA 2048".

(** The key algorithm switch of SignCSR. *)
Definition checkKeyAlgorithm (pub : PublicKey) : result unit :=
  match pub with
  | ECDSAPublicKey curve _ _ =>
      if bool_decide (curve ≠ P256) then Err errUnsupportedCSRKey else Ok tt
  | RSAPublicKey n _ =>
      if bool_decide (BitLen n ≠ 2048) then Err errUnsupportedCSRKey else Ok tt
  | _ => Err errUnsupportedCSRKey
  end.

Definition isRSA (pub : PublicKey) : bool :=
  match pub with RSAPublicKey _ _ => true | _ => false end.

(** SignCSR validates a CSR and issues a signed end-entity certificate. *)
Definition SignCSR (ft : Faults) (rnd : N) (now : Z) (dataDir : string)
    (csrPEM csrPath : string) (validityDays : Z) : IO SignResult :=
  (* VALIDATE PHASE *)
  initialized ← gets (IsInitialized dataDir);
  if negb initialized then
    fail "Error: CA not initialized. Run 'ca init' first."
  else
  match pem_Decode csrPEM with
  | None => fail ("Error: failed to parse CSR from " +:+ csrPath)
  | Some (_, der) =>
  match x509_ParseCertificateRequest der with
  | Err _ => fail ("Error: failed to parse CSR from " +:+ csrPath)
  | Ok csr =>
  match CheckSignature csr with
  | Some _ => fail "Error: CSR signature verification failed"
  | None =>
  lift (checkKeyAlgorithm (csrPublicKey csr));;
  (* MUTATE PHASE *)
  let caKeyPath := filepath_Join [dataDir; "ca.key"] in
  let caCertPath := filepath_Join [dataDir; "ca.crt"] in
  let serialPath := filepath_Join [dataDir; "serial"] in
  caKey ← wrapping "failed to load CA key" (LoadPrivateKey caKeyPath);
  caCert ← wrapping "failed to load CA certificate" (LoadCertificate caCertPath);
  serialVal ← wrapping "failed to read serial counter" (ReadCounter serialPath);
  subjectSKI ← wrapping "failed to compute subject key identifier"
                 (lift (computeSKI (csrPublicKey csr)));
  let notAfter := now + durationOf (wrap64 (validityDays * 24)) hourNs in
  let keyUsage :=
    if isRSA (csrPublicKey csr)
    then Z.lor KeyUsageDigitalSignature KeyUsageKeyEncipherment
    else KeyUsageDigitalSignature in
  let template :=
    mkCertificate serialVal (csrSubject csr) emptyName now notAfter keyUsage
      true false subjectSKI (certSubjectKeyId caCert) (csrDNSNames csr)
      (csrIPAddresses csr) (csrEmailAddresses csr) (sigAlgorithm caKey)
      NilPublicKey in
  certDER ← wrapping "failed to create certificate"
              (lift (x509_CreateCertificate rnd template caCert
                       (csrPublicKey csr) caKey));
  let serialHex := FormatSerial serialVal in
  let certFilePath := filepath_Join [dataDir; "certs"; serialHex +:+ ".pem"] in
  index ← wrapping "failed to load index" (LoadIndex dataDir);
  let newEntry :=
    mkIndexEntry serialHex (FormatDN (csrSubject csr)) (time_Format now)
      (time_Format notAfter) "active" "" "" in
  let updatedIndex := index ++ [newEntry] in
  let certPEMData := pem_EncodeToMemory "CERTIFICATE" certDER in
  indexData ← wrapping "failed to marshal index"
                (lift (json_MarshalIndent updatedIndex));
  let indexData := indexData +:+ LF in
  let newSerialData := FormatSerial (wrap64 (serialVal + 1)) +:+ LF in
  (* STAGE SUB-PHASE *)
  let indexPath := filepath_Join [dataDir; "index.json"] in
  let tmpPaths :=
    [serialPath +:+ ".tmp"; certFilePath +:+ ".tmp"; indexPath +:+ ".tmp"] in
  stage ft tmpPaths (serialPath +:+ ".tmp") newSerialData "failed to stage serial";;
  stage ft tmpPaths (certFilePath +:+ ".tmp") certPEMData
    "failed to stage certificate";;
  stage ft tmpPaths (indexPath +:+ ".tmp") indexData "failed to stage index";;
  (* COMMIT SUB-PHASE *)
  let commitOrder :=
    [(serialPath +:+ ".tmp", serialPath);
     (certFilePath +:+ ".tmp", certFilePath);
     (indexPath +:+ ".tmp", indexPath)] in
  commitAll ft tmpPaths commitOrder;;
  mret (mkSignResult serialHex (FormatDN (csrSubject csr)) notAfter certFilePath)
  end end end.

(** The search loop of RevokeCert: the position [found] of the first entry
    with the given serial, together with [index[found]]; [None] is the Go
    code's [found = -1]. *)
Fixpoint findSerial (index : list IndexEntry) (serialHex : string)
    : option (nat * IndexEntry) :=
  match index with
  | [] => None
  | entry :: rest =>
      if bool_decide (Serial entry = serialHex) then Some (O, entry)
      else prod_map S id <$> findSerial rest serialHex
  end.

Definition revoked (entry : IndexEntry) (at_ reason : string) : IndexEntry :=
  mkIndexEntry (Serial entry) (Subject entry) (NotBefore entry)
    (NotAfter entry) "revoked" at_ reason.

(** RevokeCert revokes a certificate by serial number. *)
Definition RevokeCert (ft : Faults) (now : Z) (dataDir serialHex reason : string)
    : IO unit :=
  (* VALIDATE PHASE *)
  initialized ← gets (IsInitialized dataDir);
  if negb initialized then
    fail "Error: CA not initialized. Run 'ca init' first."
  else
  index ← wrapping "failed to load index" (LoadIndex dataDir);
  match findSerial index serialHex with
  | None =>
      fail ("Error: certificate with serial " +:+ serialHex +:+ " not found")
  | Some (found, entry) =>
      if bool_decide (Status entry = "revoked") then
        fail ("Error: certificate with serial " +:+ serialHex
              +:+ " is already revoked")
      else
        (* MUTATE PHASE *)
        let index := <[found := revoked entry (time_Format now) reason]> index in
        wrapping "failed to save index" (SaveIndex ft dataDir index)
  end.

(** The display row ListCerts computes for one entry; the error of
    [time.Parse] is dropped, which leaves the zero [time.Time]. *)
Definition certInfo (now : Z) (entry : IndexEntry) : CertInfo :=
  let notAfter := match time_Parse (NotAfter entry) with Ok t => t | Err _ => 0 end in
  let status :=
    if bool_decide (Status entry = "revoked") then "revoked"
    else if notAfter <? now then "expired"
    else "active" in
  mkCertInfo (Serial entry) (Subject entry) notAfter status.

(** ListCerts returns all issued certificates with computed display
    status. *)
Definition ListCerts (now : Z) (dataDir : string) : IO (list CertInfo) :=
  initialized ← gets (IsInitialized dataDir);
  if negb initialized then
    fail "Error: CA not initialized. Run 'ca init' first."
  else
  index ← wrapping "failed to load index" (LoadIndex dataDir);
  mret (certInfo now <$> index).

(** ** crl.go *)

Record CRLResult := mkCRLResult {
  crThisUpdate : Z;
  crNextUpdate : Z;
  crCRLNumber : Z;
  crRevokedCount : nat;
  crCRLPath : string
}.

(** ReasonNames maps RFC 5280 reason code integers back to display
    strings; a missing key reads as the empty string. *)
Definition ReasonNames (code : Z) : string :=
  if code =? 0 then "unspecified"
  else if code =? 1 then "keyCompromise"
  else if code =? 3 then "affiliationChanged"
  else if code =? 4 then "superseded"
  else if code =? 5 then "cessationOfOperation"
  else "".

(** The loop of GenerateCRL that builds the revoked certificate entries. *)
Fixpoint revokedEntriesOf (index : list IndexEntry)
    : result (list RevocationListEntry) :=
  match index with
  | [] => Ok []
  | entry :: rest =>
      if bool_decide (Status entry ≠ "revoked") then revokedEntriesOf rest
      else
        match strconv.ParseInt16 (Serial entry) with
        | inl e =>
            Err ("failed to parse serial " +:+ Serial entry +:+ ": "
                 +:+ strconv.numErrorText strconv_Quote (Serial entry) e)
        | inr serial =>
            match time_Parse (RevokedAt entry) with
            | Err e =>
                Err ("failed to parse revocation time for serial "
                     +:+ Serial entry +:+ ": " +:+ e)
            | Ok revokedAt =>
                let reasonCode :=
                  match ReasonCodes (RevocationReason entry) with
                  | Some code => code
                  | None => 0
                  end in
                match revokedEntriesOf rest with
                | Err e => Err e
                | Ok entries => Ok (mkRLEntry serial revokedAt reasonCode :: entries)
                end
            end
        end
  end.

(** [caKey.(crypto.Signer)] succeeds. *)
Definition isSigner (key : PrivateKey) : bool :=
  match key with
  | OtherPrivateKey _ signer => signer
  | _ => true
  end.

(** GenerateCRL generates a signed X.509 CRL v2 containing all revoked
    certificates. *)
Definition GenerateCRL (ft : Faults) (rnd : N) (now : Z) (dataDir : string)
    (nextUpdateHours : Z) : IO CRLResult :=
  (* VALIDATE PHASE *)
  initialized ← gets (IsInitialized dataDir);
  if negb initialized then
    fail "Error: CA not initialized. Run 'ca init' first."
  else
  let caKeyPath := filepath_Join [dataDir; "ca.key"] in
  let caCertPath := filepath_Join [dataDir; "ca.crt"] in
  let crlnumPath := filepath_Join [dataDir; "crlnumber"] in
  let crlPath := filepath_Join [dataDir; "ca.crl"] in
  caKey ← wrapping "failed to load CA key" (LoadPrivateKey caKeyPath);
  caCert ← wrapping "failed to load CA certificate" (LoadCertificate caCertPath);
  index ← wrapping "failed to load index" (LoadIndex dataDir);
  crlNum ← wrapping "failed to read CRL number" (ReadCounter crlnumPath);
  revokedEntries ← lift (revokedEntriesOf index);
  let nextUpdate := now + durationOf nextUpdateHours hourNs in
  akiValue ← wrapping "failed to marshal AKI extension"
               (lift (asn1_MarshalAKI (certSubjectKeyId caCert)));
  let template :=
    mkRevocationList revokedEntries crlNum now nextUpdate (sigAlgorithm caKey)
      [mkExtension [2; 5; 29; 35] false akiValue] in
  if negb (isSigner caKey) then
    fail "CA key does not implement crypto.Signer"
  else
  crlDER ← wrapping "failed to create CRL"
             (lift (x509_CreateRevocationList rnd template caCert caKey));
  (* STAGE SUB-PHASE *)
  let tmpPaths := [crlPath +:+ ".tmp"; crlnumPath +:+ ".tmp"] in
  let crlPEM := pem_EncodeToMemory "X509 CRL" crlDER in
  stage ft tmpPaths (crlPath +:+ ".tmp") crlPEM "failed to stage CRL";;
  let newCRLNumData := FormatSerial (wrap64 (crlNum + 1)) +:+ LF in
  stage ft tmpPaths (crlnumPath +:+ ".tmp") newCRLNumData
    "failed to stage CRL number";;
  (* COMMIT SUB-PHASE *)
  let commitOrder :=
    [(crlPath +:+ ".tmp", crlPath); (crlnumPath +:+ ".tmp", crlnumPath)] in
  commitAll ft tmpPaths commitOrder;;
  mret (mkCRLResult now nextUpdate crlNum (length revokedEntries) crlPath).

(** ** verify.go *)

Record VerifyResult := mkVerifyResult {
  Valid : bool;
  vrSubject : string;
  vrSerial : string;
  vrIssuer : string;
  vrNotBefore : Z;
  vrNotAfter : Z;
  SigOK : bool;
  SigErr : string;
  ExpiryOK : bool;
  RevStatus : string
}.

(** The loop of VerifyCert over the entries of the CRL: the status text of
    the first entry that carries the serial, if there is one. *)
Fixpoint findRevoked (entries : list RevocationListEntry) (serial : Z)
    : option string :=
  match entries with
  | [] => None
  | entry :: rest =>
      if rleSerialNumber entry =? serial then
        let reasonName := ReasonNames (rleReasonCode entry) in
        let reasonName :=
          if bool_decide (reasonName = "") then "unspecified" else reasonName in
        Some ("REVOKED (reason: " +:+ reasonName +:+ ", date: "
              +:+ time_Format (rleRevocationTime entry) +:+ ")")
      else findRevoked rest serial
  end.

(** VerifyCert verifies a certificate's signature, validity, and revocation
    status. *)
Definition VerifyCert (now : Z) (dataDir certPEM certPath : string)
    : IO VerifyResult :=
  initialized ← gets (IsInitialized dataDir);
  if negb initialized then
    fail "Error: CA not initialized. Run 'ca init' first."
  else
  match pem_Decode certPEM with
  | None => fail ("failed to decode PEM from " +:+ certPath)
  | Some (_, der) =>
  cert ← wrapping ("failed to parse certificate from " +:+ certPath)
           (lift (x509_ParseCertificate der));
  let caCertPath := filepath_Join [dataDir; "ca.crt"] in
  caCert ← wrapping "failed to load CA certificate" (LoadCertificate caCertPath);
  let result sigOK sigErr expiryOK revStatus valid :=
    mkVerifyResult valid (FormatDN (certSubject cert))
      (FormatSerialBig (certSerialNumber cert)) (FormatDN (certIssuer cert))
      (certNotBefore cert) (certNotAfter cert) sigOK sigErr expiryOK revStatus in
  (* Check 1: signature *)
  match CheckSignatureFrom cert caCert with
  | Some e => mret (result false e false "" false)
  | None =>
  let sigOK := true in
  (* Check 2: validity period *)
  let expiryOK :=
    negb (now <? certNotBefore cert) && negb (certNotAfter cert <? now) in
  (* Check 3: revocation check against the CRL *)
  let crlFilePath := filepath_Join [dataDir; "ca.crl"] in
  crlPresent ← gets (statOk crlFilePath);
  '(isRevoked, revStatus) ←
    (if crlPresent : bool then
       crl ← wrapping "failed to load CRL" (LoadCRL crlFilePath);
       match findRevoked (RevokedCertificateEntries crl) (certSerialNumber cert) with
       | Some status => mret (true, status)
       | None => mret (false, "OK (not revoked)")
       end
     else mret (false, "NOT CHECKED (no CRL available)"));
  mret (result sigOK "" expiryOK revStatus (sigOK && expiryOK && negb isRevoked))
  end end.

(** ** The operations of the engine, as commands on a data directory *)

Inductive Command :=
  | CmdInit (rnd : N) (subject : Name) (keyAlgo : string) (validityDays : Z)
  | CmdSign (rnd : N) (csrPEM csrPath : string) (validityDays : Z)
  | CmdRevoke (serialHex reason : string)
  | CmdCRL (rnd : N) (nextUpdateHours : Z)
  | CmdList
  | CmdVerify (certPEM certPath : string).

(** The store a command leaves, with whether it succeeded. *)
Definition run (ft : Faults) (now : Z) (dataDir : string) (c : Command)
    (st : Store) : Store * bool :=
  match c with
  | CmdInit rnd subject keyAlgo days =>
      let '(st', r) := InitCA ft rnd now dataDir subject keyAlgo days st in (st', isOk r)
  | CmdSign rnd csrPEM csrPath days =>
      let '(st', r) := SignCSR ft rnd now dataDir csrPEM csrPath days st in (st', isOk r)
  | CmdRevoke serialHex reason =>
      let '(st', r) := RevokeCert ft now dataDir serialHex reason st in (st', isOk r)
  | CmdCRL rnd hours =>
      let '(st', r) := GenerateCRL ft rnd now dataDir hours st in (st', isOk r)
  | CmdList =>
      let '(st', r) := ListCerts now dataDir st in (st', isOk r)
  | CmdVerify certPEM certPath =>
      let '(st', r) := VerifyCert now dataDir certPEM certPath st in (st', isOk r)
  end.

(** One call of SignCSR: the faults of the file system during it, the state
    of the random source, the clock, and the CSR with its validity. *)
Record SignRequest := mkSignRequest {
  reqFaults : Faults;
  reqRand : N;
  reqNow : Z;
  reqCSR : string;
  reqPath : string;
  reqDays : Z
}.

(** A sequence of successful sign operations: the store it leaves, [None]
    when one of the calls fails. *)
Fixpoint signAll (dataDir : string) (reqs : list SignRequest) (st : Store)
    : option Store :=
  match reqs with
  | [] => Some st
  | req :: rest =>
      match SignCSR (reqFaults req) (reqRand req) (reqNow req) dataDir
              (reqCSR req) (reqPath req) (reqDays req) st with
      | (st', Ok _) => signAll dataDir rest st'
      | (_, Err _) => None
      end
  end.

(** The files under certs/. *)
Definition certFiles (dataDir : string) (st : Store) : gset string :=
  filter (λ q, underCerts dataDir q = true) (dom (files st)).

(** The paths of the certificates with the serials 2, ..., 2 + n - 1. *)
Definition issuedPaths (dataDir : string) (n : nat) : list string :=
  (λ k, inDir dataDir (certName (FormatSerial k))) <$> seqZ 2 (Z.of_nat n).

(** The state of a data directory that has issued [n] certificates: the
    serial file holds 2 + n, the index the [n] serials from 2 on, in order,
    and the files under certs/ are the [n] certificates. *)
Definition issued (dataDir : string) (n : nat) (st : Store) : Prop :=
  files st !! inDir dataDir "serial" = Some (FormatSerial (2 + Z.of_nat n) +:+ LF)
  ∧ (∃ index, (LoadIndex dataDir st).2 = Ok index
              ∧ Serial <$> index = FormatSerial <$> seqZ 2 (Z.of_nat n))
  ∧ (∀ q, underCerts dataDir q = true →
          is_Some (files st !! q) ↔ q ∈ issuedPaths dataDir n).

End Engine.

(** ** The request utility: the SAN parser of dn.go, and request.go *)

Section Requests.
Context `{L : GoLib}.

(** [net.ParseIP]: the bytes of the address, [None] for nil. *)
Variable net_ParseIP : string → option string.

(** [x509.CreateCertificateRequest], reading [rand.Reader]. *)
Variable x509_CreateCertificateRequest :
  N → CertificateRequest → PrivateKey → result string.

(** The loop of ParseSANs over the pieces of the list, with the names and
    addresses appended so far. *)
Fixpoint parseSANParts (parts : list string) (dnsNames ips : list string)
    : result (list string * list string) :=
  match parts with
  | [] => Ok (dnsNames, ips)
  | part :: rest =>
      let part := strings.TrimSpace part in
      if bool_decide (part = "") then parseSANParts rest dnsNames ips
      else if strings.HasPrefix part "DNS:" then
        let dnsName := strings.TrimPrefix part "DNS:" in
        if bool_decide (dnsName = "") then
          Err ("empty DNS name in SAN: " +:+ strconv_Quote part)
        else parseSANParts rest (dnsNames ++ [dnsName]) ips
      else if strings.HasPrefix part "IP:" then
        let ipStr := strings.TrimPrefix part "IP:" in
        match net_ParseIP ipStr with
        | None => Err ("invalid IP address in SAN: " +:+ strconv_Quote ipStr)
        | Some ip => parseSANParts rest dnsNames (ips ++ [ip])
        end
      else
        Err ("invalid SAN format: " +:+ strconv_Quote part
             +:+ " (must be DNS:<name> or IP:<address>)")
  end.

(** ParseSANs parses a comma-separated SAN list string into the DNS names
    and the IP addresses; the nil slices are the empty lists. *)
Definition ParseSANs (sanList : string) : result (list string * list string) :=
  if bool_decide (strings.TrimSpace sanList = "") then Ok ([], [])
  else parseSANParts (strings.Split sanList ","%char) [] [].

(** SavePrivateKey marshals a private key to PKCS#8 PEM and writes it to
    path. *)
Definition SavePrivateKey (ft : Faults) (path : string) (key : PrivateKey)
    : IO unit :=
  der ← wrapping "failed to marshal private key"
          (lift (x509_MarshalPKCS8PrivateKey key));
  let pemBlock := pem_EncodeToMemory "PRIVATE KEY" der in
  writeFileAtomic ft path pemBlock.

Record RequestResult := mkRequestResult {
  rrSubject : string;
  rrAlgorithm : string;
  rrKeyPath : string;
  rrCSRPath : string
}.

(** GenerateCSR generates a key pair and PKCS#10 CSR for the ca request
    utility. *)
Definition GenerateCSR (ft : Faults) (rnd : N) (subject : Name)
    (dnsNames ips : list string) (keyAlgo outKeyPath outCSRPath : string)
    : IO RequestResult :=
  privKey ← wrapping "failed to generate key pair"
              (lift (generateKeyPair rnd keyAlgo));
  let template := mkCSR subject NilPublicKey dnsNames ips [] in
  csrDER ← wrapping "failed to create CSR"
             (lift (x509_CreateCertificateRequest rnd template privKey));
  wrapping "failed to save private key" (SavePrivateKey ft outKeyPath privKey);;
  let csrPEM := pem_EncodeToMemory "CERTIFICATE REQUEST" csrDER in
  wrapping "failed to write CSR" (os_WriteFile ft outCSRPath csrPEM);;
  mret (mkRequestResult (FormatDN subject) (AlgoDisplayName keyAlgo)
          outKeyPath outCSRPath).

End Requests.

(** An entry of a SAN list, a DNS name or the text of an IP address, and
    the text of the entry in the list. *)
Inductive SAN := SanDNS (name : string) | SanIP (text : string).

Definition sanText (san : SAN) : string :=
  match san with
  | SanDNS name => "DNS:" +:+ name
  | SanIP text => "IP:" +:+ text
  end.

(** ** A small executable library

    An instance of [GoLib] on which the engine runs to completion: keys and
    certificates are written as colon-separated hexadecimal fields, a
    signature is the tag of the signing key, and the index is written as the
    binary numeral of its code. It stands in for the Go standard library
    where a property is evaluated on a concrete store. *)

Module Ref.

Definition DQ : string := String (ascii_of_N 34) "".
Definition quote (s : string) : string := DQ +:+ s +:+ DQ.

Definition parseHex (s : string) : result Z :=
  match strconv.ParseInt16 s with
  | inr z => Ok z
  | inl e => Err (strconv.numErrorText quote s e)
  end.

Definition keyTag (key : PrivateKey) : string :=
  match key with
  | ECDSAPrivateKey _ _ _ d => "ec:" +:+ strconv.hexText d
  | RSAPrivateKey _ _ d => "rsa:" +:+ strconv.hexText d
  | OtherPrivateKey alg _ => alg
  end.

Definition generateEC (curve : Curve) (rnd : N) : result PrivateKey :=
  Ok (ECDSAPrivateKey curve (Z.of_N rnd) (Z.of_N rnd) (Z.of_N rnd + 1)).
Definition generateRSA (rnd : N) (bits : Z) : result PrivateKey :=
  Ok (RSAPrivateKey (2 ^ (bits - 1)) 65537 (Z.of_N rnd + 1)).

Definition marshalPublic (pub : PublicKey) : result string :=
  match pub with
  | ECDSAPublicKey _ x _ => Ok ("ec:" +:+ strconv.hexText x)
  | RSAPublicKey n _ => Ok ("rsa:" +:+ strconv.hexText n)
  | _ => Err "x509: unsupported public key type"
  end.

Definition parsePrivate (der : string) : result PrivateKey :=
  match strings.Split der ":"%char with
  | [kind; d] =>
      match parseHex d with
      | Err e => Err e
      | Ok d =>
          if bool_decide (kind = "ec") then Ok (ECDSAPrivateKey P256 (d - 1) (d - 1) d)
          else if bool_decide (kind = "rsa") then Ok (RSAPrivateKey (2 ^ 2047) 65537 d)
          else Err "x509: unknown key kind"
      end
  | _ => Err "x509: failed to parse private key"
  end.

(** A certificate is written as serial:notBefore:notAfter:signer, where
    signer is the tag of the key that signed it (after its kind). *)
Definition signerOf (key : PrivateKey) : string :=
  match key with
  | ECDSAPrivateKey _ _ _ d => strconv.hexText d
  | RSAPrivateKey _ _ d => strconv.hexText d
  | OtherPrivateKey _ _ => "0"
  end.

Definition createCertificate (rnd : N) (template parent : Certificate)
    (pub : PublicKey) (priv : PrivateKey) : result string :=
  Ok (strings.Join
        [strconv.hexText (certSerialNumber template);
         strconv.hexText (certNotBefore template);
         strconv.hexText (certNotAfter template);
         signerOf priv] ":").

Definition parseCertificate (der : string) : result Certificate :=
  match strings.Split der ":"%char with
  | [serial; notBefore; notAfter; signer] =>
      match parseHex serial, parseHex notBefore, parseHex notAfter with
      | Ok serial, Ok notBefore, Ok notAfter =>
          Ok (mkCertificate serial emptyName emptyName notBefore notAfter 0
                true false signer signer [] [] [] UnknownSignatureAlgorithm
                NilPublicKey)
      | _, _, _ => Err "x509: malformed certificate"
      end
  | _ => Err "x509: malformed certificate"
  end.

Definition leafName : Name := mkName [] [] [] [] [] [] [] "" "leaf.example.com".

Definition parseCSR (der : string) : result CertificateRequest :=
  if bool_decide (der = "csr:ec256") then
    Ok (mkCSR leafName (ECDSAPublicKey P256 1 1) [] [] [])
  else if bool_decide (der = "csr:ec384") then
    Ok (mkCSR leafName (ECDSAPublicKey P384 1 1) [] [] [])
  else if bool_decide (der = "csr:rsa2048") then
    Ok (mkCSR leafName (RSAPublicKey (2 ^ 2047) 65537) [] [] [])
  else if bool_decide (der = "csr:rsa1024") then
    Ok (mkCSR leafName (RSAPublicKey (2 ^ 1023) 65537) [] [] [])
  else Err "asn1: structure error".

(** A revocation list is written as the comma-separated serials. *)
Definition createCRL (rnd : N) (template : RevocationList) (issuer : Certificate)
    (priv : PrivateKey) : result string :=
  Ok (strings.Join
        ((λ e, strconv.hexText (rleSerialNumber e))
           <$> RevokedCertificateEntries template) ",").

Fixpoint parseSerials (pieces : list string) : result (list RevocationListEntry) :=
  match pieces with
  | [] => Ok []
  | piece :: rest =>
      match parseHex piece, parseSerials rest with
      | Ok serial, Ok entries => Ok (mkRLEntry serial 0 1 :: entries)
      | _, _ => Err "x509: malformed tbsCertList"
      end
  end.

Definition parseCRL (der : string) : result RevocationList :=
  match parseSerials (if bool_decide (der = "") then [] else strings.Split der ","%char) with
  | Ok entries => Ok (mkRevocationList entries 0 0 0 UnknownSignatureAlgorithm [])
  | Err e => Err e
  end.

Definition checkSignatureFrom (cert parent : Certificate) : option string :=
  if bool_decide (certAuthorityKeyId cert = certSubjectKeyId parent) then None
  else Some "x509: signature verification failed".

Definition pemDecode (data : string) : option (string * string) :=
  if bool_decide (data = "") then None else Some ("", data).

Global Instance IndexEntry_eq_dec : EqDecision IndexEntry.
Proof. solve_decision. Defined.

(** The fields of an entry, in the order of the JSON object. *)
Definition entryFields (e : IndexEntry) : list string :=
  [Serial e; Subject e; NotBefore e; NotAfter e; Status e; RevokedAt e;
   RevocationReason e].

Definition entryOfFields (fields : list string) : option IndexEntry :=
  match fields with
  | [a; b; c; d; e; f; g] => Some (mkIndexEntry a b c d e f g)
  | _ => None
  end.

(** The text without its final line feed. *)
Fixpoint chomp (s : string) : option string :=
  match s with
  | EmptyString => None
  | String c EmptyString => if bool_decide (c = ascii_of_N 10) then Some "" else None
  | String c rest => String c <$> chomp rest
  end.

Definition jsonMarshal (entries : list IndexEntry) : result string :=
  Ok (BinaryString.Raw.of_pos (encode (entryFields <$> (jsonEntry <$> entries))) "").

Definition jsonUnmarshal (data : string) : result (list IndexEntry) :=
  if bool_decide (data = "[]" +:+ LF) then Ok []
  else
    match chomp data with
    | None => Err "unexpected end of JSON input"
    | Some body =>
        match BinaryString.Raw.to_N body 0 with
        | N0 => Err "invalid character"
        | Npos p =>
            match decode p ≫= mapM entryOfFields with
            | Some entries => Ok (jsonEntry <$> entries)
            | None => Err "cannot unmarshal"
            end
        end
    end.

Definition timeFormat (t : Z) : string := "T" +:+ strconv.hexText t.
Definition timeParse (s : string) : result Z :=
  match s with
  | String "T" rest => parseHex rest
  | _ => Err ("parsing time " +:+ quote s)
  end.

Definition lib : GoLib := {|
  unicode_ToUpper := λ s, s;
  unicode_ToLower := λ s, s;
  strconv_Quote := quote;
  ecdsa_GenerateKey := generateEC;
  rsa_GenerateKey := generateRSA;
  x509_MarshalPKIXPublicKey := marshalPublic;
  sha1_Sum := λ s, s;
  x509_CreateCertificate := createCertificate;
  x509_MarshalPKCS8PrivateKey := λ key, Ok (keyTag key);
  x509_ParsePKCS8PrivateKey := parsePrivate;
  x509_ParseCertificate := parseCertificate;
  x509_ParseCertificateRequest := parseCSR;
  x509_ParseRevocationList := parseCRL;
  x509_CreateRevocationList := createCRL;
  CheckSignature := λ _, None;
  CheckSignatureFrom := checkSignatureFrom;
  pem_EncodeToMemory := λ _ der, der;
  pem_Decode := pemDecode;
  json_MarshalIndent := jsonMarshal;
  json_Unmarshal := jsonUnmarshal;
  asn1_MarshalAKI := λ ski, Ok ski;
  time_Format := timeFormat;
  time_Parse := timeParse
|}.

(** For the request utility: an address is accepted when it is written
    with digits, dots and colons, and is kept as its text; a request is
    written as the tag of its key. *)
Definition parseIP (s : string) : option string :=
  if bool_decide (s ≠ "")
     && forallb (λ c, bool_decide (c ∈ strings.bytesOf "0123456789abcdef.:"))
          (strings.bytesOf s)
  then Some s else None.

Definition createCSR (rnd : N) (template : CertificateRequest)
    (priv : PrivateKey) : result string :=
  Ok ("csr:" +:+ keyTag priv).

End Ref.

(** ** A worked history

    The stores of a short history on the executable library: a CA is
    initialized in the directory "ca" of an empty file system, two
    certificates are issued, the first is revoked and a CRL is generated. *)

Module Sample.

Definition initialized : Store :=
  (InitCA (L := Ref.lib) noFaults 7 1000 "ca" Ref.leafName "ecdsa-p256" 3650
     emptyStore).1.

Definition signedOnce : Store :=
  (SignCSR (L := Ref.lib) noFaults 7 2000 "ca" "csr:rsa2048" "a.csr" 365
     initialized).1.

Definition signedTwice : Store :=
  (SignCSR (L := Ref.lib) noFaults 7 2000 "ca" "csr:ec256" "b.csr" 365
     signedOnce).1.

Definition revokedFirst : Store :=
  (RevokeCert (L := Ref.lib) noFaults 3000 "ca" "02" "keyCompromise"
     signedTwice).1.

Definition withCRL : Store :=
  (GenerateCRL (L := Ref.lib) noFaults 7 4000 "ca" 24 revokedFirst).1.

(** The two sign operations of the history. *)
Definition requests : list SignRequest :=
  [mkSignRequest noFaults 7 2000 "csr:rsa2048" "a.csr" 365;
   mkSignRequest noFaults 7 2000 "csr:ec256" "b.csr" 365].

(** A file system on which the rename of [src] fails, and one on which the
    write of [path] fails and leaves nothing behind. *)
Definition renameFails (src : string) : Faults :=
  mkFaults (λ _, None)
    (λ p, if bool_decide (p = src) then Some "input/output error" else None)
    (λ _, None).

Definition writeFails (path : string) : Faults :=
  mkFaults
    (λ p, if bool_decide (p = path)
          then Some (mkWriteFault "no space left on device" None) else None)
    (λ _, None) (λ _, None).

(** The second certificate, as issued and with its signature replaced. *)
Definition secondCert : string := "3:7d0:1cae8c13e4fd0:8".
Definition forgedCert : string := "3:7d0:1cae8c13e4fd0:9".

(** An index entry whose not_after text is not a time. *)
Definition brokenEntry : IndexEntry :=
  mkIndexEntry "02" "CN=leaf.example.com" "T7d0" "next year" "active" "" "".

Definition brokenIndex : Store :=
  setFiles
    (<["ca/index.json" :=
        BinaryString.Raw.of_pos (encode [Ref.entryFields brokenEntry]) "" +:+ LF]>
       (files initialized))
    initialized.

(** A revoked index entry whose revoked_at text is not a time. *)
Definition undatedEntry : IndexEntry :=
  mkIndexEntry "02" "CN=leaf.example.com" "T7d0" "T7009d32da307d0" "revoked"
    "yesterday" "superseded".

Definition undatedIndex : Store :=
  setFiles
    (<["ca/index.json" :=
        BinaryString.Raw.of_pos (encode [Ref.entryFields undatedEntry]) "" +:+ LF]>
       (files initialized))
    initialized.

(** The entries of a SAN list. *)
Definition sans : list SAN :=
  [SanDNS "example.com"; SanIP "10.0.0.1"; SanDNS "www.example.com"].

End Sample.

(** ** The vocabulary of the properties *)

(** A byte that neither is white space nor belongs to a multi-byte rune. *)
Definition plain (c : ascii) : Prop :=
  strings.asciiSpace c = false ∧ strings.highByte c = false.

(** The shape of a white-space rune: one ASCII space byte, or at least two
    bytes from 128 on. *)
Definition runeShape (r : list ascii) : bool :=
  match r with
  | [c] => strings.asciiSpace c
  | _ => (2 <=? length r)%nat && forallb strings.highByte r
  end.

Definition noComma (s : string) : Prop := ","%char ∉ strings.bytesOf s.

(** An attribute value that the codec carries unchanged: not empty, free of
    the separator, and without white space at its ends. *)
Definition goodValue (v : string) : Prop :=
  v ≠ "" ∧ (","%char ∉ strings.bytesOf v) ∧ strings.TrimSpace v = v.

(** The attribute types FormatDN writes. *)
Definition attrKey (k : string) : Prop :=
  strings.TrimSpace k = k ∧ (∃ c k', k = String c k' ∧ plain c)
  ∧ Forall (λ c, strings.highByte c = false ∧ c ≠ "="%char) (strings.bytesOf k).

(** A name built only from the recognized attributes, with values the
    codec carries unchanged, and with at least one attribute. *)
Record codecName (name : Name) : Prop := {
  cn_good : CommonName name = "" ∨ goodValue (CommonName name);
  o_good : Forall goodValue (Organization name);
  ou_good : Forall goodValue (OrganizationalUnit name);
  l_good : Forall goodValue (Locality name);
  st_good : Forall goodValue (Province name);
  c_good : Forall goodValue (Country name);
  no_street : StreetAddress name = [];
  no_postal : PostalCode name = [];
  no_serial : SerialNumberAttr name = "";
  some_attr : dnParts name ≠ []
}.

(** A name with a comma in a value, one with a space before its common
    name, and one that the codec carries. *)
Definition acmeName : Name := mkName ["US"] ["Acme, Inc."] [] [] [] [] [] "" "ca".

Definition paddedName : Name := mkName [] [] [] [] [] [] [] "" " ca".

Definition testName : Name :=
  mkName ["US"] ["Test Org"; "Second Org"] ["Unit"] [] ["California"] [] [] ""
    "Test Root CA".

(** A hexadecimal digit, of either case. *)
Definition hexDigit (c : ascii) : Prop := is_Some (HexString.ascii_to_digit c).

(** What the digits of [p] add to the value [base] read so far. *)
Definition shiftIn (base : N) (p : positive) : N :=
  match base with
  | N0 => Npos p
  | Npos v => Npos (HexString.pos_hex_app v p)
  end.

(** An entry that ParseSANs reads as written: a name or an address text
    that is not empty, has no comma and no white space at its ends, and for
    an address a text that net.ParseIP accepts. *)
Definition okSAN (net_ParseIP : string → option string) (san : SAN) : Prop :=
  match san with
  | SanDNS name => goodValue name
  | SanIP text => goodValue text ∧ is_Some (net_ParseIP text)
  end.

(** The names and the addresses of a list of entries. *)
Definition sanNames (sans : list SAN) : list string :=
  omap (λ san, match san with SanDNS n => Some n | SanIP _ => None end) sans.
Definition sanAddresses (net_ParseIP : string → option string)
    (sans : list SAN) : list string :=
  omap (λ san, match san with SanDNS _ => None | SanIP t => net_ParseIP t end) sans.

(** A lower-case hexadecimal digit. *)
Definition lowerHex (c : ascii) : Prop :=
  c ∈ strings.bytesOf "0123456789abcdef".

(** The CRL entry that GenerateCRL builds from a revoked index entry. *)
Definition listsRevoked `{L : GoLib} (entry : IndexEntry)
    (r : RevocationListEntry) : Prop :=
  strconv.ParseInt16 (Serial entry) = inr (rleSerialNumber r)
  ∧ time_Parse (RevokedAt entry) = Ok (rleRevocationTime r)
  ∧ rleReasonCode r = default 0 (ReasonCodes (RevocationReason entry)).

(** Whether two texts differ at a position that both have. *)
Fixpoint diverge (a b : string) : bool :=
  match a, b with
  | String x a', String y b' => if ascii_dec x y then diverge a' b' else true
  | _, _ => false
  end.

(** The calls of a successful InitCA on the data directory [d], in order. *)
Definition initCalls (d : string) : list Syscall :=
  [SysMkdirAll (inDir d "certs");
   SysWriteFile (inDir d "ca.key" +:+ ".tmp");
   SysWriteFile (inDir d "ca.crt" +:+ ".tmp");
   SysWriteFile (inDir d "serial" +:+ ".tmp");
   SysWriteFile (inDir d "crlnumber" +:+ ".tmp");
   SysWriteFile (inDir d "index.json" +:+ ".tmp");
   SysRename (inDir d "ca.key" +:+ ".tmp") (inDir d "ca.key");
   SysRename (inDir d "ca.crt" +:+ ".tmp") (inDir d "ca.crt");
   SysRename (inDir d "serial" +:+ ".tmp") (inDir d "serial");
   SysRename (inDir d "crlnumber" +:+ ".tmp") (inDir d "crlnumber");
   SysRename (inDir d "index.json" +:+ ".tmp") (inDir d "index.json")].

(** The directories after an operation that removes the paths of
    [removed] at most: none is new, and each one outside [removed] is still
    there ([os.Remove] takes an empty directory away as it does a file). *)
Definition dirsKept (removed : list string) (st st' : Store) : Prop :=
  dirs st' ⊆ dirs st ∧ ∀ p, p ∈ dirs st → p ∉ removed → p ∈ dirs st'.

(** A path with the suffix of a temporary file. *)
Definition tmpName (p : string) : Prop := ∃ q, p = q +:+ ".tmp".

(** The directories after an operation that removes temporary paths at
    most: none is new, and each one that is no temporary path is still
    there. *)
Definition dirsButTmp (st st' : Store) : Prop :=
  dirs st' ⊆ dirs st ∧ ∀ p, p ∈ dirs st → ¬ tmpName p → p ∈ dirs st'.

(** The .tmp paths InitCA stages. *)
Definition initTmpPaths (d : string) : list string :=
  [inDir d "ca.key" +:+ ".tmp"; inDir d "ca.crt" +:+ ".tmp";
   inDir d "serial" +:+ ".tmp"; inDir d "crlnumber" +:+ ".tmp";
   inDir d "index.json" +:+ ".tmp"].

(** The CSR that SignCSR decodes from its input, if it does. *)
Definition decodedCSR `{L : GoLib} (csrPEM : string) : option CertificateRequest :=
  match pem_Decode csrPEM with
  | Some (_, der) =>
      match x509_ParseCertificateRequest der with
      | Ok csr => Some csr
      | Err _ => None
      end
  | None => None
  end.

(** * Properties *)

(** ** Reading leaves the store as it is *)

Section Reading.
Context `{L : GoLib}.

Lemma io_eq {A} (m : IO A) (st st' : Store) (r : result A) :
  (m st).1 = st' → (m st).2 = r → m st = (st', r).
Proof. destruct (m st); simpl; congruence. Qed.

Lemma os_ReadFile_store path st : (os_ReadFile path st).1 = st.
Proof. unfold os_ReadFile. by repeat case_match. Qed.

Lemma onErr_store {A} (m : IO A) (h : string → IO A) st :
  (m st).1 = st → (∀ e, (h e st).1 = st) → (onErr m h st).1 = st.
Proof.
  unfold onErr. destruct (m st) as [st' [a|e]]; simpl; intros -> Hh; auto.
Qed.

Lemma wrapping_store {A} prefix (m : IO A) st :
  (m st).1 = st → (wrapping prefix m st).1 = st.
Proof. intros Hm. by apply onErr_store. Qed.

Lemma bind_store {A B} (m : IO A) (k : A → IO B) st :
  (m st).1 = st → (∀ a, (k a st).1 = st) → ((m ≫= k) st).1 = st.
Proof.
  unfold mbind, IO_bind, bind. destruct (m st) as [st' [a|e]]; simpl; intros -> Hk; auto.
Qed.

Lemma LoadPrivateKey_store path st : (LoadPrivateKey path st).1 = st.
Proof.
  unfold LoadPrivateKey. apply bind_store.
  - apply wrapping_store, os_ReadFile_store.
  - intros data. destruct (pem_Decode data) as [[? der]|]; [|done].
    by apply wrapping_store.
Qed.

Lemma LoadCertificate_store path st : (LoadCertificate path st).1 = st.
Proof.
  unfold LoadCertificate. apply bind_store.
  - apply wrapping_store, os_ReadFile_store.
  - intros data. destruct (pem_Decode data) as [[? der]|]; [|done].
    by apply wrapping_store.
Qed.

Lemma LoadCRL_store path st : (LoadCRL path st).1 = st.
Proof.
  unfold LoadCRL. apply bind_store.
  - apply wrapping_store, os_ReadFile_store.
  - intros data. destruct (pem_Decode data) as [[? der]|]; [|done].
    by apply wrapping_store.
Qed.

Lemma LoadIndex_store dataDir st : (LoadIndex dataDir st).1 = st.
Proof.
  unfold LoadIndex. apply bind_store.
  - apply wrapping_store, os_ReadFile_store.
  - intros data. by apply wrapping_store.
Qed.

Lemma ReadCounter_store path st : (ReadCounter path st).1 = st.
Proof.
  unfold ReadCounter. apply bind_store.
  - apply onErr_store; [apply os_ReadFile_store | done].
  - intros data. by case_match.
Qed.

Lemma bind_eq {A B} (m : IO A) (k : A → IO B) st st' a :
  m st = (st', Ok a) → (m ≫= k) st = k a st'.
Proof. unfold mbind, IO_bind, bind. by intros ->. Qed.

Lemma bind_err {A B} (m : IO A) (k : A → IO B) st st' e :
  m st = (st', Err e) → (m ≫= k) st = (st', Err e).
Proof. unfold mbind, IO_bind, bind. by intros ->. Qed.

Lemma wrapping_ok {A} prefix (m : IO A) st st' a :
  m st = (st', Ok a) → wrapping prefix m st = (st', Ok a).
Proof. unfold wrapping, onErr. by intros ->. Qed.

Lemma wrapping_err {A} prefix (m : IO A) st st' e :
  m st = (st', Err e) → wrapping prefix m st = (st', Err (wrapErr prefix e)).
Proof. unfold wrapping, onErr. by intros ->. Qed.

Lemma gets_eq {A} (f : Store → A) st : gets f st = (st, Ok (f st)).
Proof. done. Qed.

End Reading.

(** ** Verification *)

Section Verify.
Context `{L : GoLib}.

(** C5. When the signature of the certificate does not verify against the
    CA certificate, VerifyCert returns a report with sig_ok and valid false,
    the error of the signature check, and the expiry and revocation fields
    at their empty values (expiry_ok false, revocation status the empty
    string); no later check is made and the store is as before. *)
Theorem VerifyCert_signature_failure
    (now : Z) (dataDir certPEM certPath : string) (st : Store)
    (typ der : string) (cert caCert : Certificate) (e : string) :
  IsInitialized dataDir st = true →
  pem_Decode certPEM = Some (typ, der) →
  x509_ParseCertificate der = Ok cert →
  (LoadCertificate (filepath_Join [dataDir; "ca.crt"]) st).2 = Ok caCert →
  CheckSignatureFrom cert caCert = Some e →
  ∃ r, VerifyCert now dataDir certPEM certPath st = (st, Ok r)
       ∧ SigOK r = false ∧ Valid r = false
       ∧ ExpiryOK r = false ∧ RevStatus r = "" ∧ SigErr r = e.
Proof.
  intros Hinit Hpem Hparse Hca Hsig.
  pose proof (io_eq _ _ _ _ (LoadCertificate_store _ st) Hca) as Hload.
  unfold VerifyCert.
  rewrite (bind_eq _ _ _ _ _ (gets_eq _ st)), Hinit. simpl.
  rewrite Hpem.
  erewrite bind_eq; [|apply wrapping_ok; unfold lift; by rewrite Hparse].
  erewrite bind_eq; [|apply wrapping_ok, Hload].
  rewrite Hsig. eexists. split; [reflexivity|]. done.
Qed.

(** C6. When the signature verifies, expiry_ok holds exactly when now lies
    in [not_before, not_after], both ends included; without a ca.crl file
    the revocation status is "NOT CHECKED (no CRL available)"; and valid
    holds exactly when sig_ok and expiry_ok hold and the serial is not
    listed in the loaded CRL ([entries] are the entries of the loaded CRL,
    none when there is no file). *)
Theorem VerifyCert_checks
    (now : Z) (dataDir certPEM certPath : string) (st : Store)
    (typ der : string) (cert caCert : Certificate)
    (entries : list RevocationListEntry) :
  let crlFilePath := filepath_Join [dataDir; "ca.crl"] in
  IsInitialized dataDir st = true →
  pem_Decode certPEM = Some (typ, der) →
  x509_ParseCertificate der = Ok cert →
  (LoadCertificate (filepath_Join [dataDir; "ca.crt"]) st).2 = Ok caCert →
  CheckSignatureFrom cert caCert = None →
  (statOk crlFilePath st = false ∧ entries = []
   ∨ statOk crlFilePath st = true
     ∧ ∃ crl, (LoadCRL crlFilePath st).2 = Ok crl
              ∧ entries = RevokedCertificateEntries crl) →
  ∃ r, VerifyCert now dataDir certPEM certPath st = (st, Ok r)
       ∧ SigOK r = true
       ∧ (ExpiryOK r = true ↔ certNotBefore cert ≤ now ≤ certNotAfter cert)
       ∧ (statOk crlFilePath st = false →
          RevStatus r = "NOT CHECKED (no CRL available)")
       ∧ (Valid r = true ↔
          SigOK r = true ∧ ExpiryOK r = true
          ∧ certSerialNumber cert ∉ (rleSerialNumber <$> entries)).
Proof.
  intros crlFilePath Hinit Hpem Hparse Hca Hsig Hcrl.
  pose proof (io_eq _ _ _ _ (LoadCertificate_store _ st) Hca) as Hload.
  assert (Hexp :
    negb (now <? certNotBefore cert) && negb (certNotAfter cert <? now) = true
    ↔ certNotBefore cert ≤ now ≤ certNotAfter cert).
  { rewrite andb_true_iff, !negb_true_iff, !Z.ltb_ge. lia. }
  assert (Hfind : ∀ es, findRevoked es (certSerialNumber cert) = None
                        ↔ certSerialNumber cert ∉ (rleSerialNumber <$> es)).
  { induction es as [|x es IH]; simpl.
    - split; [intros _; apply not_elem_of_nil | done].
    - destruct (Z.eqb_spec (rleSerialNumber x) (certSerialNumber cert)) as [Heq|Hne].
      + split; [done|]. intros Hn. exfalso. apply Hn. rewrite Heq. left.
      + rewrite IH, not_elem_of_cons. split; [by split|by intros [_ ?]]. }
  unfold VerifyCert.
  rewrite (bind_eq _ _ _ _ _ (gets_eq _ st)), Hinit. simpl.
  rewrite Hpem.
  erewrite bind_eq; [|apply wrapping_ok; unfold lift; by rewrite Hparse].
  erewrite bind_eq; [|apply wrapping_ok, Hload].
  rewrite Hsig.
  rewrite (bind_eq _ _ _ _ _ (gets_eq _ st)).
  fold crlFilePath.
  destruct Hcrl as [[Hstat ->] | [Hstat (crl & Hcrl & ->)]]; rewrite Hstat.
  - eexists. split; [reflexivity|]. simpl.
    split; [done|]. split; [exact Hexp|]. split; [done|].
    rewrite andb_true_r. split.
    + intros Hv. split; [done|]. split; [exact Hv|]. apply not_elem_of_nil.
    + by intros (_ & Hv & _).
  - pose proof (io_eq _ _ _ _ (LoadCRL_store _ st) Hcrl) as HloadCRL.
    unfold mbind, IO_bind, bind. rewrite (wrapping_ok _ _ _ _ _ HloadCRL).
    destruct (findRevoked _ _) as [status|] eqn:Hf.
    + eexists. split; [reflexivity|]. simpl.
      split; [done|]. split; [exact Hexp|]. split; [done|].
      rewrite andb_false_r. split; [done|]. intros (_ & _ & Hn).
      apply Hfind in Hn. congruence.
    + eexists. split; [reflexivity|]. simpl.
      split; [done|]. split; [exact Hexp|]. split; [done|].
      rewrite andb_true_r. apply Hfind in Hf. split.
      * intros Hv. by split; [|split].
      * by intros (_ & Hv & _).
Qed.

End Verify.

Lemma VerifyCert_signature_failure_witness :
  ∃ r, VerifyCert (L := Ref.lib) 5000 "ca" Sample.forgedCert "b.pem" Sample.withCRL
       = (Sample.withCRL, Ok r)
       ∧ SigOK r = false ∧ Valid r = false
       ∧ ExpiryOK r = false ∧ RevStatus r = ""
       ∧ SigErr r = "x509: signature verification failed".
Proof.
  eapply (VerifyCert_signature_failure (L := Ref.lib) 5000 "ca" Sample.forgedCert
            "b.pem" Sample.withCRL);
    vm_compute; reflexivity.
Defined.

Lemma VerifyCert_checks_witness :
  ∃ r, VerifyCert (L := Ref.lib) 5000 "ca" Sample.secondCert "b.pem" Sample.withCRL
       = (Sample.withCRL, Ok r)
       ∧ SigOK r = true
       ∧ (ExpiryOK r = true ↔ 2000 ≤ 5000 ≤ 504576000020432)
       ∧ (statOk "ca/ca.crl" Sample.withCRL = false →
          RevStatus r = "NOT CHECKED (no CRL available)")
       ∧ (Valid r = true ↔
          SigOK r = true ∧ ExpiryOK r = true ∧ 3 ∉ (rleSerialNumber <$> [mkRLEntry 2 0 1])).
Proof.
  eapply (VerifyCert_checks (L := Ref.lib) 5000 "ca" Sample.secondCert "b.pem"
            Sample.withCRL "" Sample.secondCert
            (mkCertificate 3 emptyName emptyName 2000 504576000020432 0 true false
               "8" "8" [] [] [] UnknownSignatureAlgorithm NilPublicKey));
    try (vm_compute; reflexivity).
  right. split; [vm_compute; reflexivity|].
  eexists. split; vm_compute; reflexivity.
Defined.

(** ** Listing *)

Section Listing.
Context `{L : GoLib}.

(** C10. ListCerts does not fail on an entry whose not_after does not parse
    as an RFC 3339 time: the row of such an entry carries the zero time in
    its NOT AFTER column and, unless the entry is revoked, the display
    status "expired". The clock reads a time after the zero time. *)
Theorem ListCerts_unparseable_not_after
    (now : Z) (dataDir : string) (st : Store) (index : list IndexEntry) :
  IsInitialized dataDir st = true →
  (LoadIndex dataDir st).2 = Ok index →
  0 < now →
  ∃ rows, ListCerts now dataDir st = (st, Ok rows)
    ∧ length rows = length index
    ∧ ∀ i entry, index !! i = Some entry →
        isOk (time_Parse (NotAfter entry)) = false →
        ∃ row, rows !! i = Some row
          ∧ ciSerial row = Serial entry
          ∧ ciSubject row = Subject entry
          ∧ ciNotAfter row = 0
          ∧ (Status entry ≠ "revoked" → ciStatus row = "expired").
Proof.
  intros Hinit Hidx Hnow.
  pose proof (io_eq _ _ _ _ (LoadIndex_store _ st) Hidx) as Hload.
  unfold ListCerts.
  rewrite (bind_eq _ _ _ _ _ (gets_eq _ st)), Hinit. simpl.
  erewrite bind_eq; [|apply wrapping_ok, Hload].
  eexists. split; [reflexivity|]. split; [by rewrite length_fmap|].
  intros i entry Hi Hparse. exists (certInfo now entry).
  split; [by rewrite list_lookup_fmap, Hi|].
  unfold certInfo. destruct (time_Parse (NotAfter entry)); [done|]. simpl.
  repeat split. intros Hst. rewrite bool_decide_eq_false_2 by done.
  by apply Z.ltb_lt in Hnow as ->.
Qed.

End Listing.

Lemma ListCerts_unparseable_not_after_witness :
  ∃ rows, ListCerts (L := Ref.lib) 5000 "ca" Sample.brokenIndex
          = (Sample.brokenIndex, Ok rows)
    ∧ length rows = 1%nat
    ∧ ∀ i entry, [Sample.brokenEntry] !! i = Some entry →
        isOk (Ref.timeParse (NotAfter entry)) = false →
        ∃ row, rows !! i = Some row
          ∧ ciSerial row = Serial entry
          ∧ ciSubject row = Subject entry
          ∧ ciNotAfter row = 0
          ∧ (Status entry ≠ "revoked" → ciStatus row = "expired").
Proof.
  apply (ListCerts_unparseable_not_after (L := Ref.lib) 5000 "ca" Sample.brokenIndex
           [Sample.brokenEntry]).
  - vm_compute; reflexivity.
  - unfold LoadIndex. vm_compute; reflexivity.
  - lia.
Defined.

(** ** Precondition failures *)

Section Preconditions.
Context `{L : GoLib}.

Lemma findSerial_None index serialHex :
  findSerial index serialHex = None ↔ serialHex ∉ (Serial <$> index).
Proof.
  induction index as [|entry rest IH]; simpl.
  - split; [intros _; apply not_elem_of_nil | done].
  - rewrite not_elem_of_cons. case_bool_decide as Heq.
    + split; [done|]. by intros [? _].
    + destruct (findSerial rest serialHex); simpl in *.
      * split; [done|]. intros [_ Hn]. by apply IH in Hn.
      * split; [|done]. intros _. split; [done|]. by apply IH.
Qed.

Lemma findSerial_Some index serialHex found entry :
  findSerial index serialHex = Some (found, entry) →
  index !! found = Some entry ∧ Serial entry = serialHex.
Proof.
  revert found. induction index as [|x rest IH]; simpl; intros found; [done|].
  case_bool_decide as Heq.
  - intros [= <- <-]. done.
  - destruct (findSerial rest serialHex) as [[n e]|]; simpl; [|done].
    intros [= <- <-]. by apply IH.
Qed.

(** RevokeCert on a serial that no entry of the index carries. *)
Lemma RevokeCert_not_found ft now dataDir serialHex reason st index :
  IsInitialized dataDir st = true →
  (LoadIndex dataDir st).2 = Ok index →
  serialHex ∉ (Serial <$> index) →
  RevokeCert ft now dataDir serialHex reason st
  = (st, Err ("Error: certificate with serial " +:+ serialHex +:+ " not found")).
Proof.
  intros Hinit Hidx Hnot.
  pose proof (io_eq _ _ _ _ (LoadIndex_store _ st) Hidx) as Hload.
  unfold RevokeCert.
  rewrite (bind_eq _ _ _ _ _ (gets_eq _ st)), Hinit. simpl.
  erewrite bind_eq; [|apply wrapping_ok, Hload].
  by apply findSerial_None in Hnot as ->.
Qed.

(** RevokeCert on a serial whose entry is revoked already. *)
Lemma RevokeCert_already_revoked ft now dataDir serialHex reason st index found entry :
  IsInitialized dataDir st = true →
  (LoadIndex dataDir st).2 = Ok index →
  findSerial index serialHex = Some (found, entry) →
  Status entry = "revoked" →
  RevokeCert ft now dataDir serialHex reason st
  = (st, Err ("Error: certificate with serial " +:+ serialHex
              +:+ " is already revoked")).
Proof.
  intros Hinit Hidx Hfound Hst.
  pose proof (io_eq _ _ _ _ (LoadIndex_store _ st) Hidx) as Hload.
  unfold RevokeCert.
  rewrite (bind_eq _ _ _ _ _ (gets_eq _ st)), Hinit. simpl.
  erewrite bind_eq; [|apply wrapping_ok, Hload].
  rewrite Hfound. by rewrite bool_decide_eq_true_2.
Qed.

Lemma InitCA_already_initialized ft rnd now dataDir subject keyAlgo days st :
  IsInitialized dataDir st = true →
  InitCA ft rnd now dataDir subject keyAlgo days st
  = (st, Err ("Error: CA already initialized at " +:+ dataDir)).
Proof.
  intros Hinit. unfold InitCA.
  by rewrite (bind_eq _ _ _ _ _ (gets_eq _ st)), Hinit.
Qed.

Lemma SignCSR_not_initialized ft rnd now dataDir csrPEM csrPath days st :
  IsInitialized dataDir st = false →
  SignCSR ft rnd now dataDir csrPEM csrPath days st
  = (st, Err "Error: CA not initialized. Run 'ca init' first.").
Proof.
  intros Hinit. unfold SignCSR.
  by rewrite (bind_eq _ _ _ _ _ (gets_eq _ st)), Hinit.
Qed.

(** C3, as the code has it. The precondition failures return the texts of
    the interface contract behind the prefix "Error: ", and the text for a
    CA that is not initialized goes on with the hint to run 'ca init';
    the store is as before the call. *)
Theorem precondition_error_texts :
  (∀ ft now dataDir serialHex reason st index,
     IsInitialized dataDir st = true →
     (LoadIndex dataDir st).2 = Ok index →
     serialHex ∉ (Serial <$> index) →
     RevokeCert ft now dataDir serialHex reason st
     = (st, Err ("Error: certificate with serial " +:+ serialHex +:+ " not found")))
  ∧ (∀ ft rnd now dataDir subject keyAlgo days st,
       IsInitialized dataDir st = true →
       InitCA ft rnd now dataDir subject keyAlgo days st
       = (st, Err ("Error: CA already initialized at " +:+ dataDir)))
  ∧ (∀ ft rnd now dataDir csrPEM csrPath days st,
       IsInitialized dataDir st = false →
       SignCSR ft rnd now dataDir csrPEM csrPath days st
       = (st, Err "Error: CA not initialized. Run 'ca init' first.")).
Proof.
  split; [|split].
  - apply RevokeCert_not_found.
  - apply InitCA_already_initialized.
  - apply SignCSR_not_initialized.
Qed.

(** The switch on the key of the CSR lets through the P-256 ECDSA keys and
    the RSA keys with a modulus of exactly 2048 bits, and nothing else. *)
Lemma checkKeyAlgorithm_ok pub :
  checkKeyAlgorithm pub = Ok tt
  ↔ (∃ x y, pub = ECDSAPublicKey P256 x y)
    ∨ (∃ n e, pub = RSAPublicKey n e ∧ BitLen n = 2048).
Proof.
  destruct pub as [curve x y|n e|alg|]; simpl.
  - case_bool_decide as Hc.
    + split; [done|]. intros [(? & ? & [= -> _ _])|(? & ? & ? & _)]; done.
    + subst curve. split; [|done]. intros _. left. eauto.
  - case_bool_decide as Hn.
    + split; [done|]. intros [(? & ? & ?)|(? & ? & [= -> _] & ?)]; done.
    + split; [|done]. intros _. right. eauto.
  - split; [done|]. by intros [(? & ? & ?)|(? & ? & ? & _)].
  - split; [done|]. by intros [(? & ? & ?)|(? & ? & ? & _)].
Qed.

Lemma checkKeyAlgorithm_err pub :
  checkKeyAlgorithm pub ≠ Ok tt →
  checkKeyAlgorithm pub = Err errUnsupportedCSRKey.
Proof. destruct pub; simpl; repeat case_bool_decide; done. Qed.

End Preconditions.

(** ** Facts about package strings *)

Module stringsFacts.
Import strings.

Lemma bytesOf_app (s t : string) : bytesOf (s +:+ t) = bytesOf s ++ bytesOf t.
Proof. induction s as [|c s IH]; simpl; [done|]. by rewrite <- IH. Qed.

Lemma ofBytes_bytesOf (s : string) : ofBytes (bytesOf s) = s.
Proof. apply string_of_list_ascii_of_string. Qed.

Lemma bytesOf_ofBytes (l : list ascii) : bytesOf (ofBytes l) = l.
Proof. apply list_ascii_of_string_of_list_ascii. Qed.

Lemma bytesOf_inj (s t : string) : bytesOf s = bytesOf t → s = t.
Proof. intros H. by rewrite <- (ofBytes_bytesOf s), H, ofBytes_bytesOf. Qed.

Lemma bytesOf_nil (s : string) : bytesOf s = [] ↔ s = "".
Proof. destruct s; simpl; split; congruence. Qed.

Lemma append_nil_r (s : string) : s +:+ "" = s.
Proof. apply bytesOf_inj. by rewrite bytesOf_app, List.app_nil_r. Qed.

Lemma append_assoc (s t u : string) : (s +:+ t) +:+ u = s +:+ t +:+ u.
Proof. apply bytesOf_inj. by rewrite !bytesOf_app, List.app_assoc. Qed.

Lemma spaceRunes_shape r :
  r ∈ spaceRunes →
  (∃ c, r = [c] ∧ asciiSpace c = true)
  ∨ ((2 ≤ length r)%nat ∧ Forall (λ c, highByte c = true) r).
Proof.
  intros Hr.
  assert (Hall : forallb runeShape spaceRunes = true) by (vm_compute; reflexivity).
  rewrite forallb_forall in Hall. apply list_elem_of_In, Hall in Hr.
  destruct r as [|c [|c' r]]; [done|left; eauto|right].
  unfold runeShape in Hr. apply andb_true_iff in Hr as [_ Hr].
  split; [simpl; lia|].
  apply List.Forall_forall. intros x Hx. rewrite forallb_forall in Hr.
  by apply Hr.
Qed.

Lemma leadingSpace_None l :
  leadingSpace l = None ↔ ∀ r, r ∈ spaceRunes → ¬ r `prefix_of` l.
Proof.
  unfold leadingSpace. rewrite head_None. split.
  - intros Hf r Hr Hp.
    assert (Hin : r ∈ filter (λ r, r `prefix_of` l) spaceRunes)
      by by apply list_elem_of_filter.
    rewrite Hf in Hin. by apply elem_of_nil in Hin.
  - intros Hn. destruct (filter _ _) as [|r rs] eqn:Hf; [done|].
    assert (Hr : r ∈ filter (λ r, r `prefix_of` l) spaceRunes) by (rewrite Hf; left).
    apply list_elem_of_filter in Hr as [Hp Hr]. by apply Hn in Hr.
Qed.

Lemma trailingSpace_None l :
  trailingSpace l = None ↔ ∀ r, r ∈ spaceRunes → ¬ r `suffix_of` l.
Proof.
  unfold trailingSpace. rewrite head_None. split.
  - intros Hf r Hr Hp.
    assert (Hin : r ∈ filter (λ r, r `suffix_of` l) spaceRunes)
      by by apply list_elem_of_filter.
    rewrite Hf in Hin. by apply elem_of_nil in Hin.
  - intros Hn. destruct (filter _ _) as [|r rs] eqn:Hf; [done|].
    assert (Hr : r ∈ filter (λ r, r `suffix_of` l) spaceRunes) by (rewrite Hf; left).
    apply list_elem_of_filter in Hr as [Hp Hr]. by apply Hn in Hr.
Qed.

Lemma leadingSpace_Some l r :
  leadingSpace l = Some r → r ∈ spaceRunes ∧ r `prefix_of` l.
Proof.
  unfold leadingSpace. intros Hh. apply head_Some_elem_of in Hh.
  apply list_elem_of_filter in Hh. tauto.
Qed.

Lemma trailingSpace_Some l r :
  trailingSpace l = Some r → r ∈ spaceRunes ∧ r `suffix_of` l.
Proof.
  unfold trailingSpace. intros Hh. apply head_Some_elem_of in Hh.
  apply list_elem_of_filter in Hh. tauto.
Qed.

Lemma spaceRune_nonempty r : r ∈ spaceRunes → (0 < length r)%nat.
Proof.
  intros [(c & -> & _)|[? _]]%spaceRunes_shape; simpl; lia.
Qed.

Lemma trimLeftFuel_length fuel l : (length (trimLeftFuel fuel l) ≤ length l)%nat.
Proof.
  revert l. induction fuel as [|fuel IH]; intros l; simpl; [done|].
  destruct (leadingSpace l) as [r|]; [|done].
  etrans; [apply IH|]. rewrite length_drop. lia.
Qed.

Lemma trimRightFuel_length fuel l : (length (trimRightFuel fuel l) ≤ length l)%nat.
Proof.
  revert l. induction fuel as [|fuel IH]; intros l; simpl; [done|].
  destruct (trailingSpace l) as [r|]; [|done].
  etrans; [apply IH|]. rewrite length_take. lia.
Qed.

Lemma trimLeft_id l : leadingSpace l = None → trimLeft l = l.
Proof. unfold trimLeft. intros H. destruct (length l); simpl; by rewrite ?H. Qed.

Lemma trimRight_id l : trailingSpace l = None → trimRight l = l.
Proof. unfold trimRight. intros H. destruct (length l); simpl; by rewrite ?H. Qed.

Lemma trimLeft_fixed l : trimLeft l = l → leadingSpace l = None.
Proof.
  unfold trimLeft. destruct l as [|c l]; [done|]. simpl.
  destruct (leadingSpace (c :: l)) as [r|] eqn:Hr; [|done].
  intros Heq. apply leadingSpace_Some in Hr as [Hr _].
  apply spaceRune_nonempty in Hr.
  pose proof (trimLeftFuel_length (length l) (drop (length r) (c :: l))) as Hlen.
  rewrite Heq, length_drop in Hlen. simpl in Hlen. lia.
Qed.

Lemma trimRight_fixed l : trimRight l = l → trailingSpace l = None.
Proof.
  unfold trimRight. destruct l as [|c l]; [done|]. simpl length at 1. simpl.
  destruct (trailingSpace (c :: l)) as [r|] eqn:Hr; [|done].
  intros Heq. apply trailingSpace_Some in Hr as [Hr _].
  apply spaceRune_nonempty in Hr.
  pose proof (trimRightFuel_length (length l)
                (take (length (c :: l) - length r) (c :: l))) as Hlen.
  simpl in Heq, Hlen. rewrite Heq in Hlen. simpl in Hlen.
  destruct (length r); [lia|]. rewrite length_take in Hlen. simpl in Hlen. lia.
Qed.

(** A string is a fixed point of TrimSpace exactly when no white-space
    rune starts or ends it. *)
Lemma TrimSpace_fixed (s : string) :
  TrimSpace s = s ↔
  leadingSpace (bytesOf s) = None ∧ trailingSpace (bytesOf s) = None.
Proof.
  unfold TrimSpace. split.
  - intros Heq. apply (f_equal bytesOf) in Heq. rewrite bytesOf_ofBytes in Heq.
    assert (Hl : trimLeft (bytesOf s) = bytesOf s).
    { pose proof (trimRightFuel_length (length (trimLeft (bytesOf s)))
                    (trimLeft (bytesOf s))) as H1.
      fold (trimRight (trimLeft (bytesOf s))) in H1. rewrite Heq in H1.
      pose proof (trimLeftFuel_length (length (bytesOf s)) (bytesOf s)) as H2.
      fold (trimLeft (bytesOf s)) in H2.
      unfold trimLeft in *. destruct (bytesOf s) as [|c l] eqn:Hb; [done|].
      simpl in *. destruct (leadingSpace (c :: l)) as [r|] eqn:Hr; [|done].
      apply leadingSpace_Some in Hr as [Hr _]. apply spaceRune_nonempty in Hr.
      pose proof (trimLeftFuel_length (length l) (drop (length r) (c :: l))) as H3.
      rewrite length_drop in H3. simpl in H3. lia. }
    rewrite Hl in Heq. split; [by apply trimLeft_fixed|by apply trimRight_fixed].
  - intros [Hl Hr]. by rewrite trimLeft_id, trimRight_id, ofBytes_bytesOf.
Qed.

Lemma leadingSpace_plain c l : plain c → leadingSpace (c :: l) = None.
Proof.
  intros [Hs Hh]. apply leadingSpace_None. intros r Hr Hp.
  apply spaceRunes_shape in Hr as [(c' & -> & Hc')|[Hlen Hall]].
  - apply prefix_cons_inv_1 in Hp as ->. congruence.
  - destruct r as [|c' r]; [simpl in Hlen; lia|].
    apply prefix_cons_inv_1 in Hp as ->.
    apply Forall_inv in Hall. congruence.
Qed.

(** No white-space rune ends [pre ++ v] when none ends the non-empty [v]
    and [pre] has no byte of a multi-byte rune. *)
Lemma trailingSpace_app pre v :
  Forall (λ c, highByte c = false) pre → v ≠ [] →
  trailingSpace v = None → trailingSpace (pre ++ v) = None.
Proof.
  intros Hpre Hv Hnone. apply trailingSpace_None. intros r Hr [k Hk].
  rewrite trailingSpace_None in Hnone.
  apply app_eq_inv in Hk as [(k' & -> & ->)|(k' & -> & ->)].
  - destruct k' as [|c k']; [by apply (Hnone v Hr)|].
    apply spaceRunes_shape in Hr as [(c' & Hc & _)|[_ Hall]].
    + destruct k', v; simplify_eq/=.
    + apply Forall_app in Hpre as [_ Hpre]. apply Forall_inv in Hpre.
      apply Forall_app in Hall as [Hall _]. apply Forall_inv in Hall.
      congruence.
  - apply (Hnone r Hr). by exists k'.
Qed.

(** Trimming on the right leaves a plain first byte in place. *)
Lemma trimRightFuel_head fuel c l :
  plain c → ∃ l', trimRightFuel fuel (c :: l) = c :: l'.
Proof.
  intros [Hs Hh]. revert l. induction fuel as [|fuel IH]; intros l; simpl; [eauto|].
  destruct (trailingSpace (c :: l)) as [r|] eqn:Hr; [|eauto].
  apply trailingSpace_Some in Hr as [Hr [k Hk]].
  destruct k as [|c' k].
  - simpl in Hk. subst r.
    apply spaceRunes_shape in Hr as [(c' & [= -> ->] & Hc')|[_ Hall]].
    + congruence.
    + apply Forall_inv in Hall. congruence.
  - simpl in Hk. injection Hk as <- ->.
    replace (S (length (k ++ r)) - length r)%nat with (length (c :: k))
      by (rewrite length_app; simpl; lia).
    change (c :: k ++ r) with ((c :: k) ++ r).
    rewrite (take_app_length (c :: k) r). apply IH.
Qed.

Lemma TrimSpace_nonempty c (s : string) : plain c → TrimSpace (String c s) ≠ "".
Proof.
  intros Hc. unfold TrimSpace. simpl.
  rewrite trimLeft_id by by apply leadingSpace_plain.
  unfold trimRight. destruct (trimRightFuel_head (length (c :: bytesOf s)) c (bytesOf s) Hc)
    as [l' ->]. done.
Qed.

End stringsFacts.

(** ** What encoding/json does with a string *)

Module utf8Facts.
Import strings stringsFacts utf8.

(** The rune at the head of the bytes is decided by the bytes it takes. *)
Lemma runeLen_take c rest n :
  runeLen (c :: rest) = Some n →
  runeLen (c :: validFrom (n - 1) rest) = Some n.
Proof.
  unfold runeLen.
  destruct (byteVal c <? 128)%N; [by intros [= <-]|].
  destruct (between 194 223 c).
  { destruct rest as [|c1 r]; [done|].
    destruct (cont c1) eqn:H1; [|done]. intros [= <-]. simpl. by rewrite H1. }
  destruct (between 224 239 c).
  { destruct rest as [|c1 [|c2 r]]; [done..|].
    destruct (_ && _) eqn:H1; [|done]. intros [= <-]. simpl. by rewrite H1. }
  destruct (between 240 244 c); [|done].
  destruct rest as [|c1 [|c2 [|c3 r]]]; [done..|].
  destruct (_ && _) eqn:H1; [|done]. intros [= <-]. simpl. by rewrite H1.
Qed.

Lemma validFrom_replacement l :
  validFrom 0 (replacement ++ l) = replacement ++ validFrom 0 l.
Proof. reflexivity. Qed.

Lemma validFrom_idem p l : validFrom p (validFrom p l) = validFrom p l.
Proof.
  revert p. induction l as [|c rest IH]; intros p; [done|].
  destruct p as [|k]; [|simpl; by rewrite IH].
  cbn [validFrom]. destruct (runeLen (c :: rest)) as [n|] eqn:Hn.
  - cbn [validFrom]. rewrite (runeLen_take _ _ _ Hn). by rewrite IH.
  - by rewrite validFrom_replacement, IH.
Qed.

Lemma coerce_idem s : coerce (coerce s) = coerce s.
Proof. unfold coerce. by rewrite bytesOf_ofBytes, validFrom_idem. Qed.

Lemma highByte_false c : highByte c = false ↔ (byteVal c <? 128)%N = true.
Proof.
  unfold highByte. rewrite bool_decide_eq_false, N.ltb_lt. lia.
Qed.

Lemma validFrom_ascii l :
  Forall (λ c, highByte c = false) l → validFrom 0 l = l.
Proof.
  induction 1 as [|c l Hc Hl IH]; [done|].
  cbn [validFrom runeLen]. apply highByte_false in Hc. rewrite Hc. simpl.
  by rewrite IH.
Qed.

Lemma isASCII_Forall s :
  isASCII s = true ↔ Forall (λ c, highByte c = false) (bytesOf s).
Proof.
  unfold isASCII. rewrite forallb_forall, List.Forall_forall.
  split; intros H c Hc; apply H in Hc; by destruct (highByte c).
Qed.

(** A text without bytes from 128 on is written and read back as it is. *)
Lemma coerce_ascii s : isASCII s = true → coerce s = s.
Proof.
  intros Hs%isASCII_Forall. unfold coerce.
  by rewrite validFrom_ascii, ofBytes_bytesOf.
Qed.

Lemma runeLen_high c rest n :
  runeLen (c :: rest) = Some n → highByte c = false ∨ highByte c = true ∧ n ≠ 1%nat.
Proof.
  unfold runeLen. destruct (byteVal c <? 128)%N eqn:Hc.
  - intros _. left. by apply highByte_false.
  - intros Hn. right. split.
    + destruct (highByte c) eqn:Hh; [done|]. apply highByte_false in Hh. congruence.
    + intros ->. repeat case_match; simplify_eq.
Qed.

(** Only a text without bytes from 128 on is read back without them. *)
Lemma validFrom_ascii_inv l :
  Forall (λ c, highByte c = false) (validFrom 0 l) → validFrom 0 l = l.
Proof.
  induction l as [|c rest IH]; [done|].
  cbn [validFrom]. destruct (runeLen (c :: rest)) as [n|] eqn:Hn.
  - intros [Hc Hrest]%Forall_cons_1. 
    assert (n = 1%nat) as ->.
    { unfold runeLen in Hn. apply highByte_false in Hc. rewrite Hc in Hn. congruence. }
    simpl in *. by rewrite IH.
  - intros [Hc _]%Forall_cons_1. by vm_compute in Hc.
Qed.

Lemma coerce_ascii_inv s : isASCII (coerce s) = true → coerce s = s.
Proof.
  intros Hs%isASCII_Forall. unfold coerce in *. rewrite bytesOf_ofBytes in Hs.
  by rewrite validFrom_ascii_inv, ofBytes_bytesOf.
Qed.

(** Reading back an ASCII literal means that the literal was written. *)
Lemma coerce_eq_ascii s t : isASCII t = true → coerce s = t → s = t.
Proof.
  intros Ht Heq. rewrite <- Heq in Ht. apply coerce_ascii_inv in Ht. congruence.
Qed.

Lemma jsonEntry_idem e : jsonEntry (jsonEntry e) = jsonEntry e.
Proof. unfold jsonEntry. simpl. by rewrite !coerce_idem. Qed.

(** Valid UTF-8 stays; every byte that is not part of a valid rune becomes
    U+FFFD, a lone byte, the bytes of a surrogate and those of a rune cut
    short alike. *)
Lemma coerce_examples :
  utf8.coerce "keyCompromise" = "keyCompromise"
  ∧ utf8.coerce (strings.ofBytes (strings.rune [195; 169]%N))
    = strings.ofBytes (strings.rune [195; 169]%N)
  ∧ utf8.coerce (strings.ofBytes (strings.rune [97; 255; 98]%N))
    = strings.ofBytes (strings.rune [97; 239; 191; 189; 98]%N)
  ∧ utf8.coerce (strings.ofBytes (strings.rune [237; 160; 128]%N))
    = strings.ofBytes (strings.rune [239; 191; 189; 239; 191; 189; 239; 191; 189]%N)
  ∧ utf8.coerce (strings.ofBytes (strings.rune [226; 130]%N))
    = strings.ofBytes (strings.rune [239; 191; 189; 239; 191; 189]%N).
Proof. repeat split; vm_compute; reflexivity. Qed.

End utf8Facts.

(** ** The name codec *)

Section NameCodec.
Context `{L : GoLib}.
Import strings stringsFacts.

Lemma append_cons c (s t : string) : String c s +:+ t = String c (s +:+ t).
Proof. done. Qed.

Lemma append_nil_l (t : string) : "" +:+ t = t.
Proof. done. Qed.

Lemma Split_noComma s : noComma s → Split s "," = [s].
Proof.
  unfold noComma. induction s as [|c s IH]; simpl; [done|].
  rewrite not_elem_of_cons. intros [Hc Hs].
  rewrite bool_decide_eq_false_2 by done. by rewrite IH.
Qed.

Lemma Split_append s t :
  noComma s → Split (s +:+ "," +:+ t) "," = s :: Split t ",".
Proof.
  unfold noComma. induction s as [|c s IH]; [done|].
  simpl bytesOf. rewrite not_elem_of_cons. intros [Hc Hs].
  rewrite append_cons. simpl.
  rewrite bool_decide_eq_false_2 by done. by rewrite IH.
Qed.

Lemma Split_Join parts :
  parts ≠ [] → Forall noComma parts → Split (Join parts ",") "," = parts.
Proof.
  induction parts as [|e [|e2 rest] IH]; [done| |]; intros _ Hall.
  - simpl. apply Split_noComma. by apply Forall_inv in Hall.
  - change (Join (e :: e2 :: rest) ",") with (e +:+ "," +:+ Join (e2 :: rest) ",").
    apply Forall_cons_iff in Hall as [He Hall].
    rewrite Split_append by done. by rewrite IH.
Qed.

Lemma length_bytesOf s : length (bytesOf s) = String.length s.
Proof. induction s; simpl; congruence. Qed.

Lemma Index_append k v :
  "="%char ∉ bytesOf k →
  Index (k +:+ "=" +:+ v) "=" = Z.of_nat (String.length k).
Proof.
  induction k as [|c k IH]; [done|].
  simpl bytesOf. rewrite not_elem_of_cons. intros [Hc Hk].
  rewrite append_cons. simpl Index.
  rewrite bool_decide_eq_false_2 by done. rewrite IH by done.
  destruct (Z.ltb_spec (Z.of_nat (String.length k)) 0); simpl String.length; lia.
Qed.

Lemma sliceTo_append k t : sliceTo (k +:+ t) (Z.of_nat (String.length k)) = k.
Proof.
  unfold sliceTo. rewrite Nat2Z.id, bytesOf_app, <- length_bytesOf.
  by rewrite take_app_length, ofBytes_bytesOf.
Qed.

Lemma sliceFrom_append k v :
  sliceFrom (k +:+ "=" +:+ v) (Z.of_nat (String.length k) + 1) = v.
Proof.
  unfold sliceFrom. rewrite <- (append_assoc k "=" v), bytesOf_app.
  replace (Z.to_nat (Z.of_nat (String.length k) + 1)) with (length (bytesOf (k +:+ "=")))
    by (rewrite bytesOf_app, length_app, length_bytesOf; simpl; lia).
  by rewrite drop_app_length, ofBytes_bytesOf.
Qed.

Lemma TrimSpace_component k v :
  attrKey k → goodValue v → TrimSpace (k +:+ "=" +:+ v) = k +:+ "=" +:+ v.
Proof.
  intros (_ & (c & k' & -> & Hc) & Hk) (Hv & _ & Htrim).
  apply TrimSpace_fixed in Htrim as [_ Hr]. apply TrimSpace_fixed. split.
  - rewrite append_cons. by apply leadingSpace_plain.
  - rewrite <- (append_assoc _ "=" v), bytesOf_app.
    apply trailingSpace_app; [|by rewrite bytesOf_nil|done].
    rewrite bytesOf_app. apply Forall_app. split.
    + eapply Forall_impl; [|exact Hk]. by intros ? [? _].
    + by repeat constructor.
Qed.

(** What the loop body of ParseDN does with a component that FormatDN
    wrote. *)
Lemma parseComponent_attr name k v :
  attrKey k → goodValue v →
  parseComponent name (k +:+ "=" +:+ v) =
    let upper := ToUpper unicode_ToUpper k in
    if bool_decide (upper = "CN") then Ok (withCommonName name v)
    else if bool_decide (upper = "O") then Ok (addOrganization name v)
    else if bool_decide (upper = "OU") then Ok (addOrganizationalUnit name v)
    else if bool_decide (upper = "L") then Ok (addLocality name v)
    else if bool_decide (upper = "ST") then Ok (addProvince name v)
    else if bool_decide (upper = "C") then Ok (addCountry name v)
    else Err ("unknown attribute type " +:+ strconv_Quote k).
Proof.
  intros Hk Hv. unfold parseComponent.
  rewrite TrimSpace_component by done.
  destruct Hk as (Hktrim & (c & k' & Hkeq & Hc) & Hkall).
  destruct Hv as (Hvne & Hvc & Hvtrim).
  rewrite bool_decide_eq_false_2 by (by rewrite Hkeq).
  assert (Hno : "="%char ∉ bytesOf k).
  { intros Hin%list_elem_of_In. rewrite List.Forall_forall in Hkall.
    by destruct (Hkall _ Hin). }
  rewrite Index_append by done.
  destruct (Z.ltb_spec (Z.of_nat (String.length k)) 0) as [?|_]; [lia|].
  rewrite sliceTo_append, sliceFrom_append, Hktrim, Hvtrim.
  by rewrite bool_decide_eq_false_2 by done.
Qed.

Ltac attr_key :=
  split; [by vm_compute|split; [eexists _, _; split; [reflexivity|by vm_compute]|]];
  repeat constructor; by vm_compute.

Lemma parseComponents_app parts1 parts2 name :
  parseComponents (parts1 ++ parts2) name =
    match parseComponents parts1 name with
    | Ok name' => parseComponents parts2 name'
    | Err e => Err e
    end.
Proof.
  revert name. induction parts1 as [|p parts1 IH]; intros name; simpl; [done|].
  by destruct (parseComponent name p).
Qed.

Lemma parseComponents_attr prefix (add : Name → string → Name) vs name :
  (∀ n v, goodValue v → parseComponent n (prefix +:+ v) = Ok (add n v)) →
  Forall goodValue vs →
  parseComponents (String.append prefix <$> vs) name = Ok (foldl add name vs).
Proof.
  intros Hadd Hvs. revert name.
  induction Hvs as [|v vs Hv Hvs IH]; intros name; simpl; [done|].
  by rewrite Hadd.
Qed.

Lemma parse_CN n v : goodValue v → parseComponent n ("CN=" +:+ v) = Ok (withCommonName n v).
Proof.
  intros Hv. change ("CN=" +:+ v) with ("CN" +:+ "=" +:+ v).
  rewrite parseComponent_attr; [done|attr_key|done].
Qed.
Lemma parse_O n v : goodValue v → parseComponent n ("O=" +:+ v) = Ok (addOrganization n v).
Proof.
  intros Hv. change ("O=" +:+ v) with ("O" +:+ "=" +:+ v).
  rewrite parseComponent_attr; [done|attr_key|done].
Qed.
Lemma parse_OU n v :
  goodValue v → parseComponent n ("OU=" +:+ v) = Ok (addOrganizationalUnit n v).
Proof.
  intros Hv. change ("OU=" +:+ v) with ("OU" +:+ "=" +:+ v).
  rewrite parseComponent_attr; [done|attr_key|done].
Qed.
Lemma parse_L n v : goodValue v → parseComponent n ("L=" +:+ v) = Ok (addLocality n v).
Proof.
  intros Hv. change ("L=" +:+ v) with ("L" +:+ "=" +:+ v).
  rewrite parseComponent_attr; [done|attr_key|done].
Qed.
Lemma parse_ST n v : goodValue v → parseComponent n ("ST=" +:+ v) = Ok (addProvince n v).
Proof.
  intros Hv. change ("ST=" +:+ v) with ("ST" +:+ "=" +:+ v).
  rewrite parseComponent_attr; [done|attr_key|done].
Qed.
Lemma parse_C n v : goodValue v → parseComponent n ("C=" +:+ v) = Ok (addCountry n v).
Proof.
  intros Hv. change ("C=" +:+ v) with ("C" +:+ "=" +:+ v).
  rewrite parseComponent_attr; [done|attr_key|done].
Qed.

Lemma foldl_addOrganization n vs :
  foldl addOrganization n vs =
    mkName (Country n) (Organization n ++ vs) (OrganizationalUnit n) (Locality n)
      (Province n) (StreetAddress n) (PostalCode n) (SerialNumberAttr n)
      (CommonName n).
Proof.
  revert n. induction vs as [|v vs IH]; intros n; simpl.
  - rewrite List.app_nil_r. by destruct n.
  - rewrite IH. simpl. by rewrite <- List.app_assoc.
Qed.

Lemma foldl_addOrganizationalUnit n vs :
  foldl addOrganizationalUnit n vs =
    mkName (Country n) (Organization n) (OrganizationalUnit n ++ vs) (Locality n)
      (Province n) (StreetAddress n) (PostalCode n) (SerialNumberAttr n)
      (CommonName n).
Proof.
  revert n. induction vs as [|v vs IH]; intros n; simpl.
  - rewrite List.app_nil_r. by destruct n.
  - rewrite IH. simpl. by rewrite <- List.app_assoc.
Qed.

Lemma foldl_addLocality n vs :
  foldl addLocality n vs =
    mkName (Country n) (Organization n) (OrganizationalUnit n) (Locality n ++ vs)
      (Province n) (StreetAddress n) (PostalCode n) (SerialNumberAttr n)
      (CommonName n).
Proof.
  revert n. induction vs as [|v vs IH]; intros n; simpl.
  - rewrite List.app_nil_r. by destruct n.
  - rewrite IH. simpl. by rewrite <- List.app_assoc.
Qed.

Lemma foldl_addProvince n vs :
  foldl addProvince n vs =
    mkName (Country n) (Organization n) (OrganizationalUnit n) (Locality n)
      (Province n ++ vs) (StreetAddress n) (PostalCode n) (SerialNumberAttr n)
      (CommonName n).
Proof.
  revert n. induction vs as [|v vs IH]; intros n; simpl.
  - rewrite List.app_nil_r. by destruct n.
  - rewrite IH. simpl. by rewrite <- List.app_assoc.
Qed.

Lemma foldl_addCountry n vs :
  foldl addCountry n vs =
    mkName (Country n ++ vs) (Organization n) (OrganizationalUnit n) (Locality n)
      (Province n) (StreetAddress n) (PostalCode n) (SerialNumberAttr n)
      (CommonName n).
Proof.
  revert n. induction vs as [|v vs IH]; intros n; simpl.
  - rewrite List.app_nil_r. by destruct n.
  - rewrite IH. simpl. by rewrite <- List.app_assoc.
Qed.

Lemma dnParts_Forall (P : string → Prop) name :
  codecName name →
  (∀ pre v, pre ∈ ["CN="; "O="; "OU="; "L="; "ST="; "C="] → goodValue v →
            P (pre +:+ v)) →
  Forall P (dnParts name).
Proof.
  intros [Hcn Ho Hou Hl Hst Hc _ _ _ _] HP. unfold dnParts.
  assert (Hmap : ∀ pre vs, pre ∈ ["CN="; "O="; "OU="; "L="; "ST="; "C="] →
            Forall goodValue vs → Forall P (String.append pre <$> vs)).
  { intros pre vs Hpre Hvs. induction Hvs; simpl; constructor; auto. }
  repeat apply Forall_app_2; try (apply Hmap; [by repeat constructor|done]).
  case_bool_decide as Hne; [|constructor].
  destruct Hcn as [?|Hcn]; [done|]. repeat constructor.
  apply HP; [by repeat constructor|done].
Qed.

Lemma Join_head parts :
  parts ≠ [] →
  Forall (λ p, ∃ c s, p = String c s ∧ plain c) parts →
  ∃ c s, Join parts "," = String c s ∧ plain c.
Proof.
  destruct parts as [|p [|p2 rest]]; [done| |]; intros _ Hall;
    apply Forall_inv in Hall as (c & s & -> & Hc).
  - by exists c, s.
  - exists c. eexists. split; [|done].
    change (Join (String c s :: p2 :: rest) ",")
      with (String c s +:+ "," +:+ Join (p2 :: rest) ",").
    by rewrite append_cons.
Qed.

(** C9, as the code has it. For every structured name built only from the
    recognized attributes, whose values are not empty, contain no comma and
    have no white space at their ends, and which has at least one attribute,
    ParseDN (FormatDN name) returns that name. *)
Theorem ParseDN_FormatDN (name : Name) :
  codecName name → ParseDN (FormatDN name) = Ok name.
Proof.
  intros Hname. unfold ParseDN, FormatDN.
  assert (Hhead : ∃ c s, Join (dnParts name) "," = String c s ∧ plain c).
  { apply Join_head; [apply Hname|]. apply dnParts_Forall; [done|].
    intros pre v Hpre _.
    repeat (apply elem_of_cons in Hpre as [->|Hpre];
            [eexists _, _; split; [reflexivity|by vm_compute]|]).
    by apply elem_of_nil in Hpre. }
  destruct Hhead as (c & s & Hjoin & Hc).
  rewrite bool_decide_eq_false_2
    by (rewrite Hjoin; by apply TrimSpace_nonempty).
  rewrite Split_Join; [|apply Hname|].
  2:{ apply dnParts_Forall; [done|]. intros pre v Hpre (_ & Hv & _).
      unfold noComma. rewrite bytesOf_app, elem_of_app. intros [Hin|Hin]; [|done].
      revert Hin.
      repeat (apply elem_of_cons in Hpre as [->|Hpre];
              [intros Hin; simpl in Hin;
               repeat (apply elem_of_cons in Hin as [Hin|Hin]; [discriminate|]);
               by apply elem_of_nil in Hin|]).
      by apply elem_of_nil in Hpre. }
  destruct Hname as [Hcn Ho Hou Hl Hst Hco Hsa Hpc Hsn _]. unfold dnParts.
  rewrite parseComponents_app.
  assert (Hfirst :
    parseComponents
      (if bool_decide (CommonName name ≠ "") then ["CN=" +:+ CommonName name] else [])
      emptyName = Ok (withCommonName emptyName (CommonName name))).
  { case_bool_decide as Hne; simpl.
    - destruct Hcn as [?|Hcn]; [done|]. by rewrite parse_CN.
    - by rewrite Hne. }
  rewrite Hfirst.
  rewrite parseComponents_app,
    (parseComponents_attr "O=" addOrganization) by (done || apply parse_O).
  rewrite parseComponents_app,
    (parseComponents_attr "OU=" addOrganizationalUnit) by (done || apply parse_OU).
  rewrite parseComponents_app,
    (parseComponents_attr "L=" addLocality) by (done || apply parse_L).
  rewrite parseComponents_app,
    (parseComponents_attr "ST=" addProvince) by (done || apply parse_ST).
  rewrite (parseComponents_attr "C=" addCountry) by (done || apply parse_C).
  rewrite foldl_addOrganization, foldl_addOrganizationalUnit, foldl_addLocality,
    foldl_addProvince, foldl_addCountry.
  destruct name; simpl in *. by subst.
Qed.

End NameCodec.

(** FormatDN does not escape what ParseDN reads as structure: a comma in a
    value ends the component, white space at the ends of a value is trimmed
    away, and the name without attributes is written as the empty text,
    which ParseDN refuses. *)
Lemma ParseDN_FormatDN_unescaped :
  (FormatDN acmeName = "CN=ca,O=Acme, Inc.,C=US"
   ∧ ParseDN (L := Ref.lib) (FormatDN acmeName)
     = Err ("invalid DN component: " +:+ Ref.quote "Inc." +:+ " (missing '=')"))
  ∧ (FormatDN paddedName = "CN= ca"
     ∧ ParseDN (L := Ref.lib) (FormatDN paddedName)
       = Ok (mkName [] [] [] [] [] [] [] "" "ca"))
  ∧ (FormatDN emptyName = ""
     ∧ ParseDN (L := Ref.lib) (FormatDN emptyName)
       = Err "distinguished name cannot be empty").
Proof. repeat split; reflexivity. Qed.

Lemma ParseDN_FormatDN_witness :
  ParseDN (L := Ref.lib) (FormatDN testName) = Ok testName.
Proof.
  apply (ParseDN_FormatDN (L := Ref.lib) testName).
  assert (Hgood : ∀ v, bool_decide (v ≠ "") = true →
            bool_decide (","%char ∉ strings.bytesOf v) = true →
            bool_decide (strings.TrimSpace v = v) = true → goodValue v).
  { intros v ?%bool_decide_eq_true ?%bool_decide_eq_true ?%bool_decide_eq_true.
    by repeat split. }
  split; simpl; try done; try (right; by apply Hgood);
    repeat constructor; by apply Hgood.
Defined.

(** ** The counters: formatting and parsing *)

Module counterFacts.
Import strings stringsFacts strconv.

Lemma hexDigit_plain c : hexDigit c → plain c ∧ c ≠ "+"%char ∧ c ≠ "-"%char.
Proof.
  intros [d Hd]. unfold HexString.ascii_to_digit in Hd.
  repeat (destruct (ascii_dec c _) as [->|_];
          [by repeat split; first [by vm_compute | discriminate]|]).
  done.
Qed.

Fixpoint of_pos_digits (p : positive) (rest : string) {struct p} :
  Forall hexDigit (bytesOf rest) →
  Forall hexDigit (bytesOf (HexString.Raw.of_pos p rest)).
Proof.
  intros Hrest.
  do 4 try destruct p as [p|p|]; cbn [HexString.Raw.of_pos];
    try (apply of_pos_digits); simpl; repeat (constructor; [by eexists|]); done.
Qed.

Fixpoint of_pos_nonempty (p : positive) (rest : string) {struct p} :
  HexString.Raw.of_pos p rest ≠ "".
Proof.
  do 4 try destruct p as [p|p|]; cbn [HexString.Raw.of_pos];
    try (apply of_pos_nonempty); done.
Qed.

Fixpoint parseUintLoop_of_pos (p : positive) (rest : string) (base : N) {struct p} :
  (shiftIn base p < 2 ^ 64)%N →
  parseUintLoop (HexString.Raw.of_pos p rest) base
  = parseUintLoop rest (shiftIn base p).
Proof.
  intros Hlt.
  assert (Hstep : ∀ c d s n m, HexString.ascii_to_digit c = Some d →
            (n < 2 ^ 60)%N → (d + 16 * n)%N = m →
            parseUintLoop (String c s) n = parseUintLoop s m).
  { intros c d s n m Hc Hn <-. simpl. rewrite Hc.
    by apply N.leb_gt in Hn as ->. }
  change (2 ^ 64)%N with 18446744073709551616%N in Hlt.
  do 4 try destruct p as [p|p|]; destruct base as [|v];
    cbn [HexString.Raw.of_pos shiftIn HexString.pos_hex_app] in *;
    first
      [ rewrite parseUintLoop_of_pos by (cbn [shiftIn]; lia);
        cbn [shiftIn];
        eapply Hstep; [reflexivity| change (2 ^ 60)%N with 1152921504606846976%N; lia | lia]
      | eapply Hstep; [reflexivity| change (2 ^ 60)%N with 1152921504606846976%N; lia | lia] ].
Qed.

Lemma ParseUint16_hexText p :
  (Npos p < 2 ^ 64)%N → ParseUint16 (HexString.Raw.of_pos p "") = inr (Npos p).
Proof.
  intros Hp. unfold ParseUint16.
  pose proof (of_pos_nonempty p "") as Hne.
  destruct (HexString.Raw.of_pos p "") eqn:Heq; [done|]. rewrite <- Heq.
  by rewrite parseUintLoop_of_pos.
Qed.

Lemma length_bytes (s : string) : String.length s = length (bytesOf s).
Proof. induction s; simpl; congruence. Qed.

(** R2, on the non-negative int64 values: what FormatSerial writes,
    ParseInt reads back. *)
Lemma ParseInt16_Sprintf02x v :
  0 ≤ v ≤ maxInt64 → ParseInt16 (Sprintf02x v) = inr v.
Proof.
  unfold maxInt64. intros Hv. destruct v as [|p|p]; [done| |lia].
  assert (Hp : (Npos p < 2 ^ 64)%N).
  { change (2 ^ 64)%N with 18446744073709551616%N. lia. }
  pose proof (ParseUint16_hexText p Hp) as Hparse.
  pose proof (of_pos_digits p "" ltac:(constructor)) as Hdig.
  assert (Hrange : (2 ^ 63 <=? Z.of_N (N.pos p)) = false) by (apply Z.leb_gt; lia).
  unfold Sprintf02x, hexText.
  destruct (HexString.Raw.of_pos p "") as [|c s] eqn:Heq;
    [by apply of_pos_nonempty in Heq|].
  apply Forall_inv in Hdig as Hc. apply hexDigit_plain in Hc as (_ & Hplus & Hminus).
  destruct (String.length (String c s) <? 2)%nat.
  - change ("0" +:+ String c s) with (String "0" (String c s)).
    unfold ParseInt16.
    rewrite (bool_decide_eq_false_2 ("0"%char = "+"%char)),
      (bool_decide_eq_false_2 ("0"%char = "-"%char)) by done.
    cbn [orb negb andb].
    assert (ParseUint16 (String "0" (String c s)) = inr (N.pos p)) as ->; [|by rewrite Hrange].
    rewrite <- Hparse. reflexivity.
  - unfold ParseInt16.
    rewrite (bool_decide_eq_false_2 (c = "+"%char)), (bool_decide_eq_false_2 (c = "-"%char))
      by done.
    cbn [orb negb andb]. by rewrite Hparse, Hrange.
Qed.

Lemma Sprintf02x_inj a b :
  0 ≤ a ≤ maxInt64 → 0 ≤ b ≤ maxInt64 → Sprintf02x a = Sprintf02x b → a = b.
Proof.
  intros Ha Hb Heq. apply ParseInt16_Sprintf02x in Ha, Hb.
  rewrite Heq in Ha. congruence.
Qed.

Lemma Sprintf02x_digits v :
  0 ≤ v → Forall hexDigit (bytesOf (Sprintf02x v)) ∧ Sprintf02x v ≠ "".
Proof.
  intros Hv. destruct v as [|p|p]; [|  |lia].
  - split; [|done]. repeat constructor; by eexists.
  - unfold Sprintf02x, hexText.
    pose proof (of_pos_digits p "" ltac:(constructor)) as Hdig.
    pose proof (of_pos_nonempty p "") as Hne.
    destruct (_ <? _)%nat; [|done].
    split; [|done]. simpl. constructor; [by eexists|done].
Qed.

Lemma trailingSpace_plain l : Forall plain l → trailingSpace l = None.
Proof.
  intros Hl. apply trailingSpace_None. intros r Hr [k ->].
  apply Forall_app in Hl as [_ Hl].
  apply spaceRunes_shape in Hr as [(c & -> & Hc)|[Hlen Hall]].
  - apply Forall_inv in Hl as [? _]. congruence.
  - destruct r as [|c r]; [simpl in Hlen; lia|].
    apply Forall_inv in Hl as [_ ?]. apply Forall_inv in Hall. congruence.
Qed.

(** TrimSpace takes the final line feed off a line of plain bytes. *)
Lemma TrimSpace_line (s : string) :
  Forall plain (bytesOf s) → s ≠ "" → TrimSpace (s +:+ LF) = s.
Proof.
  intros Hs Hne. unfold TrimSpace. rewrite bytesOf_app.
  change (bytesOf LF) with [ascii_of_N 10].
  destruct (bytesOf s) as [|c l] eqn:Hb; [by apply bytesOf_nil in Hb|].
  rewrite trimLeft_id by (apply leadingSpace_plain; by apply Forall_inv in Hs).
  set (line := (c :: l) ++ [ascii_of_N 10]).
  assert (Hlast : trailingSpace line = Some [ascii_of_N 10]).
  { destruct (trailingSpace line) as [r|] eqn:Hr.
    - apply trailingSpace_Some in Hr as [Hr [k Hk]]. f_equal.
      apply spaceRunes_shape in Hr as [(c' & -> & Hc')|[Hlen Hall]].
      + by apply app_inj_tail in Hk as [_ ->].
      + destruct r as [|x r' _] using rev_ind; [simpl in Hlen; lia|].
        rewrite (List.app_assoc k r' [x]) in Hk. apply app_inj_tail in Hk as [_ <-].
        apply Forall_app in Hall as [_ Hall]. apply Forall_inv in Hall.
        by vm_compute in Hall.
    - exfalso. rewrite trailingSpace_None in Hr.
      apply (Hr [ascii_of_N 10]); [by vm_compute; repeat constructor|].
      by exists (c :: l). }
  unfold trimRight.
  assert (length line = S (S (length l))) as -> by (unfold line; rewrite length_app; simpl; lia).
  cbn [trimRightFuel]. rewrite Hlast.
  assert (take (length line - length [ascii_of_N 10]) line = c :: l) as ->.
  { unfold line. rewrite length_app. simpl length. rewrite Nat.add_sub.
    apply (take_app_length (c :: l)). }
  rewrite trailingSpace_plain by done. by rewrite <- Hb, ofBytes_bytesOf.
Qed.

End counterFacts.

(** ** Counters and serial texts *)

Module serialFacts.
Import strings stringsFacts strconv counterFacts.

Fixpoint of_pos_lower (p : positive) (rest : string) {struct p} :
  Forall lowerHex (bytesOf rest) →
  Forall lowerHex (bytesOf (HexString.Raw.of_pos p rest)).
Proof.
  intros Hrest.
  do 4 try destruct p as [p|p|]; cbn [HexString.Raw.of_pos];
    try (apply of_pos_lower); simpl;
    repeat (constructor; [by unfold lowerHex; simpl; repeat constructor|]); done.
Qed.

Lemma lowerHex_hexDigit c : lowerHex c → hexDigit c.
Proof.
  unfold lowerHex. simpl. intros Hc.
  repeat (apply elem_of_cons in Hc as [->|Hc]; [by eexists|]).
  by apply elem_of_nil in Hc.
Qed.

Lemma lowerHex_fixed c : lowerHex c → highByte c = false ∧ lowerByte c = c.
Proof.
  unfold lowerHex. simpl. intros Hc.
  repeat (apply elem_of_cons in Hc as [->|Hc]; [by vm_compute|]).
  by apply elem_of_nil in Hc.
Qed.

Lemma hexText_lower n :
  0 ≤ n → Forall lowerHex (bytesOf (hexText n)) ∧ hexText n ≠ "".
Proof.
  intros Hn. destruct n as [|p|p]; [| |lia].
  - split; [|done]. unfold lowerHex. simpl. by repeat constructor.
  - split; [apply of_pos_lower; constructor|apply of_pos_nonempty].
Qed.

(** The bytes of [hexText]: an optional minus sign, then lower-case
    hexadecimal digits. *)
Lemma hexText_bytes n :
  Forall (λ c, c = "-"%char ∨ lowerHex c) (bytesOf (hexText n)).
Proof.
  destruct n as [|p|p].
  - constructor; [|constructor]. right. unfold lowerHex. simpl. by repeat constructor.
  - eapply Forall_impl; [|apply (of_pos_lower p ""); constructor]. by right.
  - unfold hexText. rewrite bytesOf_app. apply Forall_app. split.
    + constructor; [by left|constructor].
    + eapply Forall_impl; [|apply (of_pos_lower p ""); constructor]. by right.
Qed.

Lemma ToLower_hexText special n : ToLower special (hexText n) = hexText n.
Proof.
  pose proof (hexText_bytes n) as Hb. unfold ToLower.
  assert (Hascii : isASCII (hexText n) = true).
  { unfold isASCII. apply forallb_forall. intros c Hc%list_elem_of_In.
    rewrite List.Forall_forall in Hb. apply list_elem_of_In, Hb in Hc as [->|Hc]; [done|].
    by apply lowerHex_fixed in Hc as [-> _]. }
  rewrite Hascii. rewrite <- (ofBytes_bytesOf (hexText n)) at 2. f_equal.
  clear Hascii. revert Hb. generalize (bytesOf (hexText n)). intros l Hb.
  induction Hb as [|c l Hc Hl IH]; [done|]. rewrite fmap_cons, IH. f_equal.
  destruct Hc as [->|Hc]; [done|]. by apply lowerHex_fixed in Hc as [_ ->].
Qed.

(** ParseInt reads back what the [%02x] verb writes, on all of int64. *)
Lemma ParseInt16_Sprintf02x_int64 v :
  inInt64 v → ParseInt16 (Sprintf02x v) = inr v.
Proof.
  intros [Hlo Hhi]. destruct (decide (0 ≤ v)) as [Hv|Hv];
    [by apply ParseInt16_Sprintf02x|].
  destruct v as [|p|p]; [lia..|]. unfold minInt64 in Hlo.
  assert (Hp : (Npos p < 2 ^ 64)%N).
  { change (2 ^ 64)%N with 18446744073709551616%N. lia. }
  unfold Sprintf02x, hexText.
  change ("-" +:+ HexString.Raw.of_pos p "")
    with (String "-" (HexString.Raw.of_pos p "")).
  unfold ParseInt16. rewrite (bool_decide_eq_true_2 ("-"%char = "-"%char)) by done.
  rewrite orb_true_r, (ParseUint16_hexText p Hp). cbn [negb andb].
  assert ((2 ^ 63 <? Z.of_N (N.pos p)) = false) as -> by (apply Z.ltb_ge; lia).
  done.
Qed.

(** ParseInt returns int64 values only. *)
Lemma ParseInt16_range s v : ParseInt16 s = inr v → inInt64 v.
Proof.
  unfold ParseInt16, inInt64, minInt64, maxInt64.
  destruct s as [|c s]; [done|].
  destruct (ParseUint16 _) as [|un]; [done|].
  destruct (bool_decide (c = "-"%char)); cbn [negb andb orb].
  - destruct (2 ^ 63 <? Z.of_N un) eqn:Hlt; [done|].
    apply Z.ltb_ge in Hlt. intros [= <-]. lia.
  - destruct (2 ^ 63 <=? Z.of_N un) eqn:Hle; [done|].
    apply Z.leb_gt in Hle. intros [= <-]. lia.
Qed.

Lemma Sprintf02x_plain v :
  Forall plain (bytesOf (Sprintf02x v)) ∧ Sprintf02x v ≠ "".
Proof.
  destruct (decide (0 ≤ v)) as [Hv|Hv].
  - destruct (Sprintf02x_digits v Hv) as [Hd Hne]. split; [|done].
    eapply Forall_impl; [|exact Hd]. intros c Hc.
    by apply hexDigit_plain in Hc as [? _].
  - destruct v as [|p|p]; [lia..|]. unfold Sprintf02x, hexText. split; [|done].
    rewrite bytesOf_app. apply Forall_app. split; [by repeat constructor|].
    eapply Forall_impl; [|apply (of_pos_digits p ""); constructor].
    intros c Hc. by apply hexDigit_plain in Hc as [? _].
Qed.

Lemma Sprintf02x_bytes v :
  Forall (λ c, c = "-"%char ∨ lowerHex c) (bytesOf (Sprintf02x v)).
Proof.
  assert (Hz : lowerHex "0").
  { unfold lowerHex. simpl. by repeat constructor. }
  unfold Sprintf02x. destruct v as [|p|p]; [| |apply hexText_bytes].
  - simpl. repeat constructor; by right.
  - destruct (_ <? _)%nat; [|apply hexText_bytes].
    constructor; [by right|apply hexText_bytes].
Qed.

Lemma FormatSerial_ascii v : isASCII (FormatSerial v) = true.
Proof.
  apply utf8Facts.isASCII_Forall. unfold FormatSerial.
  eapply Forall_impl; [|apply Sprintf02x_bytes].
  intros c [->|Hc]; [done|]. by apply lowerHex_fixed in Hc as [? _].
Qed.

End serialFacts.

(** ** Paths of the data directory *)

Module pathFacts.
Import strings stringsFacts.

Lemma prefix_nil (s : string) : String.prefix "" s = true.
Proof. by destruct s. Qed.

Lemma prefix_cons a p c s :
  String.prefix (String a p) (String c s)
  = if ascii_dec a c then String.prefix p s else false.
Proof. done. Qed.

Lemma prefix_self (p s : string) : String.prefix p (p +:+ s) = true.
Proof.
  induction p as [|c p IH]; [by destruct s|].
  change (String.prefix (String c p) (String c (p +:+ s)) = true).
  simpl. by destruct (ascii_dec c c).
Qed.

Lemma append_inj_r (s t u : string) : s +:+ u = t +:+ u → s = t.
Proof.
  intros H. apply bytesOf_inj. apply (f_equal bytesOf) in H.
  rewrite !bytesOf_app in H. by apply app_inv_tail in H.
Qed.

Lemma prefix_append (d a b : string) :
  String.prefix (d +:+ a) (d +:+ b) = String.prefix a b.
Proof.
  induction d as [|c d IH]; [done|].
  change (String.prefix (String c (d +:+ a)) (String c (d +:+ b)) = String.prefix a b).
  simpl. by destruct (ascii_dec c c).
Qed.

(** *** Splitting and joining at a separator *)

Lemma Split_nonempty s sep : Split s sep ≠ [].
Proof.
  destruct s as [|c s]; simpl; [done|].
  case_bool_decide; [done|]. by destruct (Split s sep).
Qed.

Lemma Split_app_sep a b sep :
  Split (a +:+ String sep b) sep = Split a sep ++ Split b sep.
Proof.
  induction a as [|c a IH].
  - simpl. by rewrite bool_decide_eq_true_2.
  - change (String c a +:+ String sep b) with (String c (a +:+ String sep b)).
    simpl. rewrite IH. case_bool_decide; [done|].
    pose proof (Split_nonempty a sep). by destruct (Split a sep).
Qed.

Lemma Join_Split s sep : Join (Split s sep) (String sep "") = s.
Proof.
  induction s as [|c s IH]; [done|]. simpl.
  pose proof (Split_nonempty s sep) as Hne.
  case_bool_decide as Hc.
  - subst c. destruct (Split s sep) as [|p ps]; [done|].
    change (Join ("" :: p :: ps) (String sep ""))
      with ("" +:+ String sep "" +:+ Join (p :: ps) (String sep "")).
    by rewrite IH.
  - destruct (Split s sep) as [|p [|p2 ps]]; [done| |].
    + simpl in *. by subst.
    + change (Join (String c p :: p2 :: ps) (String sep ""))
        with (String c (p +:+ String sep "" +:+ Join (p2 :: ps) (String sep ""))).
      by rewrite <- IH.
Qed.

Lemma Join_app xs ys sep :
  xs ≠ [] → ys ≠ [] → Join (xs ++ ys) sep = Join xs sep +:+ sep +:+ Join ys sep.
Proof.
  intros Hx Hy. induction xs as [|x [|x2 xs] IH]; [done| |].
  - simpl. by destruct ys.
  - change (Join ((x :: x2 :: xs) ++ ys) sep)
      with (x +:+ sep +:+ Join ((x2 :: xs) ++ ys) sep).
    rewrite IH by done.
    change (Join (x :: x2 :: xs) sep) with (x +:+ sep +:+ Join (x2 :: xs) sep).
    by rewrite !append_assoc.
Qed.

(** *** [filepath.Join] with a name that is clean already *)

Lemma filepath_Join_cons e rest :
  filepath_Join (e :: rest)
  = if bool_decide (e = "") then filepath_Join rest
    else filepath_Clean (Join (e :: rest) "/").
Proof. done. Qed.

Lemma foldl_cleanStep_normal rooted kept elems :
  forallb normalElem elems = true →
  foldl (cleanStep rooted) kept elems = rev elems ++ kept.
Proof.
  revert kept. induction elems as [|e elems IH]; intros kept; [done|].
  simpl. intros [He Hes]%andb_true_iff. rewrite IH by done.
  rewrite <- List.app_assoc. simpl. f_equal. unfold cleanStep.
  unfold normalElem in He. apply negb_true_iff in He.
  apply orb_false_iff in He as [He He2].
  rewrite He. by rewrite He2.
Qed.

Lemma normalName_nonempty name : normalName name = true → name ≠ "".
Proof. by intros Hn ->. Qed.

Lemma normalName_unrooted name : normalName name = true → HasPrefix name "/" = false.
Proof.
  destruct name as [|c name]; [by vm_compute|]. unfold normalName, HasPrefix.
  rewrite prefix_cons. destruct (ascii_dec "/" c) as [<-|Hc]; [|done].
  cbn [Split]. by rewrite bool_decide_eq_true_2 by done.
Qed.

Lemma HasPrefix_app_nonempty (dir t : string) :
  dir ≠ "" → HasPrefix (dir +:+ t) "/" = HasPrefix dir "/".
Proof.
  destruct dir as [|c dir]; [done|]. intros _. unfold HasPrefix.
  change (String c dir +:+ t) with (String c (dir +:+ t)).
  rewrite !prefix_cons. destruct (ascii_dec "/" c); [|done]. by rewrite !prefix_nil.
Qed.

Lemma Clean_normal name : normalName name = true → filepath_Clean name = name.
Proof.
  intros Hn. unfold filepath_Clean.
  rewrite bool_decide_eq_false_2 by by apply normalName_nonempty.
  rewrite normalName_unrooted by done.
  rewrite foldl_cleanStep_normal by done.
  rewrite List.app_nil_r, rev_involutive, (Join_Split name "/").
  by rewrite bool_decide_eq_false_2 by by apply normalName_nonempty.
Qed.

(** The path of a name in a directory is the base of the directory and
    the name. *)
Lemma inDir_base dir name :
  normalName name = true → inDir dir name = dirBase dir +:+ name.
Proof.
  intros Hn. unfold inDir, dirBase. rewrite !filepath_Join_cons.
  pose proof (normalName_nonempty _ Hn) as Hne.
  case_bool_decide as Hdir.
  - rewrite (bool_decide_eq_false_2 (name = "")) by done.
    change (Join [name] "/") with name. by apply Clean_normal.
  - change (Join [dir; name] "/") with (dir +:+ String "/" name).
    unfold filepath_Clean.
    rewrite bool_decide_eq_false_2 by by destruct dir.
    rewrite HasPrefix_app_nonempty by done.
    rewrite Split_app_sep, foldl_app.
    set (rooted := HasPrefix dir "/").
    set (kept := foldl (cleanStep rooted) [] (Split dir "/")).
    rewrite foldl_cleanStep_normal by done.
    rewrite rev_app_distr, rev_involutive.
    pose proof (Split_nonempty name "/") as Hs.
    destruct (decide (kept = [])) as [Hk|Hk].
    + rewrite Hk. cbn [rev app]. rewrite (Join_Split name "/").
      rewrite (bool_decide_eq_false_2 (name = "")) by done.
      by destruct rooted.
    + assert (Hrev : rev kept ≠ []).
      { intros Hr. apply Hk. by rewrite <- (rev_involutive kept), Hr. }
      rewrite Join_app, (Join_Split name "/") by done.
      rewrite (bool_decide_eq_false_2 (kept = [])) by done.
      rewrite (bool_decide_eq_false_2 (_ +:+ _ = ""))
        by by destruct (Join (rev kept) "/").
      destruct rooted; by rewrite !append_assoc.
Qed.

Lemma Join2 dir name : filepath_Join [dir; name] = inDir dir name.
Proof. done. Qed.

Lemma Join3 dir sub name :
  sub ≠ "" → filepath_Join [dir; sub; name] = inDir dir (sub +:+ "/" +:+ name).
Proof.
  intros Hsub. unfold inDir. rewrite !filepath_Join_cons.
  case_bool_decide as Hdir.
  - rewrite (bool_decide_eq_false_2 (sub = "")) by done.
    by rewrite (bool_decide_eq_false_2 (sub +:+ "/" +:+ name = "")) by by destruct sub.
  - by destruct dir.
Qed.

Lemma Join_cert dir hex :
  filepath_Join [dir; "certs"; hex +:+ ".pem"] = inDir dir (certName hex).
Proof. by apply Join3. Qed.

(** *** Names below the data directory *)

Lemma Split_plain t sep : sep ∉ bytesOf t → Split t sep = [t].
Proof.
  induction t as [|c t IH]; [done|]. simpl.
  intros [Hc Ht]%not_elem_of_cons.
  rewrite bool_decide_eq_false_2 by done. by rewrite IH.
Qed.

Lemma Split_last a t sep :
  sep ∉ bytesOf t →
  ∃ ps p, Split a sep = ps ++ [p] ∧ Split (a +:+ t) sep = ps ++ [p +:+ t].
Proof.
  intros Ht. induction a as [|c a (ps & p & Ha & Hat)].
  - exists [], "". split; [done|]. by apply Split_plain.
  - change (String c a +:+ t) with (String c (a +:+ t)). simpl.
    rewrite Ha, Hat. case_bool_decide.
    + by exists ("" :: ps), p.
    + destruct ps as [|q ps]; simpl.
      * by exists [], (String c p).
      * by exists (String c q :: ps), p.
Qed.

Lemma normalElem_suffixed p a b c t :
  normalElem (p +:+ String a (String b (String c t))) = true.
Proof.
  unfold normalElem.
  destruct p as [|x [|y [|z p]]]; simpl;
    by rewrite !bool_decide_eq_false_2 by discriminate.
Qed.

Lemma normalName_tmp name :
  normalName name = true → normalName (name +:+ ".tmp") = true.
Proof.
  unfold normalName.
  destruct (Split_last name ".tmp" "/") as (ps & p & -> & ->);
    [by apply (bool_decide_unpack _); vm_compute|].
  rewrite !forallb_app. intros [-> _]%andb_true_iff. simpl.
  by rewrite andb_true_r, normalElem_suffixed.
Qed.

Lemma normalName_cert hex :
  "/"%char ∉ bytesOf hex → normalName (certName hex) = true.
Proof.
  intros Hhex. unfold normalName, certName.
  change ("certs/" +:+ hex +:+ ".pem") with ("certs" +:+ String "/" (hex +:+ ".pem")).
  rewrite Split_app_sep. simpl.
  destruct (Split_last hex ".pem" "/") as (ps & p & Hsplit & ->);
    [by apply (bool_decide_unpack _); vm_compute|].
  rewrite Split_plain in Hsplit by done. destruct ps as [|q [|q2 ps]]; simplify_eq/=.
  by rewrite andb_true_r, normalElem_suffixed.
Qed.

Lemma FormatSerial_noSlash v : "/"%char ∉ bytesOf (FormatSerial v).
Proof.
  intros Hin. unfold FormatSerial in Hin.
  pose proof (serialFacts.Sprintf02x_bytes v) as Hb.
  rewrite List.Forall_forall in Hb. apply list_elem_of_In, Hb in Hin as [Hin|Hin].
  - discriminate.
  - unfold lowerHex in Hin. simpl in Hin.
    repeat (apply elem_of_cons in Hin as [Hin|Hin]; [discriminate|]).
    by apply elem_of_nil in Hin.
Qed.

Lemma normalName_serial v : normalName (certName (FormatSerial v)) = true.
Proof. apply normalName_cert, FormatSerial_noSlash. Qed.

Lemma inDir_tmp dir name :
  normalName name = true →
  inDir dir name +:+ ".tmp" = inDir dir (name +:+ ".tmp").
Proof.
  intros Hn. rewrite !inDir_base by (done || by apply normalName_tmp).
  by rewrite append_assoc.
Qed.

Lemma inDir_inj dir a b :
  normalName a = true → normalName b = true → inDir dir a = inDir dir b → a = b.
Proof.
  intros Ha Hb. rewrite !inDir_base by done. apply (inj (String.app _)).
Qed.

Lemma inDir_ne dir a b :
  normalName a = true → normalName b = true → a ≠ b → inDir dir a ≠ inDir dir b.
Proof. intros Ha Hb Hne Heq. by apply inDir_inj in Heq. Qed.

Lemma certName_inj a b : certName a = certName b → a = b.
Proof.
  unfold certName. intros H. apply (inj (String.app "certs/")) in H.
  by apply append_inj_r in H.
Qed.

Lemma underCerts_inDir dir name :
  normalName name = true →
  underCerts dir (inDir dir name) = String.prefix "certs/" name.
Proof.
  intros Hn. unfold underCerts, HasPrefix.
  rewrite !inDir_base by done.
  by rewrite append_assoc, prefix_append.
Qed.

Lemma underCerts_certName dir v :
  underCerts dir (inDir dir (certName (FormatSerial v))) = true.
Proof. rewrite underCerts_inDir by apply normalName_serial. apply prefix_self. Qed.

Lemma certName_not_tmp a b : certName a ≠ certName b +:+ ".tmp".
Proof.
  unfold certName. rewrite !append_assoc. intros H.
  apply (inj (String.app "certs/")) in H.
  apply (f_equal (λ s, list.last (bytesOf s))) in H. simpl in H.
  rewrite !bytesOf_app, !last_app in H. by simpl in H.
Qed.

Lemma certName_fixed hex name : String.prefix "certs/" name = false → name ≠ certName hex.
Proof. intros Hp ->. unfold certName in Hp. by rewrite prefix_self in Hp. Qed.

(** [filepath.Clean] on the paths of the test table of package
    path/filepath: clean paths, the empty path, trailing and doubled
    separators, and the elements "." and "..". *)
Lemma filepath_Clean_examples :
  filepath_Clean "abc" = "abc"
  ∧ filepath_Clean "abc/def" = "abc/def"
  ∧ filepath_Clean "a/b/c" = "a/b/c"
  ∧ filepath_Clean "." = "."
  ∧ filepath_Clean ".." = ".."
  ∧ filepath_Clean "../.." = "../.."
  ∧ filepath_Clean "../../abc" = "../../abc"
  ∧ filepath_Clean "/abc" = "/abc"
  ∧ filepath_Clean "/" = "/"
  ∧ filepath_Clean "" = "."
  ∧ filepath_Clean "abc/" = "abc"
  ∧ filepath_Clean "abc/def/" = "abc/def"
  ∧ filepath_Clean "a/b/c/" = "a/b/c"
  ∧ filepath_Clean "./" = "."
  ∧ filepath_Clean "../" = ".."
  ∧ filepath_Clean "../../" = "../.."
  ∧ filepath_Clean "/abc/" = "/abc"
  ∧ filepath_Clean "abc//def//ghi" = "abc/def/ghi"
  ∧ filepath_Clean "abc//" = "abc"
  ∧ filepath_Clean "abc/./def" = "abc/def"
  ∧ filepath_Clean "/./abc/def" = "/abc/def"
  ∧ filepath_Clean "abc/." = "abc"
  ∧ filepath_Clean "abc/def/ghi/../jkl" = "abc/def/jkl"
  ∧ filepath_Clean "abc/def/../ghi/../jkl" = "abc/jkl"
  ∧ filepath_Clean "abc/def/.." = "abc"
  ∧ filepath_Clean "abc/def/../.." = "."
  ∧ filepath_Clean "/abc/def/../.." = "/"
  ∧ filepath_Clean "abc/def/../../.." = ".."
  ∧ filepath_Clean "/abc/def/../../.." = "/"
  ∧ filepath_Clean "abc/def/../../../ghi/jkl/../../../mno" = "../../mno"
  ∧ filepath_Clean "/../abc" = "/abc"
  ∧ filepath_Clean "abc/./../def" = "def"
  ∧ filepath_Clean "abc//./../def" = "def"
  ∧ filepath_Clean "abc/../../././../def" = "../../def"
  ∧ filepath_Clean "//abc" = "/abc"
  ∧ filepath_Clean "///abc" = "/abc"
  ∧ filepath_Clean "//abc//" = "/abc".
Proof. repeat split; vm_compute; reflexivity. Qed.

(** [filepath.Join] on some directories as they are given on the command
    line: the result is cleaned. *)
Lemma filepath_Join_examples :
  filepath_Join ["./ca-data"; "ca.crt"] = "ca-data/ca.crt"
  ∧ filepath_Join ["ca-data/"; "certs"; "02.pem"] = "ca-data/certs/02.pem"
  ∧ filepath_Join [""; "serial"] = "serial"
  ∧ filepath_Join ["."; "serial"] = "serial"
  ∧ filepath_Join ["/"; "serial"] = "/serial"
  ∧ filepath_Join ["/var//lib/ca/../ca"; "index.json"] = "/var/lib/ca/index.json"
  ∧ filepath_Join ["../ca"; "serial"] = "../ca/serial"
  ∧ filepath_Join [""; ""] = ""
  ∧ filepath_Clean "" = "."
  ∧ filepath_Clean "a/.." = "."
  ∧ filepath_Clean "/.." = "/".
Proof. repeat split; vm_compute; reflexivity. Qed.

End pathFacts.

(** ** Running the engine step by step *)

Section Steps.
Context `{L : GoLib}.

Lemma bind_inv {A B} (m : IO A) (k : A → IO B) st st' r :
  (m ≫= k) st = (st', r) →
  (∃ a st1, m st = (st1, Ok a) ∧ k a st1 = (st', r))
  ∨ (∃ e, m st = (st', Err e) ∧ r = Err e).
Proof.
  unfold mbind, IO_bind, bind. destruct (m st) as [st1 [a|e]]; [by eauto|].
  intros [= <- <-]. eauto.
Qed.

Lemma wrapping_inv {A} prefix (m : IO A) st st' r :
  wrapping prefix m st = (st', r) →
  (∃ a, m st = (st', Ok a) ∧ r = Ok a)
  ∨ (∃ e, m st = (st', Err e) ∧ r = Err (wrapErr prefix e)).
Proof.
  unfold wrapping, onErr, fail. destruct (m st) as [st1 [a|e]]; intros [= <- <-]; eauto.
Qed.

Lemma dirsKept_same removed st st' : dirs st' = dirs st → dirsKept removed st st'.
Proof. intros Hd. unfold dirsKept. rewrite Hd. done. Qed.

Lemma dirsKept_trans removed a b c :
  dirsKept removed a b → dirsKept removed b c → dirsKept removed a c.
Proof.
  intros [Hs1 Hk1] [Hs2 Hk2]. split; [by etrans|].
  intros p Hp Hnin. by apply Hk2; [apply Hk1|].
Qed.

Lemma dirsKept_mono removed removed' a b :
  removed ⊆ removed' → dirsKept removed a b → dirsKept removed' a b.
Proof.
  intros Hsub [Hs Hk]. split; [done|].
  intros p Hp Hnin. apply Hk; [done|]. intros Hin. by apply Hnin, Hsub.
Qed.

Lemma dirsKept_tmp removed st st' :
  Forall tmpName removed → dirsKept removed st st' → dirsButTmp st st'.
Proof.
  intros Htmp [Hs Hk]. split; [done|].
  intros p Hp Hnt. apply Hk; [done|]. intros Hin. apply Hnt.
  rewrite List.Forall_forall in Htmp. by apply Htmp, list_elem_of_In.
Qed.

Lemma dirsButTmp_same st st' : dirs st' = dirs st → dirsButTmp st st'.
Proof. intros Hd. unfold dirsButTmp. rewrite Hd. done. Qed.

(** [os.Remove] takes the path out of the files; of the directories it
    removes the path at most. *)
Lemma os_Remove_inv path st :
  files (os_Remove path st).1 = delete path (files st)
  ∧ dirsKept [path] st (os_Remove path st).1
  ∧ (os_Remove path st).2 = Ok tt.
Proof.
  unfold os_Remove. simpl. destruct (files st !! path) eqn:Hp; simpl.
  - split; [done|]. split; [by apply dirsKept_same|done].
  - destruct (_ && _); simpl.
    + split; [by rewrite delete_id|]. split; [|done].
      split; simpl; [apply subseteq_difference_l; done|].
      intros p Hin Hne. apply not_elem_of_cons in Hne as [Hne _].
      apply elem_of_difference. split; [done|]. by rewrite elem_of_singleton.
    + split; [by rewrite delete_id|]. split; [by apply dirsKept_same|done].
Qed.

Lemma cleanupTempFiles_files paths st :
  files (cleanupTempFiles paths st).1 = foldl (λ m p, delete p m) (files st) paths
  ∧ dirsKept paths st (cleanupTempFiles paths st).1
  ∧ (cleanupTempFiles paths st).2 = Ok tt.
Proof.
  revert st. induction paths as [|p paths IH]; intros st.
  - split; [done|]. split; [by apply dirsKept_same|done].
  - simpl. unfold mbind, IO_bind, bind.
    destruct (os_Remove_inv p st) as (Hf & Hd & Hr).
    destruct (os_Remove p st) as [st1 r1]. simpl in *. subst r1.
    destruct (IH st1) as (Hf' & Hd' & Hr'). rewrite Hf in Hf'.
    split; [done|]. split; [|done].
    eapply dirsKept_trans.
    + eapply dirsKept_mono; [|exact Hd].
      intros q ->%list_elem_of_singleton. by left.
    + eapply dirsKept_mono; [|exact Hd']. intros q Hq. by right.
Qed.

Lemma foldl_delete_lookup (m : gmap string string) paths q :
  foldl (λ m p, delete p m) m paths !! q = if decide (q ∈ paths) then None else m !! q.
Proof.
  revert m. induction paths as [|p paths IH]; intros m; simpl.
  - done.
  - rewrite IH. destruct (decide (q ∈ paths)) as [Hin|Hnin].
    + rewrite decide_True; [done|by right].
    + destruct (decide (q = p)) as [->|Hne].
      * rewrite decide_True by left. apply lookup_delete_eq.
      * rewrite decide_False; [by apply lookup_delete_ne|].
        by intros [?|?]%elem_of_cons.
Qed.

Lemma cleanupTempFiles_lookup paths st q :
  files (cleanupTempFiles paths st).1 !! q
  = if decide (q ∈ paths) then None else files st !! q.
Proof.
  destruct (cleanupTempFiles_files paths st) as (-> & _ & _).
  apply foldl_delete_lookup.
Qed.

(** The two outcomes of a staging write. *)
Lemma stage_inv ft tmpPaths tmpPath data what st st' r :
  stage ft tmpPaths tmpPath data what st = (st', r) →
  (r = Ok tt ∧ writeFault ft tmpPath = None
   ∧ files st' = <[tmpPath := data]> (files st) ∧ dirs st' = dirs st)
  ∨ ((∃ e, r = Err (wrapErr what e)) ∧ is_Some (writeFault ft tmpPath)
     ∧ dirsKept tmpPaths st st'
     ∧ (∀ q, q ∈ tmpPaths → files st' !! q = None)
     ∧ (∀ q, q ∉ tmpPaths → q ≠ tmpPath → files st' !! q = files st !! q)).
Proof.
  unfold stage, onErr, os_WriteFile.
  destruct (writeFault ft tmpPath) as [wf|] eqn:Hwf; simpl.
  - unfold mbind at 1, IO_bind, bind, fail.
    match goal with |- context [cleanupTempFiles ?p ?s] =>
      pose proof (cleanupTempFiles_files p s) as (Hf & Hd & Hr);
      pose proof (cleanupTempFiles_lookup p s) as Hl;
      destruct (cleanupTempFiles p s) as [st1 r1] end.
    simpl in *. subst r1. intros [= <- <-]. right.
    split; [by eauto|]. split; [done|].
    split; [by destruct (wfLeft wf)|]. split.
    + intros q Hq. by rewrite Hl, decide_True.
    + intros q Hq Hne. rewrite Hl, decide_False by done.
      destruct (wfLeft wf); simpl; [by apply lookup_insert_ne|done].
  - intros [= <- <-]. left. done.
Qed.

(** The two outcomes of one step of a commit loop. *)
Lemma commitOne_inv ft tmpPaths src dst st st' r :
  commitOne ft tmpPaths (src, dst) st = (st', r) →
  (r = Ok tt ∧ renameFault ft src = None ∧ dirs st' = dirs st
   ∧ ∃ data, files st !! src = Some data
             ∧ files st' = <[dst := data]> (delete src (files st)))
  ∨ ((∃ e, r = Err ("failed to commit " +:+ dst +:+ ": " +:+ e))
     ∧ dirsKept tmpPaths st st'
     ∧ (∀ q, q ∈ tmpPaths → files st' !! q = None)
     ∧ (∀ q, q ∉ tmpPaths → files st' !! q = files st !! q)).
Proof.
  unfold commitOne, onErr, os_Rename. simpl fst. simpl snd.
  assert (Hfail : ∀ e st0, files st0 = files st → dirs st0 = dirs st →
    ((cleanupTempFiles tmpPaths;; fail ("failed to commit " +:+ dst +:+ ": " +:+ e))
       : IO unit) st0 = (st', r) →
    (∃ e, r = Err ("failed to commit " +:+ dst +:+ ": " +:+ e))
     ∧ dirsKept tmpPaths st st'
     ∧ (∀ q, q ∈ tmpPaths → files st' !! q = None)
     ∧ (∀ q, q ∉ tmpPaths → files st' !! q = files st !! q)).
  { intros e st0 Hf0 Hd0. unfold mbind, IO_bind, bind, fail.
    pose proof (cleanupTempFiles_files tmpPaths st0) as (Hf & Hd & Hr).
    pose proof (cleanupTempFiles_lookup tmpPaths st0) as Hl.
    destruct (cleanupTempFiles tmpPaths st0) as [st1 r1].
    simpl in *. subst r1. intros [= <- <-].
    split; [by eauto|]. split.
    { destruct Hd as [Hs Hk]. unfold dirsKept. by rewrite <- Hd0. }
    split.
    - intros q Hq. by rewrite Hl, decide_True.
    - intros q Hq. by rewrite Hl, decide_False, Hf0. }
  destruct (renameFault ft src) as [e|] eqn:Hrf.
  - intros H. right. by eapply Hfail in H.
  - simpl. destruct (files st !! src) as [data|] eqn:Hsrc.
    + intros [= <- <-]. left. eauto 10.
    + intros H. right. by eapply Hfail in H.
Qed.

Lemma readonly_eq {A} (m : IO A) st st1 r :
  (m st).1 = st → m st = (st1, r) → st1 = st.
Proof. intros Hro Hm. rewrite Hm in Hro. done. Qed.

Lemma lift_inv {A} (x : result A) st st' r : lift x st = (st', r) → st' = st ∧ r = x.
Proof. by intros [= <- <-]. Qed.

Lemma lift_store {A} (x : result A) st : (lift x st).1 = st.
Proof. done. Qed.

Lemma readonly_wrapping {A} what (m : IO A) st :
  (m st).1 = st → (wrapping what m st).1 = st.
Proof. apply wrapping_store. Qed.

(** A step that only reads: its error ends the operation with the store
    unchanged, its value goes on. *)
Lemma pure_step_inv {A} what (m : IO A) st st1 r :
  (m st).1 = st → wrapping what m st = (st1, r) →
  st1 = st ∧ ((∃ a, r = Ok a ∧ (m st).2 = Ok a)
              ∨ (∃ e, r = Err (wrapErr what e))).
Proof.
  intros Hro Hm. split; [by eapply readonly_eq; [apply readonly_wrapping|]|].
  apply wrapping_inv in Hm as [(a & Hm & ->)|(e & Hm & ->)]; [left|right; eauto].
  exists a. by rewrite Hm.
Qed.

Lemma prefix_weaken (p what rest : string) :
  String.prefix p what = true → String.prefix p (what +:+ rest) = true.
Proof.
  revert what. induction p as [|c p IH]; intros what; [by destruct what, rest|].
  destruct what as [|c' what]; [done|].
  change (String c' what +:+ rest) with (String c' (what +:+ rest)). simpl.
  destruct (ascii_dec c c'); [apply IH|done].
Qed.

End Steps.

(** Splits a hypothesis [(m ≫= k) st = (st', r)] into the run of [m] and
    the run of [k]; on the error branch the result is substituted. *)
Tactic Notation "inv_bind" hyp(H) ident(a) ident(st1) ident(Hm) :=
  apply bind_inv in H as [(a & st1 & Hm & H)|(? & Hm & ->)].

(** Solves [normalName name = true] for the names of the data directory. *)
Ltac normal_name :=
  first [ apply pathFacts.normalName_serial
        | apply pathFacts.normalName_tmp; normal_name
        | vm_compute; reflexivity ].

(** Solves the disequality of two paths of the data directory. *)
Ltac path_ne :=
  rewrite ?pathFacts.Join2, ?pathFacts.Join_cert;
  rewrite ?pathFacts.inDir_tmp by normal_name;
  first
    [ apply pathFacts.inDir_ne;
      [ normal_name | normal_name
      | first [ discriminate
              | apply pathFacts.certName_not_tmp
              | apply not_eq_sym, pathFacts.certName_not_tmp
              | by intros ?%(f_equal (String.prefix "certs/")) ] ]
    | match goal with
      | H : underCerts _ ?q = true |- _ ≠ ?q =>
          intros Heq;
          rewrite <- Heq, pathFacts.underCerts_inDir in H by normal_name;
          discriminate H
      | H : underCerts _ ?q = true |- ?q ≠ _ =>
          intros Heq;
          rewrite Heq, pathFacts.underCerts_inDir in H by normal_name;
          discriminate H
      end
    | done ].

Create HintDb readonly.
#[global] Hint Resolve LoadPrivateKey_store LoadCertificate_store LoadCRL_store
  LoadIndex_store ReadCounter_store os_ReadFile_store : readonly.
#[global] Hint Extern 1 ((lift _ _).1 = _) => reflexivity : readonly.

(** [q ∉ [p1; ...; pn]] for paths of the data directory. *)
Ltac path_notin :=
  rewrite ?not_elem_of_cons; repeat split; first [path_ne | apply not_elem_of_nil].

(** Rewrites a lookup in the files of a later store into a lookup in an
    earlier one, through the equations the steps have left. *)
Ltac lookup_chain :=
  repeat
    match goal with
    | H : files ?s = _ |- context [files ?s] => rewrite H
    | H : ∀ q, _ ∉ _ → files ?s !! q = _ |- context [files ?s !! _] =>
        rewrite H by path_notin
    | H : ∀ q, _ ∉ _ → _ ≠ _ → files ?s !! q = _ |- context [files ?s !! _] =>
        rewrite H by first [path_notin | path_ne]
    | |- context [<[_ := _]> _ !! _] => rewrite lookup_insert_ne by path_ne
    | |- context [delete _ _ !! _] => rewrite lookup_delete_ne by path_ne
    end.

(** The directories of a later store, from the equations and the one
    removal the steps have left. *)
Ltac dirs_kept :=
  first
    [ congruence
    | apply dirsButTmp_same; congruence
    | apply dirsKept_same; congruence
    | match goal with
      | H : dirsKept ?l ?s ?s' |- dirsButTmp ?s0 ?s' =>
          apply (dirsKept_tmp l);
            [repeat (constructor; [by eexists|]); constructor|];
          let E := fresh in
          assert (E : dirs s = dirs s0) by congruence;
          let Hs := fresh in
          let Hk := fresh in
          destruct H as [Hs Hk]; try rewrite E in Hs; try rewrite E in Hk;
          exact (conj Hs Hk)
      | H : dirsKept _ ?s ?s' |- dirsKept _ ?s0 ?s' =>
          let E := fresh in
          assert (E : dirs s = dirs s0) by congruence;
          let Hs := fresh in
          let Hk := fresh in
          destruct H as [Hs Hk]; try rewrite E in Hs; try rewrite E in Hk;
          exact (conj Hs Hk)
      end ].

(** The goal of a failed step, in the three shapes the outcome lemmas give
    it: the watched file as before; a failure with the watched file as
    before; an error text starting with "failed", the directories and the
    watched file as before. *)
Ltac close_failure :=
  first
    [ solve [lookup_chain; done]
    | solve [left; split; [done|]; lookup_chain; done]
    | solve [right; left; eexists; split; [reflexivity|];
             split; [by apply prefix_weaken|];
             split; [dirs_kept|]; lookup_chain; done] ].

(** A step that only reads, under [wrapping]: its value goes on, its error
    ends the operation with the store as it was. *)
Tactic Notation "pure_step" hyp(H) ident(a) ident(Hm) :=
  let st1 := fresh "st" in
  apply bind_inv in H as [(a & st1 & Hm & H)|(? & Hm & ?)];
  (eapply pure_step_inv in Hm; [|by auto with readonly]);
  [ destruct Hm as [-> [(? & [= <-] & Hm)|(? & [=])]]
  | destruct Hm as [-> [(? & [=] & _)|(? & [= ->])]];
    simplify_eq; try solve [close_failure] ].

(** Closes a goal whose hypotheses identify two different paths, or place
    a path inside or outside a list against the other hypotheses. *)
Ltac path_absurd :=
  exfalso;
  repeat match goal with
    | H : _ ∈ _ :: _ |- _ => apply elem_of_cons in H as [H|H]
    | H : _ ∈ [] |- _ => by apply elem_of_nil in H
    | H : _ ∉ _ :: _ |- _ => apply not_elem_of_cons in H as [? H]
    end;
  try done;
  match goal with
  | H : ?a = ?b |- _ => revert H; path_ne
  end.

Tactic Notation "stage_step" hyp(H) ident(Hf) ident(Hd) :=
  let st1 := fresh "st" in
  let u := fresh "u" in
  let Hm := fresh "Hm" in
  let Hnone := fresh "Hnone" in
  let Hkeep := fresh "Hkeep" in
  apply bind_inv in H as [(u & st1 & Hm & H)|(? & Hm & ?)];
  apply stage_inv in Hm
    as [(? & _ & Hf & Hd)|((? & ?) & _ & Hd & Hnone & Hkeep)];
  simplify_eq; try solve [close_failure].

Tactic Notation "commit_step" hyp(H) ident(data) ident(Hsrc) ident(Hf) ident(Hd) :=
  let st1 := fresh "st" in
  let u := fresh "u" in
  let Hm := fresh "Hm" in
  let Hnone := fresh "Hnone" in
  let Hkeep := fresh "Hkeep" in
  apply bind_inv in H as [(u & st1 & Hm & H)|(? & Hm & ?)];
  apply commitOne_inv in Hm
    as [(? & _ & Hd & data & Hsrc & Hf)|((? & ?) & Hd & Hnone & Hkeep)];
  simplify_eq; try solve [close_failure].

Section Outcomes.
Context `{L : GoLib}.
Import pathFacts.

(** The outcomes of SignCSR: a failure of the validate phase with the store
    untouched, a failure of the mutate phase with index.json as before, or
    success with the three files committed. *)
Lemma SignCSR_inv ft rnd now d csrPEM csrPath days st st' r :
  SignCSR ft rnd now d csrPEM csrPath days st = (st', r) →
  let serialPath := inDir d "serial" in
  let indexPath := inDir d "index.json" in
  (st' = st
   ∧ (IsInitialized d st = false
      ∧ r = Err "Error: CA not initialized. Run 'ca init' first."
      ∨ IsInitialized d st = true ∧ decodedCSR csrPEM = None
        ∧ r = Err ("Error: failed to parse CSR from " +:+ csrPath)
      ∨ IsInitialized d st = true
        ∧ (∃ csr, decodedCSR csrPEM = Some csr ∧ is_Some (CheckSignature csr))
        ∧ r = Err "Error: CSR signature verification failed"
      ∨ IsInitialized d st = true
        ∧ (∃ csr, decodedCSR csrPEM = Some csr ∧ CheckSignature csr = None
                  ∧ checkKeyAlgorithm (csrPublicKey csr) ≠ Ok tt)
        ∧ r = Err errUnsupportedCSRKey))
  ∨ (∃ e, r = Err e ∧ String.prefix "failed" e = true
       ∧ dirsButTmp st st'
       ∧ files st' !! indexPath = files st !! indexPath)
  ∨ (∃ res v index entry data certPEM,
       r = Ok res
       ∧ (ReadCounter serialPath st).2 = Ok v
       ∧ (LoadIndex d st).2 = Ok index
       ∧ json_MarshalIndent (index ++ [entry]) = Ok data
       ∧ Serial entry = FormatSerial v ∧ Status entry = "active"
       ∧ srSerial res = FormatSerial v
       ∧ srCertPath res = inDir d (certName (FormatSerial v))
       ∧ dirs st' = dirs st
       ∧ ∀ q, files st' !! q =
           if decide (q = indexPath) then Some (data +:+ LF)
           else if decide (q = inDir d (certName (FormatSerial v))) then Some certPEM
           else if decide (q = serialPath)
                then Some (FormatSerial (wrap64 (v + 1)) +:+ LF)
           else if decide (q ∈ [serialPath +:+ ".tmp";
                                inDir d (certName (FormatSerial v)) +:+ ".tmp";
                                indexPath +:+ ".tmp"]) then None
           else files st !! q).
Proof.
  intros H serialPath indexPath. unfold SignCSR in H.
  rewrite (bind_eq _ _ _ _ _ (gets_eq _ st)) in H.
  destruct (IsInitialized d st) eqn:Hinit; simpl in H;
    [|injection H as <- <-; left; split; [done|]; left; done].
  unfold decodedCSR.
  destruct (pem_Decode csrPEM) as [[typ der]|];
    [|injection H as <- <-; left; split; [done|]; right; left; done].
  destruct (x509_ParseCertificateRequest der) as [csr|e0];
    [|injection H as <- <-; left; split; [done|]; right; left; done].
  destruct (CheckSignature csr) as [e0|] eqn:Hsig;
    [injection H as <- <-; left; split; [done|]; right; right; left; eauto 10|].
  inv_bind H u st1 Hm; apply lift_inv in Hm as [-> Hkey].
  2:{ left. split; [done|]. right; right; right. split; [done|].
      symmetry in Hkey. pose proof Hkey as Hkey'.
      rewrite (checkKeyAlgorithm_err _) in Hkey' by congruence.
      injection Hkey' as <-. split; [|done]. exists csr. split_and!; [done..|].
      intros Hk. rewrite Hk in Hkey. done. }
  destruct u.
  pure_step H caKey HcaKey.
  pure_step H caCert HcaCert.
  pure_step H serialVal Hserial.
  pure_step H subjectSKI Hski.
  pure_step H certDER HcertDER.
  pure_step H index Hindex.
  pure_step H indexData HindexData.
  stage_step H Hf1 Hd1.
  stage_step H Hf2 Hd2.
  stage_step H Hf3 Hd3.
  apply bind_inv in H as [(u & st4 & Hm & H)|(? & Hm & ->)].
  2:{ commit_step Hm d1 Hs1 Hf4 Hd4. commit_step Hm d2 Hs2 Hf5 Hd5.
      commit_step Hm d3 Hs3 Hf6 Hd6. }
  commit_step Hm d1 Hs1 Hf4 Hd4. commit_step Hm d2 Hs2 Hf5 Hd5.
  commit_step Hm d3 Hs3 Hf6 Hd6.
  injection Hm as <-. injection H as <- <-.
  right; right.
  rewrite ?Join2, ?Join_cert in *.
  rewrite Hf3, lookup_insert_ne, Hf2, lookup_insert_ne, Hf1, lookup_insert_eq in Hs1
    by path_ne.
  injection Hs1 as <-.
  rewrite Hf4, lookup_insert_ne, lookup_delete_ne, Hf3, lookup_insert_ne, Hf2,
    lookup_insert_eq in Hs2 by path_ne.
  injection Hs2 as <-.
  rewrite Hf5, lookup_insert_ne, lookup_delete_ne, Hf4, lookup_insert_ne,
    lookup_delete_ne, Hf3, lookup_insert_eq in Hs3 by path_ne.
  injection Hs3 as <-.
  eexists _, serialVal, index, _, indexData, _.
  split; [reflexivity|]. split; [exact Hserial|]. split; [exact Hindex|].
  split; [exact HindexData|]. do 4 (split; [reflexivity|]).
  split; [congruence|].
  intros q. subst serialPath indexPath. rewrite Hf6, Hf5, Hf4, Hf3, Hf2, Hf1.
  repeat (rewrite lookup_insert || rewrite lookup_delete).
  repeat case_decide; simplify_eq; try done; path_absurd.
Qed.

(** C4, as the code has it. On an initialized CA and a CSR that decodes and
    carries a good self-signature, SignCSR lets the public key through
    exactly when it is a P-256 ECDSA key or an RSA key with a modulus of
    exactly 2048 bits: for such a key the result is never the
    unsupported-algorithm error, and for any other key the call returns
    "Error: unsupported key algorithm in CSR. Supported: ECDSA P-256, RSA
    2048" and leaves the store, with the serial file, index.json and
    certs/, exactly as it was. *)
Theorem SignCSR_key_algorithm ft rnd now d csrPEM csrPath days st csr :
  IsInitialized d st = true →
  decodedCSR csrPEM = Some csr →
  CheckSignature csr = None →
  let supported :=
    (∃ x y, csrPublicKey csr = ECDSAPublicKey P256 x y)
    ∨ (∃ n e, csrPublicKey csr = RSAPublicKey n e ∧ BitLen n = 2048) in
  (supported →
   (SignCSR ft rnd now d csrPEM csrPath days st).2
   ≠ Err "Error: unsupported key algorithm in CSR. Supported: ECDSA P-256, RSA 2048")
  ∧ (¬ supported →
     SignCSR ft rnd now d csrPEM csrPath days st
     = (st, Err "Error: unsupported key algorithm in CSR. Supported: ECDSA P-256, RSA 2048")).
Proof.
  intros Hinit Hcsr Hsig supported.
  change "Error: unsupported key algorithm in CSR. Supported: ECDSA P-256, RSA 2048"
    with errUnsupportedCSRKey.
  split.
  - intros Hsup%checkKeyAlgorithm_ok.
    destruct (SignCSR ft rnd now d csrPEM csrPath days st) as [st' r] eqn:Hrun.
    simpl. intros ->.
    apply SignCSR_inv in Hrun
      as [[_ [[Hn _]|[(_ & Hn & _)|[(_ & (? & ? & [e He]) & _)
                                    |(_ & (? & ? & ? & Hk) & _)]]]]
         |[(e & [= <-] & He & _)|(res & ? & ? & ? & ? & ? & [=] & _)]];
      simplify_eq; congruence.
  - intros Hsup.
    assert (Hkey : checkKeyAlgorithm (csrPublicKey csr) = Err errUnsupportedCSRKey).
    { apply checkKeyAlgorithm_err. by intros ?%checkKeyAlgorithm_ok. }
    unfold decodedCSR in Hcsr. unfold SignCSR.
    rewrite (bind_eq _ _ _ _ _ (gets_eq _ st)), Hinit. simpl negb. cbv iota.
    destruct (pem_Decode csrPEM) as [[typ der]|]; [|done].
    destruct (x509_ParseCertificateRequest der) as [csr'|]; [|done].
    injection Hcsr as ->. rewrite Hsig, Hkey. done.
Qed.

(** The outcomes of InitCA: a failure with index.json as before, or success
    on a directory that was not initialized, with the counters and the
    empty index committed and the files under certs/ untouched. *)
Lemma InitDataDir_files ft d st st' r :
  InitDataDir ft d st = (st', r) → files st' = files st.
Proof.
  unfold InitDataDir, wrapping, onErr, os_MkdirAll, fail.
  destruct (mkdirFault ft _); by intros [= <- <-].
Qed.

Lemma InitCA_inv ft rnd now d subject keyAlgo days st st' r :
  InitCA ft rnd now d subject keyAlgo days st = (st', r) →
  (isOk r = false
   ∧ files st' !! inDir d "index.json" = files st !! inDir d "index.json")
  ∨ (isOk r = true ∧ IsInitialized d st = false
     ∧ files st' !! inDir d "index.json" = Some ("[]" +:+ LF)
     ∧ files st' !! inDir d "serial" = Some (FormatSerial 2 +:+ LF)
     ∧ ∀ q, underCerts d q = true → files st' !! q = files st !! q).
Proof.
  intros H. unfold InitCA in H.
  rewrite (bind_eq _ _ _ _ _ (gets_eq _ st)) in H.
  destruct (IsInitialized d st) eqn:Hinit; cbv iota in H;
    [injection H as <- <-; by left|].
  pure_step H privKey HprivKey.
  pure_step H ski Hski.
  pure_step H certDER HcertDER.
  apply bind_inv in H as [(u & st0 & Hm & H)|(? & Hm & ->)];
    apply InitDataDir_files in Hm as Hf0; [|left; by rewrite Hf0].
  pure_step H keyDER HkeyDER.
  stage_step H Hf1 Hd1.
  stage_step H Hf2 Hd2.
  stage_step H Hf3 Hd3.
  stage_step H Hf4 Hd4.
  stage_step H Hf5 Hd5.
  cbn [commitAll] in H.
  apply bind_inv in H as [(u0 & st6 & Hc & H)|(? & Hc & ->)].
  2:{ commit_step Hc d1 Hs1 Hf6 Hd6. commit_step Hc d2 Hs2 Hf7 Hd7.
      commit_step Hc d3 Hs3 Hf8 Hd8. commit_step Hc d4 Hs4 Hf9 Hd9.
      commit_step Hc d5 Hs5 Hf10 Hd10. }
  commit_step Hc d1 Hs1 Hf6 Hd6. commit_step Hc d2 Hs2 Hf7 Hd7.
  commit_step Hc d3 Hs3 Hf8 Hd8. commit_step Hc d4 Hs4 Hf9 Hd9.
  commit_step Hc d5 Hs5 Hf10 Hd10.
  injection Hc as <-. injection H as <- <-.
  right. split; [done|]. split; [done|].
  rewrite ?Join2 in *.
  split; [|split].
  - rewrite Hf10, lookup_insert_eq. f_equal.
    revert Hs5. lookup_chain. rewrite lookup_insert_eq. congruence.
  - lookup_chain. rewrite lookup_insert_eq. f_equal.
    revert Hs3. lookup_chain. rewrite lookup_insert_eq. congruence.
  - intros q Hq. lookup_chain. done.
Qed.

Lemma tmp_ne (path : string) : path ≠ path +:+ ".tmp".
Proof.
  intros H. apply (f_equal (λ s, length (strings.bytesOf s))) in H. simpl in H.
  rewrite stringsFacts.bytesOf_app, length_app in H. simpl in H. lia.
Qed.

(** An atomic write: the .tmp file is gone afterwards, no file but the
    target changes, and the target holds the data or is as before; of the
    directories, one at the .tmp path may be removed by a failed write. *)
Lemma writeFileAtomic_outcome ft path data st :
  let st' := (writeFileAtomic ft path data st).1 in
  let r := (writeFileAtomic ft path data st).2 in
  dirsKept [path +:+ ".tmp"] st st'
  ∧ files st' !! (path +:+ ".tmp") = None
  ∧ (∀ q, q ≠ path → q ≠ path +:+ ".tmp" → files st' !! q = files st !! q)
  ∧ (r = Ok tt ∧ dirs st' = dirs st ∧ files st' !! path = Some data
     ∨ (∃ e, r = Err e) ∧ files st' !! path = files st !! path).
Proof.
  pose proof (tmp_ne path) as Hne.
  unfold writeFileAtomic, onErr, os_WriteFile, os_Rename, fail.
  unfold mbind, IO_bind, bind. simpl.
  destruct (writeFault ft _) as [wf|]; simpl.
  - match goal with |- context [os_Remove ?p ?s] =>
      destruct (os_Remove_inv p s) as (Hf & Hd & Hr);
      destruct (os_Remove p s) as [st1 r1] end.
    simpl in *. subst r1. simpl. rewrite Hf, lookup_delete_eq.
    split; [by destruct (wfLeft wf)|]. split; [done|]. split.
    + intros q _ Hq. rewrite lookup_delete_ne by done.
      destruct (wfLeft wf); simpl; [by rewrite lookup_insert_ne|done].
    + right. split; [by eauto|]. rewrite lookup_delete_ne by done.
      destruct (wfLeft wf); simpl; [by rewrite lookup_insert_ne|done].
  - destruct (renameFault ft _); simpl.
    + match goal with |- context [os_Remove ?p ?s] =>
        destruct (os_Remove_inv p s) as (Hf & Hd & Hr);
        destruct (os_Remove p s) as [st1 r1] end.
      simpl in *. subst r1. simpl. rewrite Hf, lookup_delete_eq.
      split; [done|]. split; [done|]. split.
      * intros q _ Hq. by rewrite lookup_delete_ne, lookup_insert_ne.
      * right. split; [by eauto|]. by rewrite lookup_delete_ne, lookup_insert_ne.
    + rewrite lookup_insert_eq. simpl. split; [by apply dirsKept_same|]. split.
      { by rewrite lookup_insert_ne, lookup_delete_eq. }
      split.
      * intros q Hq1 Hq2.
        by rewrite lookup_insert_ne, lookup_delete_ne, lookup_insert_ne.
      * left. by rewrite lookup_insert_eq.
Qed.

(** The two outcomes of an atomic write: the file holds the data, or the
    write failed; either way no file but the target and its .tmp changes. *)
Lemma writeFileAtomic_inv ft path data st st' r :
  writeFileAtomic ft path data st = (st', r) →
  (∀ q, q ≠ path → q ≠ path +:+ ".tmp" → files st' !! q = files st !! q)
  ∧ (r = Ok tt ∧ files st' !! path = Some data
     ∨ isOk r = false ∧ files st' !! path = files st !! path).
Proof.
  intros H. pose proof (writeFileAtomic_outcome ft path data st) as Hw.
  cbv zeta in Hw. rewrite H in Hw. simpl in Hw.
  destruct Hw as (_ & _ & Hrest & [(-> & _ & Hp)|([e ->] & Hp)]).
  - split; [done|]. by left.
  - split; [done|]. by right.
Qed.

(** The outcomes of RevokeCert: a failure with index.json as before, or
    success with the entry found rewritten in place. *)
Lemma RevokeCert_inv ft now d serialHex reason st st' r :
  RevokeCert ft now d serialHex reason st = (st', r) →
  (isOk r = false
   ∧ files st' !! inDir d "index.json" = files st !! inDir d "index.json")
  ∨ (r = Ok tt
     ∧ ∃ index found entry data,
         (LoadIndex d st).2 = Ok index
         ∧ findSerial index serialHex = Some (found, entry)
         ∧ Status entry ≠ "revoked"
         ∧ json_MarshalIndent
             (<[found := revoked entry (time_Format now) reason]> index) = Ok data
         ∧ files st' !! inDir d "index.json" = Some (data +:+ LF)).
Proof.
  intros H. unfold RevokeCert in H.
  rewrite (bind_eq _ _ _ _ _ (gets_eq _ st)) in H.
  destruct (IsInitialized d st) eqn:Hinit; cbv iota in H; simpl negb in H;
    cbv iota in H; [|injection H as <- <-; by left].
  pure_step H index Hindex.
  destruct (findSerial index serialHex) as [[found entry]|] eqn:Hfound;
    [|injection H as <- <-; by left].
  case_bool_decide as Hst; [injection H as <- <-; by left|].
  apply wrapping_inv in H as [(u & H & ->)|(e & H & ->)];
    unfold SaveIndex in H.
  - pure_step H data Hdata.
    apply writeFileAtomic_inv in H as [_ [[_ Hf]|[[=] _]]].
    right. destruct u. split; [done|]. by exists index, found, entry, data.
  - left. split; [done|].
    apply bind_inv in H as [(data & st1 & Hm & H)|(? & Hm & ?)].
    + eapply pure_step_inv in Hm as [-> _]; [|done].
      by apply writeFileAtomic_inv in H as [_ [[[=] _]|[_ Hf]]].
    + by apply wrapping_inv in Hm as [(? & [= <- _] & _)|(? & [= <- _] & _)].
Qed.

(** GenerateCRL leaves index.json as it finds it, whatever its outcome. *)
Lemma GenerateCRL_index ft rnd now d hours st st' r :
  GenerateCRL ft rnd now d hours st = (st', r) →
  files st' !! inDir d "index.json" = files st !! inDir d "index.json".
Proof.
  intros H. unfold GenerateCRL in H.
  rewrite (bind_eq _ _ _ _ _ (gets_eq _ st)) in H.
  destruct (IsInitialized d st) eqn:Hinit; cbv iota in H; simpl negb in H;
    cbv iota in H; [|by injection H as <- <-].
  pure_step H caKey HcaKey.
  pure_step H caCert HcaCert.
  pure_step H index Hindex.
  pure_step H crlNum HcrlNum.
  apply bind_inv in H as [(revokedEntries & st0 & Hm & H)|(? & Hm & ->)];
    apply lift_inv in Hm as [-> Hrev]; [|done].
  pure_step H akiValue Haki.
  destruct (isSigner caKey); simpl negb in H; cbv iota in H;
    [|by injection H as <- <-].
  pure_step H crlDER HcrlDER.
  stage_step H Hf1 Hd1.
  stage_step H Hf2 Hd2.
  cbn [commitAll] in H.
  apply bind_inv in H as [(u0 & st3 & Hc & H)|(? & Hc & ->)].
  2:{ commit_step Hc d1 Hs1 Hf3 Hd3. commit_step Hc d2 Hs2 Hf4 Hd4. }
  commit_step Hc d1 Hs1 Hf3 Hd3. commit_step Hc d2 Hs2 Hf4 Hd4.
  injection Hc as <-. injection H as <- <-.
  lookup_chain. done.
Qed.

Lemma ListCerts_store now d st : (ListCerts now d st).1 = st.
Proof.
  unfold ListCerts. rewrite (bind_eq _ _ _ _ _ (gets_eq _ st)).
  destruct (IsInitialized d st); simpl; [|done].
  apply bind_store; [apply wrapping_store, LoadIndex_store|done].
Qed.

Lemma VerifyCert_store now d certPEM certPath st :
  (VerifyCert now d certPEM certPath st).1 = st.
Proof.
  unfold VerifyCert. rewrite (bind_eq _ _ _ _ _ (gets_eq _ st)).
  destruct (IsInitialized d st); simpl; [|done].
  destruct (pem_Decode certPEM) as [[typ der]|]; [|done].
  apply bind_store; [by apply wrapping_store|]. intros cert.
  apply bind_store; [apply wrapping_store, LoadCertificate_store|]. intros caCert.
  destruct (CheckSignatureFrom cert caCert); [done|].
  rewrite (bind_eq _ _ _ _ _ (gets_eq _ st)).
  apply bind_store; [|by intros []].
  destruct (statOk _ st); [|done].
  apply bind_store; [apply wrapping_store, LoadCRL_store|].
  intros crl. by destruct (findRevoked _ _).
Qed.

End Outcomes.

(** ** The stage and commit protocol of InitCA *)

Section InitProtocol.
Context `{L : GoLib}.
Import pathFacts stringsFacts.

Lemma diverge_prefix a b x y :
  diverge a b = true → String.prefix (a +:+ x) (b +:+ y) = false.
Proof.
  revert b. induction a as [|c a IH]; intros [|c' b]; simpl; try done.
  destruct (ascii_dec c c'); [apply IH|done].
Qed.

Lemma diverge_prefix0 a b y :
  diverge a b = true → String.prefix a (b +:+ y) = false.
Proof. intros H. rewrite <- (append_nil_r a). by apply diverge_prefix. Qed.

Lemma dirPrefixes_self path : path ∈ dirPrefixes path.
Proof.
  induction path as [|c path IH]; simpl; [left|].
  apply elem_of_app. right. apply list_elem_of_fmap. eauto.
Qed.

Lemma InitDataDir_inv ft d st st' r :
  InitDataDir ft d st = (st', r) →
  files st' = files st ∧ dirs st ⊆ dirs st'
  ∧ (r = Ok tt ∧ inDir d "certs" ∈ dirs st'
     ∧ trace st' = trace st ++ [SysMkdirAll (inDir d "certs")]
     ∨ ∃ e, r = Err (wrapErr "failed to create certs directory" e)).
Proof.
  unfold InitDataDir, wrapping, onErr, os_MkdirAll, fail. rewrite Join2.
  destruct (mkdirFault ft _); intros [= <- <-]; simpl.
  - split; [done|]. split; [done|]. right. eauto.
  - split; [done|]. split; [set_solver|]. left. split; [done|]. split; [|done].
    apply elem_of_union_r, elem_of_list_to_set, dirPrefixes_self.
Qed.

Lemma stage_trace ft tmpPaths tmpPath data what st st' :
  stage ft tmpPaths tmpPath data what st = (st', Ok tt) →
  trace st' = trace st ++ [SysWriteFile tmpPath].
Proof.
  unfold stage, onErr, os_WriteFile. destruct (writeFault ft tmpPath); simpl.
  - unfold mbind, IO_bind, bind, fail.
    by destruct (cleanupTempFiles _ _) as [? []].
  - by intros [= <-].
Qed.

Lemma commitOne_trace ft tmpPaths src dst st st' :
  commitOne ft tmpPaths (src, dst) st = (st', Ok tt) →
  trace st' = trace st ++ [SysRename src dst].
Proof.
  unfold commitOne, onErr, os_Rename. simpl fst. simpl snd.
  assert (Hfail : ∀ e st0,
    ((cleanupTempFiles tmpPaths;; fail e) : IO unit) st0 ≠ (st', Ok tt)).
  { intros e st0. unfold mbind, IO_bind, bind, fail.
    by destruct (cleanupTempFiles _ _) as [? []]. }
  destruct (renameFault ft src); [by intros ?%Hfail|]. simpl.
  destruct (files st !! src); [by intros [= <-]|by intros ?%Hfail].
Qed.

End InitProtocol.

(** The conclusion about a failed staging write of InitCA, from the facts
    the earlier steps have left. *)
Ltac dirs_chain :=
  repeat match goal with H : dirs ?s = _ |- context [dirs ?s] => rewrite H end.

Ltac stage_failed :=
  match goal with
  | Hk : dirsKept _ _ _ |- _ => destruct Hk as [_ Hk];
      split; [apply Hk; [dirs_chain; assumption|path_notin]|];
      split; [let p := fresh "p" in
              let Hp := fresh "Hp" in
              let Hnp := fresh "Hnp" in
              intros p Hp Hnp; apply Hk; [dirs_chain|exact Hnp];
              match goal with Hs : dirs _ ⊆ dirs _ |- _ => by apply Hs end|]
  end;
  split; [match goal with
          | H : ∀ q, q ∈ _ → files ?s !! q = None |- _ => exact H
          end|];
  let q := fresh "q" in
  let Hq := fresh "Hq" in
  intros q Hq;
  match goal with
  | H : ∀ q, q ∉ _ → q ≠ _ → files ?s !! q = _ |- _ =>
      rewrite H; [|exact Hq|intros ->; apply Hq; by repeat constructor]
  end;
  repeat match goal with
    | H : files ?s = _ |- context [files ?s] => rewrite H
    | |- context [<[_ := _]> _ !! _] =>
        rewrite lookup_insert_ne by (intros <-; apply Hq; by repeat constructor)
    end;
  reflexivity.

(** A step of a run that ends well: the step ended well too. *)
Tactic Notation "ok_step" hyp(H) ident(a) ident(Hm) :=
  let st1 := fresh "st" in
  apply bind_inv in H as [(a & st1 & Hm & H)|(? & _ & [=])].

(** Refutes that the error text of one commit step starts with the text of
    the failure of another. *)
Ltac commit_text_absurd :=
  exfalso;
  match goal with
  | H : String.prefix _ _ = true |- _ =>
      rewrite ?pathFacts.Join2 in H; rewrite pathFacts.prefix_append in H;
      rewrite !pathFacts.inDir_base in H by normal_name;
      rewrite stringsFacts.append_assoc, pathFacts.prefix_append in H;
      rewrite diverge_prefix0 in H by reflexivity;
      discriminate H
  end.

(** The conclusion about a run of InitCA that stops at a rename after those
    of ca.key and ca.crt. *)
Ltac markers_present d st' :=
  let Hkey := fresh "Hkey" in
  let Hcrt := fresh "Hcrt" in
  assert (Hkey : is_Some (files st' !! inDir d "ca.key"))
    by (lookup_chain; rewrite lookup_insert_eq; eauto);
  assert (Hcrt : is_Some (files st' !! inDir d "ca.crt"))
    by (lookup_chain; rewrite lookup_insert_eq; eauto);
  unfold IsInitialized, statOk;
  rewrite !pathFacts.Join2, (bool_decide_eq_true_2 _ Hkey),
    (bool_decide_eq_true_2 _ Hcrt);
  reflexivity.

Ltac commit_failed d st' :=
  repeat match goal with
    | H : _ ∈ _ :: _ |- _ => apply elem_of_cons in H as [->|H]
    | H : _ ∈ [] |- _ => by apply elem_of_nil in H
    end;
  first [ commit_text_absurd
        | rewrite ?pathFacts.Join2 in *;
          split; [markers_present d st' | lookup_chain; done] ].

Section InitOutcomes.
Context `{L : GoLib}.
Import pathFacts stringsFacts.

(** C8, as the code has it. When a stage-sub-phase write of InitCA fails
    (the error texts that start with "failed to write"), the cleanup removes
    the five .tmp paths and nothing else: every other file, under a final
    name or not, is as before, and so is every directory that is none of
    the five .tmp paths; the certs/ subdirectory is still there after the
    cleanup, whether or not this attempt created it. *)
Theorem InitCA_cleanup_keeps_certs ft rnd now d subject keyAlgo days st st' e :
  InitCA ft rnd now d subject keyAlgo days st = (st', Err e) →
  String.prefix "failed to write" e = true →
  inDir d "certs" ∈ dirs st'
  ∧ (∀ p, p ∈ dirs st → p ∉ initTmpPaths d → p ∈ dirs st')
  ∧ (∀ q, q ∈ initTmpPaths d → files st' !! q = None)
  ∧ (∀ q, q ∉ initTmpPaths d → files st' !! q = files st !! q).
Proof.
  intros H Hpre. unfold InitCA in H.
  rewrite (bind_eq _ _ _ _ _ (gets_eq _ st)) in H.
  destruct (IsInitialized d st) eqn:Hinit; cbv iota in H.
  { injection H as <- <-. by rewrite diverge_prefix0 in Hpre. }
  pure_step H privKey HprivKey.
  pure_step H ski Hski.
  pure_step H certDER HcertDER.
  apply bind_inv in H as [(u & st0 & Hm & H)|(? & Hm & ?)];
    apply InitDataDir_inv in Hm as (Hf0 & Hsub & [([=] & Hin & _)|[? ?]]);
    simplify_eq.
  pure_step H keyDER HkeyDER.
  stage_step H Hf1 Hd1; try stage_failed.
  stage_step H Hf2 Hd2; try stage_failed.
  stage_step H Hf3 Hd3; try stage_failed.
  stage_step H Hf4 Hd4; try stage_failed.
  stage_step H Hf5 Hd5; try stage_failed.
  cbn [commitAll] in H.
  apply bind_inv in H as [(u0 & st6 & Hc & H)|(? & Hc & ?)]; [done|].
  simplify_eq.
  commit_step Hc d1 Hs1 Hf6 Hd6. commit_step Hc d2 Hs2 Hf7 Hd7.
  commit_step Hc d3 Hs3 Hf8 Hd8. commit_step Hc d4 Hs4 Hf9 Hd9.
  commit_step Hc d5 Hs5 Hf10 Hd10.
Qed.

Lemma InitCA_trace ft rnd now d subject keyAlgo days st st' res :
  InitCA ft rnd now d subject keyAlgo days st = (st', Ok res) →
  trace st' = trace st ++ initCalls d.
Proof.
  intros H. unfold InitCA in H.
  rewrite (bind_eq _ _ _ _ _ (gets_eq _ st)) in H.
  destruct (IsInitialized d st) eqn:Hinit; cbv iota in H; [done|].
  ok_step H privKey Hm; eapply pure_step_inv in Hm as [-> _]; [|done].
  ok_step H ski Hm; eapply pure_step_inv in Hm as [-> _]; [|done].
  ok_step H certDER Hm; eapply pure_step_inv in Hm as [-> _]; [|done].
  ok_step H u Hm.
  apply InitDataDir_inv in Hm as (_ & _ & [(_ & _ & Ht0)|[? [=]]]).
  ok_step H keyDER Hm; eapply pure_step_inv in Hm as [-> _]; [|done].
  ok_step H u1 Ht1; destruct u1; apply stage_trace in Ht1.
  ok_step H u2 Ht2; destruct u2; apply stage_trace in Ht2.
  ok_step H u3 Ht3; destruct u3; apply stage_trace in Ht3.
  ok_step H u4 Ht4; destruct u4; apply stage_trace in Ht4.
  ok_step H u5 Ht5; destruct u5; apply stage_trace in Ht5.
  cbn [commitAll] in H. ok_step H u6 Hc.
  ok_step Hc u7 Ht6; destruct u7; apply commitOne_trace in Ht6.
  ok_step Hc u8 Ht7; destruct u8; apply commitOne_trace in Ht7.
  ok_step Hc u9 Ht8; destruct u9; apply commitOne_trace in Ht8.
  ok_step Hc u10 Ht9; destruct u10; apply commitOne_trace in Ht9.
  ok_step Hc u11 Ht10; destruct u11; apply commitOne_trace in Ht10.
  injection Hc as <-. injection H as <-.
  rewrite Ht10, Ht9, Ht8, Ht7, Ht6, Ht5, Ht4, Ht3, Ht2, Ht1, Ht0.
  rewrite <- !List.app_assoc. done.
Qed.

(** C1, as the code has it. A successful InitCA makes its calls in the
    order of [initCalls]: the commit sub-phase renames ca.key, then ca.crt,
    then serial, crlnumber and index.json, so the two marker files are the
    first to appear, not the last. When the run stops at the rename of
    serial, crlnumber or index.json, IsInitialized holds of the directory
    although that file is as it was before the run. *)
Theorem InitCA_commits_markers_first ft rnd now d subject keyAlgo days st st' r :
  InitCA ft rnd now d subject keyAlgo days st = (st', r) →
  (isOk r = true → trace st' = trace st ++ initCalls d)
  ∧ (∀ e dst,
       r = Err e →
       dst ∈ ["serial"; "crlnumber"; "index.json"] →
       String.prefix ("failed to commit " +:+ inDir d dst) e = true →
       IsInitialized d st' = true
       ∧ files st' !! inDir d dst = files st !! inDir d dst).
Proof.
  intros H. split.
  { intros Hok. destruct r as [res|]; [by eapply InitCA_trace|done]. }
  intros e dst -> Hdst Hpre. unfold InitCA in H.
  rewrite (bind_eq _ _ _ _ _ (gets_eq _ st)) in H.
  destruct (IsInitialized d st) eqn:Hinit; cbv iota in H.
  { injection H as <- <-. by rewrite diverge_prefix in Hpre. }
  pure_step H privKey HprivKey.
  pure_step H ski Hski.
  pure_step H certDER HcertDER.
  apply bind_inv in H as [(u & st0 & Hm & H)|(? & Hm & ?)];
    apply InitDataDir_inv in Hm as (Hf0 & _ & [([=] & _ & _)|[? ?]]);
    simplify_eq.
  pure_step H keyDER HkeyDER.
  stage_step H Hf1 Hd1.
  stage_step H Hf2 Hd2.
  stage_step H Hf3 Hd3.
  stage_step H Hf4 Hd4.
  stage_step H Hf5 Hd5.
  cbn [commitAll] in H.
  apply bind_inv in H as [(u0 & st6 & Hc & H)|(? & Hc & ?)]; [done|].
  simplify_eq.
  commit_step Hc d1 Hs1 Hf6 Hd6; try commit_failed d st'.
  commit_step Hc d2 Hs2 Hf7 Hd7; try commit_failed d st'.
  commit_step Hc d3 Hs3 Hf8 Hd8; try commit_failed d st'.
  commit_step Hc d4 Hs4 Hf9 Hd9; try commit_failed d st'.
  commit_step Hc d5 Hs5 Hf10 Hd10; try commit_failed d st'.
Qed.

End InitOutcomes.

(** ** What a successful SignCSR has done *)

(** The data of a committed file, from the lookup of its staged source. *)
Ltac staged_data :=
  match goal with
  | Hs : files _ !! _ = Some ?d |- Some ?d = Some _ =>
      rewrite <- Hs; lookup_chain; by rewrite lookup_insert_eq
  end.

Section SignOutcome.
Context `{L : GoLib}.
Import pathFacts.

(** What a successful SignCSR has read, built and written. *)
Lemma SignCSR_ok ft rnd now d csrPEM csrPath days st st' res :
  SignCSR ft rnd now d csrPEM csrPath days st = (st', Ok res) →
  ∃ csr caKey caCert v ski certDER index data,
    IsInitialized d st = true
    ∧ decodedCSR csrPEM = Some csr
    ∧ CheckSignature csr = None
    ∧ checkKeyAlgorithm (csrPublicKey csr) = Ok tt
    ∧ (LoadPrivateKey (inDir d "ca.key") st).2 = Ok caKey
    ∧ (LoadCertificate (inDir d "ca.crt") st).2 = Ok caCert
    ∧ (ReadCounter (inDir d "serial") st).2 = Ok v
    ∧ computeSKI (csrPublicKey csr) = Ok ski
    ∧ x509_CreateCertificate rnd
        (mkCertificate v (csrSubject csr) emptyName now
           (now + durationOf (wrap64 (days * 24)) hourNs)
           (if isRSA (csrPublicKey csr)
            then Z.lor KeyUsageDigitalSignature KeyUsageKeyEncipherment
            else KeyUsageDigitalSignature)
           true false ski (certSubjectKeyId caCert) (csrDNSNames csr)
           (csrIPAddresses csr) (csrEmailAddresses csr) (sigAlgorithm caKey)
           NilPublicKey)
        caCert (csrPublicKey csr) caKey = Ok certDER
    ∧ (LoadIndex d st).2 = Ok index
    ∧ json_MarshalIndent
        (index ++ [mkIndexEntry (FormatSerial v) (FormatDN (csrSubject csr))
                     (time_Format now)
                     (time_Format (now + durationOf (wrap64 (days * 24)) hourNs))
                     "active" "" ""]) = Ok data
    ∧ res = mkSignResult (FormatSerial v) (FormatDN (csrSubject csr))
              (now + durationOf (wrap64 (days * 24)) hourNs)
              (inDir d (certName (FormatSerial v)))
    ∧ files st' !! inDir d (certName (FormatSerial v))
      = Some (pem_EncodeToMemory "CERTIFICATE" certDER)
    ∧ files st' !! inDir d "index.json" = Some (data +:+ LF)
    ∧ files st' !! inDir d "serial" = Some (FormatSerial (wrap64 (v + 1)) +:+ LF).
Proof.
  intros H. unfold SignCSR in H.
  rewrite (bind_eq _ _ _ _ _ (gets_eq _ st)) in H.
  destruct (IsInitialized d st) eqn:Hinit; simpl in H; [|done].
  unfold decodedCSR.
  destruct (pem_Decode csrPEM) as [[typ der]|]; [|done].
  destruct (x509_ParseCertificateRequest der) as [csr|e0]; [|done].
  destruct (CheckSignature csr) as [e0|] eqn:Hsig; [done|].
  ok_step H u Hm. apply lift_inv in Hm as [-> Halg]. destruct u.
  ok_step H caKey HcaKey.
  eapply pure_step_inv in HcaKey as [-> [(? & [= <-] & HcaKey)|(? & [=])]];
    [|by auto with readonly].
  ok_step H caCert HcaCert.
  eapply pure_step_inv in HcaCert as [-> [(? & [= <-] & HcaCert)|(? & [=])]];
    [|by auto with readonly].
  ok_step H v Hv.
  eapply pure_step_inv in Hv as [-> [(? & [= <-] & Hv)|(? & [=])]];
    [|by auto with readonly].
  ok_step H ski Hski.
  eapply pure_step_inv in Hski as [-> [(? & [= <-] & Hski)|(? & [=])]]; [|done].
  ok_step H certDER Hder.
  eapply pure_step_inv in Hder as [-> [(? & [= <-] & Hder)|(? & [=])]]; [|done].
  ok_step H index Hindex.
  eapply pure_step_inv in Hindex as [-> [(? & [= <-] & Hindex)|(? & [=])]];
    [|by auto with readonly].
  ok_step H data Hdata.
  eapply pure_step_inv in Hdata as [-> [(? & [= <-] & Hdata)|(? & [=])]]; [|done].
  ok_step H u1 Hs1. apply stage_inv in Hs1 as [(_ & _ & Hf1 & _)|((? & [=]) & _)].
  ok_step H u2 Hs2. apply stage_inv in Hs2 as [(_ & _ & Hf2 & _)|((? & [=]) & _)].
  ok_step H u3 Hs3. apply stage_inv in Hs3 as [(_ & _ & Hf3 & _)|((? & [=]) & _)].
  cbn [commitAll] in H. ok_step H u4 Hc.
  ok_step Hc v1 Hc1.
  apply commitOne_inv in Hc1 as [(_ & _ & _ & d1 & Hsrc1 & Hf4)|((? & [=]) & _)].
  ok_step Hc v2 Hc2.
  apply commitOne_inv in Hc2 as [(_ & _ & _ & d2 & Hsrc2 & Hf5)|((? & [=]) & _)].
  ok_step Hc v3 Hc3.
  apply commitOne_inv in Hc3 as [(_ & _ & _ & d3 & Hsrc3 & Hf6)|((? & [=]) & _)].
  injection Hc as <-. injection H as <- <-.
  rewrite ?Join2, ?Join_cert in *.
  assert (Some d1 = Some (FormatSerial (wrap64 (v + 1)) +:+ LF)) as [= ->]
    by staged_data.
  assert (Some d2 = Some (pem_EncodeToMemory "CERTIFICATE" certDER)) as [= ->]
    by staged_data.
  assert (Some d3 = Some (data +:+ LF)) as [= ->] by staged_data.
  exists csr, caKey, caCert, v, ski, certDER, index, data.
  split_and!; try done.
  - lookup_chain. by rewrite lookup_insert_eq.
  - lookup_chain. by rewrite lookup_insert_eq.
  - lookup_chain. by rewrite lookup_insert_eq.
Qed.

End SignOutcome.

(** ** Histories of operations *)

Section Histories.
Context `{L : GoLib} {laws : GoLibLaws L}.
Import pathFacts.

Lemma LoadIndex_inv d st index :
  (LoadIndex d st).2 = Ok index →
  ∃ data, files st !! inDir d "index.json" = Some data
          ∧ json_Unmarshal data = Ok index.
Proof.
  unfold LoadIndex, wrapping, onErr, os_ReadFile, lift, fail.
  unfold mbind, IO_bind, bind. rewrite Join2.
  destruct (files st !! inDir d "index.json") as [data|]; simpl.
  - destruct (json_Unmarshal data) eqn:Hj; simpl; [|done].
    intros [= <-]. eauto.
  - by case_bool_decide.
Qed.

Lemma LoadIndex_file d st data index :
  files st !! inDir d "index.json" = Some data →
  json_Unmarshal data = Ok index →
  (LoadIndex d st).2 = Ok index.
Proof.
  intros Hf Hj.
  unfold LoadIndex, wrapping, onErr, os_ReadFile, lift, fail.
  unfold mbind, IO_bind, bind. rewrite Join2, Hf. simpl. by rewrite Hj.
Qed.

(** The entries LoadIndex returns hold valid UTF-8, and an index that was
    written loads with its texts coerced to valid UTF-8. *)
Lemma LoadIndex_valid d st index :
  (LoadIndex d st).2 = Ok index → Forall (λ e, jsonEntry e = e) index.
Proof using laws.
  intros (data & _ & Hj)%LoadIndex_inv. by eapply json_Unmarshal_valid.
Qed.

Lemma jsonEntry_fixed index :
  Forall (λ e, jsonEntry e = e) index → jsonEntry <$> index = index.
Proof.
  induction 1 as [|e index He _ IH]; [done|]. rewrite fmap_cons. by f_equal.
Qed.

Lemma LoadIndex_written d st entries data :
  files st !! inDir d "index.json" = Some (data +:+ LF) →
  json_MarshalIndent entries = Ok data →
  (LoadIndex d st).2 = Ok (jsonEntry <$> entries).
Proof using laws.
  intros Hf Hdata. eapply LoadIndex_file; [exact Hf|].
  by apply json_Unmarshal_Marshal.
Qed.

(** LoadIndex reads nothing but index.json. *)
Lemma LoadIndex_same d st st' index :
  files st' !! inDir d "index.json" = files st !! inDir d "index.json" →
  (LoadIndex d st).2 = Ok index → (LoadIndex d st').2 = Ok index.
Proof.
  intros Hf (data & Hd & Hj)%LoadIndex_inv.
  eapply LoadIndex_file; [|done]. by rewrite Hf.
Qed.

(** The entry at position [i] of the index, once revoked, is found at
    position [i] unchanged after every command; only an InitCA that runs on
    a directory without its CA key or certificate starts from an empty
    index. *)
Lemma revoked_entry_kept ft now d c st index i entry :
  (LoadIndex d st).2 = Ok index →
  index !! i = Some entry →
  Status entry = "revoked" →
  ∃ index', (LoadIndex d (run ft now d c st).1).2 = Ok index'
            ∧ (index' !! i = Some entry
               ∨ IsInitialized d st = false ∧ index' = []).
Proof using laws.
  intros Hidx Hi Hst.
  pose proof (LoadIndex_valid _ _ _ Hidx) as Hvalid.
  rewrite Forall_lookup in Hvalid.
  assert (Hsame : ∀ st', files st' !! inDir d "index.json"
                         = files st !! inDir d "index.json" →
            ∃ index', (LoadIndex d st').2 = Ok index'
                      ∧ (index' !! i = Some entry
                         ∨ IsInitialized d st = false ∧ index' = [])).
  { intros st' Hf. exists index. split; [by eapply LoadIndex_same|by left]. }
  destruct c as [rnd subject keyAlgo days|rnd csrPEM csrPath days
                |serialHex reason|rnd hours| |certPEM certPath]; simpl.
  - destruct (InitCA _ _ _ _ _ _ _ st) as [st' r] eqn:Hrun. simpl.
    apply InitCA_inv in Hrun as [[_ Hf]|(_ & Hinit & Hf & _)]; [by apply Hsame|].
    exists []. split; [|by right].
    eapply LoadIndex_file; [exact Hf|apply json_Unmarshal_empty].
  - destruct (SignCSR _ _ _ _ _ _ _ st) as [st' r] eqn:Hrun. simpl.
    apply SignCSR_inv in Hrun
      as [[-> _]|[(e & _ & _ & _ & Hf)
                 |(res & v & index0 & new & data & pem & _ & _ & Hidx0 & Hdata
                   & _ & _ & _ & _ & _ & Hf)]]; [by apply Hsame..|].
    rewrite Hidx in Hidx0. injection Hidx0 as <-.
    eexists. split.
    + eapply LoadIndex_written; [|exact Hdata]. by rewrite Hf, decide_True.
    + left. rewrite list_lookup_fmap, lookup_app_l_Some with (x := entry) by done.
      simpl. f_equal. exact (Hvalid i entry Hi).
  - destruct (RevokeCert _ _ _ _ _ st) as [st' r] eqn:Hrun. simpl.
    apply RevokeCert_inv in Hrun
      as [[_ Hf]|(_ & index0 & found & old & data & Hidx0 & Hfound & Hold
                  & Hdata & Hf)]; [by apply Hsame|].
    rewrite Hidx in Hidx0. injection Hidx0 as <-.
    eexists. split.
    + eapply LoadIndex_written; [exact Hf|exact Hdata].
    + left. rewrite list_lookup_fmap, list_lookup_insert_ne, Hi.
      * simpl. f_equal. exact (Hvalid i entry Hi).
      * intros ->. apply findSerial_Some in Hfound as [Hfound _]. congruence.
  - destruct (GenerateCRL _ _ _ _ _ st) as [st' r] eqn:Hrun. simpl.
    apply Hsame. by eapply GenerateCRL_index.
  - pose proof (ListCerts_store now d st) as Hro.
    destruct (ListCerts now d st) as [st' r]. simpl in *. subst st'. by apply Hsame.
  - pose proof (VerifyCert_store now d certPEM certPath st) as Hro.
    destruct (VerifyCert _ _ _ _ st) as [st' r]. simpl in *. subst st'.
    by apply Hsame.
Qed.

Lemma wrap64_id z : inInt64 z → wrap64 z = z.
Proof.
  unfold inInt64, minInt64, maxInt64, wrap64. intros Hz.
  rewrite Z.mod_small; lia.
Qed.

(** R2 on files: ReadCounter reads back what WriteCounter writes. *)
Lemma ReadCounter_line path st v :
  files st !! path = Some (FormatSerial v +:+ LF) →
  0 ≤ v ≤ maxInt64 →
  (ReadCounter path st).2 = Ok v.
Proof.
  intros Hf Hv. unfold ReadCounter, onErr, os_ReadFile.
  unfold mbind, IO_bind, bind. rewrite Hf. simpl.
  destruct (counterFacts.Sprintf02x_digits v) as [Hdig Hne]; [lia|].
  unfold FormatSerial. rewrite counterFacts.TrimSpace_line; [|
    eapply Forall_impl; [|exact Hdig]; intros c Hc;
    by apply counterFacts.hexDigit_plain in Hc as [? _] | done].
  by rewrite counterFacts.ParseInt16_Sprintf02x.
Qed.

Lemma issuedPaths_S d n :
  issuedPaths d (S n)
  = issuedPaths d n ++ [inDir d (certName (FormatSerial (2 + Z.of_nat n)))].
Proof. unfold issuedPaths. by rewrite seqZ_S, fmap_app. Qed.

Lemma issuedPaths_not_tmp d n v :
  inDir d (certName (FormatSerial v)) +:+ ".tmp" ∉ issuedPaths d n.
Proof.
  unfold issuedPaths. intros (k & Hk & _)%list_elem_of_fmap.
  rewrite inDir_tmp in Hk by normal_name.
  apply inDir_inj in Hk; [|normal_name..]. symmetry in Hk.
  by apply certName_not_tmp in Hk.
Qed.

(** One successful SignCSR takes a directory that has issued [n]
    certificates to one that has issued [n + 1], and the certificate it
    issues carries the serial 2 + n. *)
Lemma SignCSR_issued ft rnd now d csrPEM csrPath days n st st' res :
  issued d n st →
  2 + Z.of_nat n < maxInt64 →
  SignCSR ft rnd now d csrPEM csrPath days st = (st', Ok res) →
  issued d (S n) st'
  ∧ srSerial res = FormatSerial (2 + Z.of_nat n)
  ∧ srCertPath res = inDir d (certName (FormatSerial (2 + Z.of_nat n))).
Proof using laws.
  intros (Hserial & (index & Hidx & Hserials) & Hcerts) Hn Hrun.
  apply SignCSR_inv in Hrun
    as [[_ [[_ [=]]|[(_ & _ & [=])|[(_ & _ & [=])|(_ & _ & [=])]]]]
       |[(e & [=] & _)
        |(res' & v & index0 & new & data & pem & [= <-] & Hv & Hidx0 & Hdata
          & Hnew & _ & Hres1 & Hres2 & _ & Hf)]].
  rewrite (ReadCounter_line _ _ _ Hserial) in Hv by lia. injection Hv as <-.
  rewrite Hidx in Hidx0. injection Hidx0 as <-.
  split; [|done]. split; [|split].
  - rewrite Hf, decide_False, decide_False, decide_True by (done || path_ne).
    rewrite wrap64_id by (unfold inInt64, minInt64; lia).
    do 3 f_equal. lia.
  - eexists. split.
    + eapply LoadIndex_written; [|exact Hdata]. by rewrite Hf, decide_True.
    + rewrite fmap_app, (jsonEntry_fixed index) by by eapply LoadIndex_valid.
      rewrite fmap_app, Hserials, seqZ_S, fmap_app. simpl. rewrite Hnew.
      by rewrite utf8Facts.coerce_ascii by apply serialFacts.FormatSerial_ascii.
  - intros q Hq. rewrite issuedPaths_S, elem_of_app, list_elem_of_singleton, Hf.
    rewrite decide_False by path_ne.
    destruct (decide (q = inDir d (certName (FormatSerial (2 + Z.of_nat n)))))
      as [->|Hne]; [split; [by right|by eauto]|].
    rewrite decide_False by path_ne.
    case_decide as Htmp.
    + split; [by intros [? [=]]|]. intros [Hin|?]; [|done]. exfalso.
      apply elem_of_cons in Htmp as [->|Htmp];
        [by rewrite inDir_tmp, underCerts_inDir in Hq by normal_name|].
      apply elem_of_cons in Htmp as [->|Htmp]; [by apply issuedPaths_not_tmp in Hin|].
      apply elem_of_cons in Htmp as [->|Htmp];
        [by rewrite inDir_tmp, underCerts_inDir in Hq by normal_name|].
      by apply elem_of_nil in Htmp.
    + rewrite (Hcerts q Hq). split; [by left|]. by intros [?|?].
Qed.

Lemma signAll_issued d reqs n st st' :
  issued d n st →
  2 + Z.of_nat n + Z.of_nat (length reqs) ≤ maxInt64 →
  signAll d reqs st = Some st' →
  issued d (n + length reqs) st'.
Proof using laws.
  revert n st. induction reqs as [|req reqs IH]; intros n st Hinv Hn; simpl.
  - intros [= <-]. by rewrite Nat.add_0_r.
  - destruct (SignCSR _ _ _ _ _ _ _ st) as [st1 [res|e]] eqn:Hrun; [|done].
    simpl in Hn. apply SignCSR_issued with (n := n) in Hrun as [Hinv1 _];
      [|done|lia].
    intros Hrest. apply (IH (S n)) in Hrest; [|done|lia].
    by replace (n + S (length reqs))%nat with (S n + length reqs)%nat by lia.
Qed.

Lemma issuedPaths_NoDup d n :
  2 + Z.of_nat n ≤ maxInt64 → NoDup (issuedPaths d n).
Proof.
  intros Hn. unfold issuedPaths. apply NoDup_fmap_2_strong; [|apply NoDup_seqZ].
  intros a b Ha%elem_of_seqZ Hb%elem_of_seqZ Heq.
  apply inDir_inj in Heq; [|normal_name..]. apply certName_inj in Heq.
  apply counterFacts.Sprintf02x_inj in Heq; [done|lia..].
Qed.

Lemma issued_certFiles d n st :
  issued d n st → certFiles d st = list_to_set (issuedPaths d n).
Proof.
  intros (_ & _ & Hcerts). apply set_eq. intros q.
  unfold certFiles. rewrite elem_of_filter, elem_of_dom, elem_of_list_to_set.
  split.
  - intros [Hq Hsome]. by apply Hcerts.
  - intros Hin. assert (Hq : underCerts d q = true).
    { unfold issuedPaths in Hin. apply list_elem_of_fmap in Hin as (k & -> & _).
      apply underCerts_certName. }
    split; [done|]. by apply Hcerts.
Qed.

(** C2. After InitCA on a directory with nothing under certs/ and any
    sequence of successful SignCSR calls, [n] of them, the serial file
    holds 2 + n in lowercase hex, index.json holds [n] entries and certs/
    holds [n] files: InitCA writes "02", and each successful SignCSR issues
    the certificate with the current counter value (the certificate that
    x509.CreateCertificate makes from the template with that serial number,
    the CSR, the CA certificate and the CA key), writes it to
    certs/<hex>.pem, appends one index entry and writes the counter plus
    one back. The counter stays within the int64 range. *)
Theorem serial_counts_issued ft rnd now d subject keyAlgo days st0 st1 res reqs st2 :
  (∀ q, underCerts d q = true → files st0 !! q = None) →
  InitCA ft rnd now d subject keyAlgo days st0 = (st1, Ok res) →
  signAll d reqs st1 = Some st2 →
  2 + Z.of_nat (length reqs) ≤ maxInt64 →
  let n := length reqs in
  files st1 !! inDir d "serial" = Some ("02" +:+ LF)
  ∧ files st2 !! inDir d "serial" = Some (FormatSerial (2 + Z.of_nat n) +:+ LF)
  ∧ (ReadCounter (inDir d "serial") st2).2 = Ok (2 + Z.of_nat n)
  ∧ (∃ index, (LoadIndex d st2).2 = Ok index ∧ length index = n
              ∧ Serial <$> index = FormatSerial <$> seqZ 2 (Z.of_nat n))
  ∧ certFiles d st2 = list_to_set (issuedPaths d n)
  ∧ size (certFiles d st2) = n
  ∧ (∀ ft' rnd' now' csrPEM csrPath days' st3 res',
       2 + Z.of_nat n < maxInt64 →
       SignCSR ft' rnd' now' d csrPEM csrPath days' st2 = (st3, Ok res') →
       srSerial res' = FormatSerial (2 + Z.of_nat n)
       ∧ srCertPath res' = inDir d (certName (FormatSerial (2 + Z.of_nat n)))
       ∧ issued d (S n) st3
       ∧ ∃ csr caKey caCert ski certDER index,
           decodedCSR csrPEM = Some csr
           ∧ (LoadPrivateKey (inDir d "ca.key") st2).2 = Ok caKey
           ∧ (LoadCertificate (inDir d "ca.crt") st2).2 = Ok caCert
           ∧ computeSKI (csrPublicKey csr) = Ok ski
           ∧ x509_CreateCertificate rnd'
               (mkCertificate (2 + Z.of_nat n) (csrSubject csr) emptyName now'
                  (now' + durationOf (wrap64 (days' * 24)) hourNs)
                  (if isRSA (csrPublicKey csr)
                   then Z.lor KeyUsageDigitalSignature KeyUsageKeyEncipherment
                   else KeyUsageDigitalSignature)
                  true false ski (certSubjectKeyId caCert) (csrDNSNames csr)
                  (csrIPAddresses csr) (csrEmailAddresses csr)
                  (sigAlgorithm caKey) NilPublicKey)
               caCert (csrPublicKey csr) caKey = Ok certDER
           ∧ files st3 !! inDir d (certName (FormatSerial (2 + Z.of_nat n)))
             = Some (pem_EncodeToMemory "CERTIFICATE" certDER)
           ∧ (LoadIndex d st2).2 = Ok index
           ∧ (LoadIndex d st3).2
             = Ok (index
                   ++ [jsonEntry
                         (mkIndexEntry (FormatSerial (2 + Z.of_nat n))
                            (FormatDN (csrSubject csr)) (time_Format now')
                            (time_Format
                               (now' + durationOf (wrap64 (days' * 24)) hourNs))
                            "active" "" "")])
           ∧ files st3 !! inDir d "serial"
             = Some (FormatSerial (2 + Z.of_nat n + 1) +:+ LF)).
Proof using laws.
  intros Hfresh Hinit Hsigns Hn n.
  apply InitCA_inv in Hinit as [[[=] _]|(_ & _ & Hidx & Hserial & Hcerts)].
  assert (H0 : issued d 0 st1).
  { split; [done|]. split.
    - exists []. split; [|done].
      eapply LoadIndex_file; [exact Hidx|apply json_Unmarshal_empty].
    - intros q Hq. rewrite (Hcerts q Hq), (Hfresh q Hq).
      split; [by intros [? [=]]|]. by intros ?%elem_of_nil. }
  pose proof (signAll_issued d reqs 0 st1 st2 H0) as Hinv.
  simpl in Hinv. fold n in Hinv. specialize (Hinv ltac:(lia) Hsigns).
  pose proof (issued_certFiles _ _ _ Hinv) as Hfiles.
  destruct Hinv as (Hserial2 & (index & Hidx2 & Hserials) & Hcerts2).
  split; [done|]. split; [done|].
  split; [apply ReadCounter_line; [done|lia]|].
  split.
  { exists index. split; [done|]. split; [|done].
    apply (f_equal length) in Hserials.
    rewrite !length_fmap, length_seqZ in Hserials. lia. }
  split; [done|]. split.
  { rewrite Hfiles, size_list_to_set by (apply issuedPaths_NoDup; lia).
    unfold issuedPaths. rewrite length_fmap, length_seqZ. lia. }
  intros ft' rnd' now' csrPEM csrPath days' st3 res' Hlt Hrun.
  assert (Hinv : issued d n st2).
  { split; [done|]. split; [|done]. by exists index. }
  pose proof Hrun as Hok.
  eapply SignCSR_issued in Hrun as (? & ? & ?); [|exact Hinv|done].
  do 3 (split; [done|]).
  apply SignCSR_ok in Hok
    as (csr & caKey & caCert & v & ski & certDER & index0 & data & _ & Hcsr & _
        & _ & Hkey & Hcert & Hv & Hski & Hder & Hidx0 & Hdata & _ & Hfile & Hf
        & Hcounter).
  rewrite (ReadCounter_line _ _ _ Hserial2) in Hv by lia. injection Hv as <-.
  rewrite Hidx2 in Hidx0. injection Hidx0 as <-.
  rewrite wrap64_id in Hcounter by (unfold inInt64, minInt64; lia).
  exists csr, caKey, caCert, ski, certDER, index.
  do 7 (split; [done|]). split; [|done].
  rewrite (LoadIndex_written _ _ _ _ Hf Hdata), fmap_app.
  by rewrite (jsonEntry_fixed index) by by eapply LoadIndex_valid.
Qed.

(** C7, as the code has it. An index entry whose status is "revoked" is
    never set back to "active" and never loses its revoked_at or
    revocation_reason: after every engine operation the index loads with
    the very same entry at its position (an InitCA that finds no CA key or
    certificate starts an empty index instead). RevokeCert on a serial that
    is revoked already returns "Error: certificate with serial <s> is
    already revoked", and on a serial that is not in the index "Error:
    certificate with serial <s> not found"; both fail before the mutate
    phase and leave the store, hence every file of the data directory, as
    it was. *)
Theorem revoked_entries_stay ft now d st index :
  (LoadIndex d st).2 = Ok index →
  (∀ c i entry,
     index !! i = Some entry → Status entry = "revoked" →
     ∃ index', (LoadIndex d (run ft now d c st).1).2 = Ok index'
               ∧ (index' !! i = Some entry
                  ∨ IsInitialized d st = false ∧ index' = []))
  ∧ (IsInitialized d st = true →
     ∀ serialHex reason,
       (∀ found entry,
          findSerial index serialHex = Some (found, entry) →
          Status entry = "revoked" →
          RevokeCert ft now d serialHex reason st
          = (st, Err ("Error: certificate with serial " +:+ serialHex
                      +:+ " is already revoked")))
       ∧ (serialHex ∉ (Serial <$> index) →
          RevokeCert ft now d serialHex reason st
          = (st, Err ("Error: certificate with serial " +:+ serialHex
                      +:+ " not found")))).
Proof using laws.
  intros Hidx. split.
  - intros c i entry. by apply revoked_entry_kept.
  - intros Hinit serialHex reason. split.
    + intros found entry. by apply RevokeCert_already_revoked.
    + by apply RevokeCert_not_found.
Qed.

End Histories.

(** ** The executable library keeps the laws of the JSON codec *)

Module RefFacts.
Import Ref.

Lemma chomp_line (body : string) : chomp (body +:+ LF) = Some body.
Proof.
  induction body as [|c body IH]; [done|].
  change (String c body +:+ LF) with (String c (body +:+ LF)).
  simpl. rewrite IH. by destruct body.
Qed.

Lemma of_pos_head p rest : ∃ t, BinaryString.Raw.of_pos p rest = String "1" t.
Proof. revert rest. induction p as [p IH|p IH|]; intros rest; simpl; eauto. Qed.

Lemma jsonUnmarshal_jsonMarshal entries data :
  jsonMarshal entries = Ok data →
  jsonUnmarshal (data +:+ LF) = Ok (jsonEntry <$> entries).
Proof.
  intros [= <-]. unfold jsonUnmarshal.
  destruct (of_pos_head (encode (entryFields <$> (jsonEntry <$> entries))) "")
    as [t Ht].
  rewrite bool_decide_eq_false_2 by (by rewrite Ht).
  rewrite chomp_line, BinaryString.Raw.to_N_of_pos. simpl.
  rewrite decode_encode. simpl.
  replace (mapM entryOfFields (entryFields <$> (jsonEntry <$> entries)))
    with (Some (jsonEntry <$> entries)).
  - f_equal. rewrite <- list_fmap_compose. apply list_fmap_ext.
    intros _ e _. apply utf8Facts.jsonEntry_idem.
  - symmetry. apply mapM_Some. clear Ht.
    induction entries as [|[] entries IH]; simpl; by constructor.
Qed.

Lemma jsonUnmarshal_valid data entries :
  jsonUnmarshal data = Ok entries → Forall (λ e, jsonEntry e = e) entries.
Proof.
  unfold jsonUnmarshal. case_bool_decide; [by intros [= <-]|].
  destruct (chomp data) as [body|]; [|done].
  destruct (BinaryString.Raw.to_N body 0) as [|p]; [done|].
  destruct (decode p ≫= mapM entryOfFields) as [es|]; [|done].
  intros [= <-]. apply Forall_fmap, Forall_forall. intros e _.
  apply utf8Facts.jsonEntry_idem.
Qed.

Lemma timeFormat_valid t : utf8.coerce (timeFormat t) = timeFormat t.
Proof.
  apply utf8Facts.coerce_ascii, utf8Facts.isASCII_Forall.
  unfold timeFormat. rewrite stringsFacts.bytesOf_app.
  apply Forall_app_2; [by repeat constructor|].
  eapply Forall_impl; [|apply serialFacts.hexText_bytes].
  intros c [->|Hc]; [done|]. by apply serialFacts.lowerHex_fixed in Hc as [? _].
Qed.

Global Instance lib_laws : GoLibLaws lib.
Proof.
  split; [done|exact jsonUnmarshal_jsonMarshal|exact jsonUnmarshal_valid
         |exact timeFormat_valid].
Qed.

End RefFacts.

(** ** The properties on the worked history *)

Lemma precondition_error_texts_witness :
  RevokeCert (L := Ref.lib) noFaults 5000 "ca" "ff" "keyCompromise" Sample.signedTwice
  = (Sample.signedTwice, Err "Error: certificate with serial ff not found")
  ∧ InitCA (L := Ref.lib) noFaults 7 5000 "ca" Ref.leafName "ecdsa-p256" 3650
      Sample.initialized
    = (Sample.initialized, Err "Error: CA already initialized at ca")
  ∧ SignCSR (L := Ref.lib) noFaults 7 5000 "ca" "csr:ec256" "a.csr" 365 emptyStore
    = (emptyStore, Err "Error: CA not initialized. Run 'ca init' first.").
Proof.
  destruct (precondition_error_texts (L := Ref.lib)) as (Hrevoke & Hinit & Hsign).
  split; [|split].
  - eapply (Hrevoke noFaults 5000 "ca" "ff" "keyCompromise" Sample.signedTwice).
    + vm_compute; reflexivity.
    + vm_compute; reflexivity.
    + apply findSerial_None. vm_compute; reflexivity.
  - apply (Hinit noFaults 7%N 5000 "ca" Ref.leafName "ecdsa-p256" 3650 Sample.initialized).
    vm_compute; reflexivity.
  - apply (Hsign noFaults 7%N 5000 "ca" "csr:ec256" "a.csr" 365 emptyStore).
    vm_compute; reflexivity.
Defined.

(** The texts the engine returns are not the bare texts: RevokeCert on the
    unknown serial ff, InitCA on the initialized directory and SignCSR on
    the empty file system. *)
Lemma precondition_error_texts_bare :
  ((RevokeCert (L := Ref.lib) noFaults 5000 "ca" "ff" "keyCompromise"
      Sample.signedTwice).2
   = Err "Error: certificate with serial ff not found"
   ∧ "Error: certificate with serial ff not found"
     ≠ "certificate with serial ff not found")
  ∧ ((InitCA (L := Ref.lib) noFaults 7 5000 "ca" Ref.leafName "ecdsa-p256" 3650
        Sample.initialized).2
     = Err "Error: CA already initialized at ca"
     ∧ "Error: CA already initialized at ca" ≠ "CA already initialized at ca")
  ∧ ((SignCSR (L := Ref.lib) noFaults 7 5000 "ca" "csr:ec256" "a.csr" 365
        emptyStore).2
     = Err "Error: CA not initialized. Run 'ca init' first."
     ∧ "Error: CA not initialized. Run 'ca init' first." ≠ "CA not initialized").
Proof. repeat split; first [by vm_compute | discriminate]. Qed.

Lemma SignCSR_key_algorithm_witness :
  SignCSR (L := Ref.lib) noFaults 7 2000 "ca" "csr:rsa1024" "weak.csr" 365
    Sample.initialized
  = (Sample.initialized,
     Err "Error: unsupported key algorithm in CSR. Supported: ECDSA P-256, RSA 2048")
  ∧ (SignCSR (L := Ref.lib) noFaults 7 2000 "ca" "csr:rsa2048" "a.csr" 365
       Sample.initialized).2
    ≠ Err "Error: unsupported key algorithm in CSR. Supported: ECDSA P-256, RSA 2048".
Proof.
  split.
  - refine (proj2 (SignCSR_key_algorithm (L := Ref.lib) noFaults 7 2000 "ca"
                     "csr:rsa1024" "weak.csr" 365 Sample.initialized
                     (mkCSR Ref.leafName (RSAPublicKey (2 ^ 1023) 65537) [] [] [])
                     _ _ _) _);
      try (vm_compute; reflexivity).
    intros [(x & y & [=])|(n & e & [= <- _] & Hbits)].
    vm_compute in Hbits. discriminate Hbits.
  - refine (proj1 (SignCSR_key_algorithm (L := Ref.lib) noFaults 7 2000 "ca"
                     "csr:rsa2048" "a.csr" 365 Sample.initialized
                     (mkCSR Ref.leafName (RSAPublicKey (2 ^ 2047) 65537) [] [] [])
                     _ _ _) _);
      try (vm_compute; reflexivity).
    right. exists (2 ^ 2047), 65537. split; vm_compute; reflexivity.
Defined.

(** SignCSR on the CSR with the 1024-bit RSA key: the text it returns is
    not the bare text. *)
Lemma SignCSR_key_algorithm_bare :
  (SignCSR (L := Ref.lib) noFaults 7 2000 "ca" "csr:rsa1024" "weak.csr" 365
     Sample.initialized).2
  = Err "Error: unsupported key algorithm in CSR. Supported: ECDSA P-256, RSA 2048"
  ∧ "Error: unsupported key algorithm in CSR. Supported: ECDSA P-256, RSA 2048"
    ≠ "unsupported key algorithm in CSR. Supported: ECDSA P-256, RSA 2048".
Proof. split; [by vm_compute | discriminate]. Qed.

Lemma serial_counts_issued_witness :
  files Sample.initialized !! inDir "ca" "serial" = Some ("02" +:+ LF)
  ∧ files Sample.signedTwice !! inDir "ca" "serial" = Some ("04" +:+ LF)
  ∧ (ReadCounter (L := Ref.lib) (inDir "ca" "serial") Sample.signedTwice).2 = Ok 4
  ∧ (∃ index, (LoadIndex (L := Ref.lib) "ca" Sample.signedTwice).2 = Ok index
              ∧ length index = 2%nat ∧ Serial <$> index = ["02"; "03"])
  ∧ certFiles "ca" Sample.signedTwice = {["ca/certs/02.pem"; "ca/certs/03.pem"]}
  ∧ size (certFiles "ca" Sample.signedTwice) = 2%nat
  ∧ (let third :=
       SignCSR (L := Ref.lib) noFaults 9 6000 "ca" "csr:ec256" "c.csr" 30
         Sample.signedTwice in
     ∃ res csr caKey caCert ski certDER,
       third.2 = Ok res
       ∧ srSerial res = "04" ∧ srCertPath res = "ca/certs/04.pem"
       ∧ decodedCSR (L := Ref.lib) "csr:ec256" = Some csr
       ∧ computeSKI (L := Ref.lib) (csrPublicKey csr) = Ok ski
       ∧ Ref.createCertificate 9
           (mkCertificate 4 (csrSubject csr) emptyName 6000
              (6000 + durationOf (wrap64 (30 * 24)) hourNs)
              (if isRSA (csrPublicKey csr)
               then Z.lor KeyUsageDigitalSignature KeyUsageKeyEncipherment
               else KeyUsageDigitalSignature)
              true false ski (certSubjectKeyId caCert) (csrDNSNames csr)
              (csrIPAddresses csr) (csrEmailAddresses csr) (sigAlgorithm caKey)
              NilPublicKey)
           caCert (csrPublicKey csr) caKey = Ok certDER
       ∧ files third.1 !! "ca/certs/04.pem" = Some certDER
       ∧ files third.1 !! "ca/serial" = Some ("05" +:+ LF)).
Proof.
  assert (∃ res, InitCA (L := Ref.lib) noFaults 7 1000 "ca" Ref.leafName
                   "ecdsa-p256" 3650 emptyStore = (Sample.initialized, Ok res))
    as [res Hinit] by (eexists; vm_compute; reflexivity).
  destruct (serial_counts_issued (L := Ref.lib) noFaults 7 1000 "ca" Ref.leafName
              "ecdsa-p256" 3650 emptyStore Sample.initialized res
              Sample.requests Sample.signedTwice)
    as (H1 & H2 & H3 & H4 & H5 & H6 & H7).
  - intros q _. apply lookup_empty.
  - exact Hinit.
  - vm_compute; reflexivity.
  - vm_compute; discriminate.
  - split; [exact H1|]. split; [exact H2|]. split; [exact H3|].
    split; [exact H4|]. split.
    { rewrite H5. apply set_eq. intros q. vm_compute issuedPaths. set_solver. }
    split; [exact H6|].
    intros third.
    assert (∃ res', third = (third.1, Ok res')) as [res' Hrun]
      by (eexists; vm_compute; reflexivity).
    destruct (H7 noFaults 9%N 6000 "csr:ec256" "c.csr" 30 third.1 res')
      as (Hs & Hp & _ & csr & caKey & caCert & ski & certDER & index & Hcsr & _
          & _ & Hski & Hder & Hfile & _ & _ & Hcounter).
    + vm_compute; reflexivity.
    + exact Hrun.
    + exists res', csr, caKey, caCert, ski, certDER.
      split; [by rewrite Hrun|]. split; [exact Hs|]. split; [exact Hp|].
      split; [exact Hcsr|]. split; [exact Hski|]. split; [exact Hder|].
      split; [exact Hfile|exact Hcounter].
Defined.

Lemma revoked_entries_stay_witness :
  let entry :=
    mkIndexEntry "02" "CN=leaf.example.com" "T7d0" "T7009d32da307d0" "revoked"
      "Tbb8" "keyCompromise" in
  (∀ c, ∃ index',
     (LoadIndex (L := Ref.lib) "ca"
        (run (L := Ref.lib) noFaults 5000 "ca" c Sample.revokedFirst).1).2 = Ok index'
     ∧ (index' !! 0%nat = Some entry
        ∨ IsInitialized "ca" Sample.revokedFirst = false ∧ index' = []))
  ∧ RevokeCert (L := Ref.lib) noFaults 5000 "ca" "02" "superseded" Sample.revokedFirst
    = (Sample.revokedFirst, Err "Error: certificate with serial 02 is already revoked")
  ∧ RevokeCert (L := Ref.lib) noFaults 5000 "ca" "ff" "superseded" Sample.revokedFirst
    = (Sample.revokedFirst, Err "Error: certificate with serial ff not found").
Proof.
  intros entry.
  edestruct (revoked_entries_stay (L := Ref.lib) noFaults 5000 "ca"
               Sample.revokedFirst) as [Hkeep Hrevoke].
  - vm_compute; reflexivity.
  - split.
    + intros c. apply (Hkeep c 0%nat entry); vm_compute; reflexivity.
    + destruct (Hrevoke ltac:(vm_compute; reflexivity) "02" "superseded") as [Hre _].
      destruct (Hrevoke ltac:(vm_compute; reflexivity) "ff" "superseded") as [_ Hnf].
      split.
      * apply (Hre 0%nat entry); vm_compute; reflexivity.
      * apply Hnf. apply findSerial_None. vm_compute; reflexivity.
Defined.

(** RevokeCert on the revoked serial 02: the text it returns is not the
    bare text. *)
Lemma RevokeCert_already_revoked_bare :
  (RevokeCert (L := Ref.lib) noFaults 5000 "ca" "02" "superseded"
     Sample.revokedFirst).2
  = Err "Error: certificate with serial 02 is already revoked"
  ∧ "Error: certificate with serial 02 is already revoked"
    ≠ "certificate with serial 02 is already revoked".
Proof. split; [by vm_compute | discriminate]. Qed.

Lemma InitCA_commits_markers_first_witness :
  let done_ :=
    InitCA (L := Ref.lib) noFaults 7 1000 "ca" Ref.leafName "ecdsa-p256" 3650
      emptyStore in
  let stopped :=
    InitCA (L := Ref.lib) (Sample.renameFails "ca/serial.tmp") 7 1000 "ca"
      Ref.leafName "ecdsa-p256" 3650 emptyStore in
  (isOk done_.2 = true ∧ trace done_.1 = initCalls "ca")
  ∧ (stopped.2 = Err "failed to commit ca/serial: input/output error"
     ∧ IsInitialized "ca" stopped.1 = true
     ∧ files stopped.1 !! "ca/serial" = None).
Proof.
  intros done_ stopped. split.
  - split; [vm_compute; reflexivity|].
    refine (proj1 (InitCA_commits_markers_first (L := Ref.lib) noFaults 7 1000
                     "ca" Ref.leafName "ecdsa-p256" 3650 emptyStore done_.1
                     done_.2 _) _);
      [apply surjective_pairing|vm_compute; reflexivity].
  - split; [vm_compute; reflexivity|].
    refine (proj2 (InitCA_commits_markers_first (L := Ref.lib)
                     (Sample.renameFails "ca/serial.tmp") 7 1000 "ca"
                     Ref.leafName "ecdsa-p256" 3650 emptyStore stopped.1
                     stopped.2 _)
              "failed to commit ca/serial: input/output error" "serial" _ _ _);
      [apply surjective_pairing|vm_compute; reflexivity|by left
      |vm_compute; reflexivity].
Defined.

Lemma InitCA_cleanup_keeps_certs_witness :
  let failed :=
    InitCA (L := Ref.lib) (Sample.writeFails "ca/serial.tmp") 7 1000 "ca"
      Ref.leafName "ecdsa-p256" 3650 emptyStore in
  failed.2 = Err "failed to write serial: no space left on device"
  ∧ statOk "ca/certs" emptyStore = false
  ∧ "ca/certs" ∈ dirs failed.1
  ∧ (∀ p, p ∈ dirs emptyStore → p ∉ initTmpPaths "ca" → p ∈ dirs failed.1)
  ∧ (∀ q, q ∈ initTmpPaths "ca" → files failed.1 !! q = None)
  ∧ (∀ q, q ∉ initTmpPaths "ca" → files failed.1 !! q = files emptyStore !! q).
Proof.
  intros failed. split; [vm_compute; reflexivity|].
  split; [vm_compute; reflexivity|].
  apply (InitCA_cleanup_keeps_certs (L := Ref.lib)
           (Sample.writeFails "ca/serial.tmp") 7 1000 "ca" Ref.leafName
           "ecdsa-p256" 3650 emptyStore failed.1
           "failed to write serial: no space left on device");
    [|vm_compute; reflexivity].
  transitivity (failed.1, failed.2); [apply surjective_pairing|].
  f_equal.
Defined.

(** * Further properties of the code *)

Section StoreProps.
Context `{L : GoLib}.
Import strings stringsFacts strconv counterFacts serialFacts pathFacts.

(** X1. writeFileAtomic is all or nothing, under every pattern of faults:
    either it succeeds and the file holds the data, or it fails and the file
    is as before; in both cases the .tmp file is gone afterwards and no
    other file changes. No directory is created; a success changes none,
    and a failure removes none but the .tmp path itself (the os.Remove of
    the failure path takes an empty directory of that name away). *)
Theorem writeFileAtomic_all_or_nothing ft path data st st' r :
  writeFileAtomic ft path data st = (st', r) →
  dirsKept [path +:+ ".tmp"] st st'
  ∧ files st' !! (path +:+ ".tmp") = None
  ∧ (∀ q, q ≠ path → q ≠ path +:+ ".tmp" → files st' !! q = files st !! q)
  ∧ (r = Ok tt ∧ dirs st' = dirs st ∧ files st' !! path = Some data
     ∨ (∃ e, r = Err e) ∧ files st' !! path = files st !! path).
Proof.
  intros H. pose proof (writeFileAtomic_outcome ft path data st) as Hw.
  cbv zeta in Hw. by rewrite H in Hw.
Qed.

(** X2. A counter that WriteCounter has written, ReadCounter reads back,
    for every int64 value. *)
Theorem counter_round_trip ft path v st st' :
  inInt64 v →
  WriteCounter ft path v st = (st', Ok tt) →
  ReadCounter path st' = (st', Ok v).
Proof.
  intros Hv Hw. unfold WriteCounter in Hw.
  apply writeFileAtomic_inv in Hw as [_ [[_ Hf]|[[=] _]]].
  apply io_eq; [apply ReadCounter_store|].
  unfold ReadCounter, onErr, os_ReadFile. unfold mbind, IO_bind, bind.
  rewrite Hf. simpl. unfold FormatSerial.
  destruct (Sprintf02x_plain v) as [Hplain Hne].
  rewrite TrimSpace_line by done. by rewrite ParseInt16_Sprintf02x_int64.
Qed.

(** X3. The two serial formatters agree: the text FormatSerialBig prints for
    the serial number of a certificate is the text FormatSerial wrote into
    the index and the file name when the certificate was issued. *)
Theorem FormatSerialBig_FormatSerial n : FormatSerialBig n = FormatSerial n.
Proof.
  unfold FormatSerialBig, FormatSerial, Sprintf02x. rewrite ToLower_hexText.
  destruct n as [|p|p]; [done..|].
  unfold hexText.
  change ("-" +:+ HexString.Raw.of_pos p "")
    with (String "-" (HexString.Raw.of_pos p "")).
  pose proof (of_pos_nonempty p "") as Hne.
  by destruct (HexString.Raw.of_pos p "").
Qed.

(** X4. The text of a serial: at least two characters, lower-case
    hexadecimal digits behind an optional minus sign, and different for
    different int64 values. *)
Theorem FormatSerial_text v w :
  inInt64 v → inInt64 w →
  (2 ≤ String.length (FormatSerial v))%nat
  ∧ Forall (λ c, c = "-"%char ∨ lowerHex c) (bytesOf (FormatSerial v))
  ∧ (FormatSerial v = FormatSerial w → v = w).
Proof.
  intros Hv Hw. split; [|split].
  - unfold FormatSerial, Sprintf02x.
    destruct v as [|p|p]; [simpl; lia| |].
    + destruct (String.length (hexText (Z.pos p)) <? 2)%nat eqn:Hlen.
      * pose proof (of_pos_nonempty p "") as Hne. unfold hexText in *.
        destruct (HexString.Raw.of_pos p ""); [done|]. simpl. lia.
      * by apply Nat.ltb_ge in Hlen.
    + unfold hexText.
      change ("-" +:+ HexString.Raw.of_pos p "")
        with (String "-" (HexString.Raw.of_pos p "")).
      pose proof (of_pos_nonempty p "") as Hne.
      destruct (HexString.Raw.of_pos p ""); [done|]. simpl. lia.
  - unfold FormatSerial, Sprintf02x.
    pose proof (hexText_bytes v) as Hb.
    assert (Hpad : Forall (λ c, c = "-"%char ∨ lowerHex c)
                     (bytesOf ("0" +:+ hexText v))).
    { rewrite bytesOf_app. apply Forall_app. split; [|done].
      constructor; [|constructor]. right. unfold lowerHex. simpl.
      by repeat constructor. }
    destruct v as [|p|p]; [|destruct (_ <? _)%nat|]; done.
  - intros Heq. apply ParseInt16_Sprintf02x_int64 in Hv, Hw.
    unfold FormatSerial in Heq. rewrite Heq in Hv. congruence.
Qed.

(** X5. cleanupTempFiles never fails and removes the listed paths and
    nothing else: afterwards no listed path has a file and every other file
    is as before; no directory is new, and every directory that is not
    listed is still there (os.Remove takes a listed path away also when it
    is an empty directory). *)
Theorem cleanupTempFiles_removes paths st :
  (cleanupTempFiles paths st).2 = Ok tt
  ∧ dirsKept paths st (cleanupTempFiles paths st).1
  ∧ (∀ q, q ∈ paths → files (cleanupTempFiles paths st).1 !! q = None)
  ∧ (∀ q, q ∉ paths → files (cleanupTempFiles paths st).1 !! q = files st !! q).
Proof.
  destruct (cleanupTempFiles_files paths st) as (_ & Hd & Hr).
  split; [done|]. split; [done|]. split; intros q Hq.
  - by rewrite cleanupTempFiles_lookup, decide_True.
  - by rewrite cleanupTempFiles_lookup, decide_False.
Qed.

End StoreProps.

(** ** Revocation *)

Section RevokeProps.
Context `{L : GoLib} {laws : GoLibLaws L}.
Import pathFacts.

(** What a successful RevokeCert has found and done. *)
Lemma RevokeCert_ok ft now d serialHex reason st st' :
  RevokeCert ft now d serialHex reason st = (st', Ok tt) →
  IsInitialized d st = true
  ∧ ∃ index i entry data,
      (LoadIndex d st).2 = Ok index
      ∧ findSerial index serialHex = Some (i, entry)
      ∧ Status entry ≠ "revoked"
      ∧ json_MarshalIndent
          (<[i := revoked entry (time_Format now) reason]> index) = Ok data
      ∧ files st' !! inDir d "index.json" = Some (data +:+ LF)
      ∧ dirs st' = dirs st
      ∧ ∀ q, q ≠ inDir d "index.json" → q ≠ inDir d "index.json" +:+ ".tmp" →
             files st' !! q = files st !! q.
Proof.
  intros H. unfold RevokeCert in H.
  rewrite (bind_eq _ _ _ _ _ (gets_eq _ st)) in H.
  destruct (IsInitialized d st) eqn:Hinit; cbv iota in H; simpl negb in H;
    cbv iota in H; [|done].
  split; [done|].
  ok_step H index Hindex. eapply pure_step_inv in Hindex as [-> [(? & [= <-] & Hindex)|(? & [=])]];
    [|by auto with readonly].
  destruct (findSerial index serialHex) as [[i entry]|] eqn:Hfound; [|done].
  case_bool_decide as Hst; [done|].
  apply wrapping_inv in H as [(u & H & _)|(e & _ & [=])].
  unfold SaveIndex in H.
  ok_step H data Hdata. eapply pure_step_inv in Hdata as [-> [(? & [= <-] & Hdata)|(? & [=])]];
    [|done].
  rewrite Join2 in H.
  pose proof (writeFileAtomic_outcome ft (inDir d "index.json")
                (data +:+ LF) st) as Hw.
  cbv zeta in Hw. rewrite H in Hw. simpl in Hw.
  destruct Hw as (_ & _ & Hframe & [(_ & Hd & Hf)|[[? [=]] _]]).
  by exists index, i, entry, data.
Qed.

(** The index that a revocation has written loads with the entry revoked,
    its reason coerced to valid UTF-8 as encoding/json writes it. *)
Lemma LoadIndex_revoked d st st' index i entry now reason data :
  (LoadIndex d st).2 = Ok index →
  index !! i = Some entry →
  json_MarshalIndent (<[i := revoked entry (time_Format now) reason]> index)
  = Ok data →
  files st' !! inDir d "index.json" = Some (data +:+ LF) →
  (LoadIndex d st').2
  = Ok (<[i := revoked entry (time_Format now) (utf8.coerce reason)]> index).
Proof using laws.
  intros Hidx Hi Hdata Hf.
  pose proof (LoadIndex_valid _ _ _ Hidx) as Hvalid.
  rewrite (LoadIndex_written _ _ _ _ Hf Hdata), list_fmap_insert.
  rewrite (jsonEntry_fixed index Hvalid). do 2 f_equal.
  rewrite Forall_lookup in Hvalid. specialize (Hvalid i entry Hi).
  destruct entry as [serial subject notBefore notAfter status at_ why].
  unfold revoked, jsonEntry in *. simpl in *.
  injection Hvalid as Hserial Hsubject HnotBefore HnotAfter _ _ _.
  by rewrite Hserial, Hsubject, HnotBefore, HnotAfter, time_Format_valid.
Qed.

Lemma findSerial_insert index serialHex i entry entry' :
  findSerial index serialHex = Some (i, entry) →
  Serial entry' = Serial entry →
  findSerial (<[i := entry']> index) serialHex = Some (i, entry').
Proof.
  revert i. induction index as [|x rest IH]; intros i; simpl; [done|].
  case_bool_decide as Heq.
  - intros [= <- <-] Hs. simpl. by rewrite bool_decide_eq_true_2 by congruence.
  - destruct (findSerial rest serialHex) as [[n e]|] eqn:Hrest; simpl; [|done].
    intros [= <- <-] Hs. simpl. rewrite bool_decide_eq_false_2 by done.
    by rewrite (IH n).
Qed.

Lemma IsInitialized_same d st st' :
  dirs st' = dirs st →
  (∀ q, q ≠ inDir d "index.json" → q ≠ inDir d "index.json" +:+ ".tmp" →
        files st' !! q = files st !! q) →
  IsInitialized d st' = IsInitialized d st.
Proof.
  intros Hd Hf. unfold IsInitialized, statOk.
  rewrite !Join2, Hd, !Hf by path_ne. done.
Qed.


(** X7. A certificate is revoked once: after a successful RevokeCert, every
    further RevokeCert of the same serial fails with "already revoked" and
    leaves the store as it is, whatever the reason, time and faults. *)
Theorem RevokeCert_once ft ft' now now' d serialHex reason reason' st st' :
  RevokeCert ft now d serialHex reason st = (st', Ok tt) →
  RevokeCert ft' now' d serialHex reason' st'
  = (st', Err ("Error: certificate with serial " +:+ serialHex
               +:+ " is already revoked")).
Proof using laws.
  intros (Hinit & index & i & entry & data & Hidx & Hfound & Hst & Hdata & Hf
          & Hd & Hframe)%RevokeCert_ok.
  pose proof (findSerial_Some _ _ _ _ Hfound) as [Hi _].
  eapply RevokeCert_already_revoked.
  - by rewrite (IsInitialized_same d st st').
  - by eapply LoadIndex_revoked.
  - by apply (findSerial_insert _ _ _ entry).
  - done.
Qed.

(** X8. After a successful RevokeCert, ListCerts lists the same rows as
    before but for the row of the revoked entry, whose status is "revoked"
    at every time of listing, expired or not. *)
Theorem ListCerts_after_revoke ft now now' d serialHex reason st st' :
  RevokeCert ft now d serialHex reason st = (st', Ok tt) →
  ∃ rows i row,
    ListCerts now' d st = (st, Ok rows)
    ∧ ListCerts now' d st' = (st', Ok (<[i := row]> rows))
    ∧ (i < length rows)%nat
    ∧ ciSerial row = serialHex
    ∧ ciStatus row = "revoked".
Proof using laws.
  intros (Hinit & index & i & entry & data & Hidx & Hfound & Hst & Hdata & Hf
          & Hd & Hframe)%RevokeCert_ok.
  pose proof (findSerial_Some _ _ _ _ Hfound) as [Hi Hserial].
  exists (certInfo now' <$> index), i,
    (certInfo now' (revoked entry (time_Format now) (utf8.coerce reason))).
  assert (Hload' : (LoadIndex d st').2
            = Ok (<[i := revoked entry (time_Format now) (utf8.coerce reason)]>
                    index)).
  { by eapply LoadIndex_revoked. }
  pose proof (io_eq _ _ _ _ (LoadIndex_store _ st) Hidx) as Hl.
  pose proof (io_eq _ _ _ _ (LoadIndex_store _ st') Hload') as Hl'.
  split_and!.
  - unfold ListCerts. rewrite (bind_eq _ _ _ _ _ (gets_eq _ st)), Hinit. simpl.
    by erewrite bind_eq; [|apply wrapping_ok, Hl].
  - unfold ListCerts.
    rewrite (bind_eq _ _ _ _ _ (gets_eq _ st')), (IsInitialized_same d st st'), Hinit
      by done.
    simpl. erewrite bind_eq; [|apply wrapping_ok, Hl'].
    by rewrite list_fmap_insert.
  - rewrite length_fmap. by eapply lookup_lt_Some.
  - done.
  - done.
Qed.

End RevokeProps.

(** ** Frames: what an operation leaves alone *)

Lemma underCerts_cert_tmp d v :
  underCerts d (inDir d (certName (FormatSerial v)) +:+ ".tmp") = true.
Proof.
  rewrite pathFacts.inDir_tmp, pathFacts.underCerts_inDir by normal_name.
  unfold certName. rewrite stringsFacts.append_assoc. apply pathFacts.prefix_self.
Qed.

(** Refutes that a path outside certs/ is one of a certificate. *)
Ltac under_absurd :=
  match goal with
  | Hu : underCerts _ _ = false |- _ =>
      rewrite ?pathFacts.Join_cert in Hu;
      first [ rewrite pathFacts.underCerts_certName in Hu
            | rewrite underCerts_cert_tmp in Hu ];
      discriminate Hu
  end.

(** [a ≠ q] or [q ≠ a] for a path [a] of the list that [Hq] keeps [q] out
    of, or of a certificate when [q] is outside certs/. *)
Ltac frame_neq Hq :=
  first [ intros <-; first [by apply Hq; repeat constructor | under_absurd]
        | intros ->; first [by apply Hq; repeat constructor | under_absurd] ].

(** [q ∉ l] for a list [l] of such paths. *)
Ltac frame_notin Hq :=
  let Hin := fresh "Hin" in
  intros Hin;
  repeat (apply elem_of_cons in Hin as [->|Hin];
          [first [by apply Hq; repeat constructor | under_absurd]|]);
  by apply elem_of_nil in Hin.

(** The store after some steps agrees with the store before on every file
    outside the list, and on the directories but for a removal that a
    failed step has left. *)
Ltac frame_closer :=
  split; [dirs_kept|];
  let q := fresh "q" in
  intros q; intros;
  match goal with
  | Hq : q ∉ _ |- _ =>
      repeat match goal with
        | H : ∀ q, q ∉ _ → q ≠ _ → files ?s !! q = _
          |- context [files ?s !! _] =>
            rewrite H; [|frame_notin Hq|frame_neq Hq]
        | H : ∀ q, q ∉ _ → files ?s !! q = _ |- context [files ?s !! _] =>
            rewrite H; [|frame_notin Hq]
        | H : files ?s = _ |- context [files ?s] => rewrite H
        | |- context [<[_ := _]> _ !! _] =>
            rewrite lookup_insert_ne by frame_neq Hq
        | |- context [delete _ _ !! _] =>
            rewrite lookup_delete_ne by frame_neq Hq
        end
  end;
  reflexivity.

(** ** The CRL *)

Section CRLProps.
Context `{L : GoLib}.
Import pathFacts counterFacts serialFacts.

(** X9. GenerateCRL, whatever its outcome and the faults, changes no file
    but ca.crl, crlnumber and their .tmp files: the index, the serial
    counter, the CA key and certificate and the issued certificates are as
    before. It creates no directory, and removes none but one at its two
    .tmp paths (the cleanup of a failed run takes an empty directory of
    such a name away). *)
Theorem GenerateCRL_leaves_rest ft rnd now d hours st st' r :
  GenerateCRL ft rnd now d hours st = (st', r) →
  dirsKept [inDir d "ca.crl" +:+ ".tmp"; inDir d "crlnumber" +:+ ".tmp"] st st'
  ∧ ∀ q, q ∉ [inDir d "ca.crl"; inDir d "crlnumber";
              inDir d "ca.crl" +:+ ".tmp"; inDir d "crlnumber" +:+ ".tmp"] →
         files st' !! q = files st !! q.
Proof.
  intros H. unfold GenerateCRL in H.
  rewrite (bind_eq _ _ _ _ _ (gets_eq _ st)) in H.
  assert (Hsame : dirsKept [inDir d "ca.crl" +:+ ".tmp";
                             inDir d "crlnumber" +:+ ".tmp"] st st
                  ∧ ∀ q : string,
                      q ∉ [inDir d "ca.crl"; inDir d "crlnumber";
                           inDir d "ca.crl" +:+ ".tmp";
                           inDir d "crlnumber" +:+ ".tmp"] →
                      files st !! q = files st !! q).
  { split; [by apply dirsKept_same|done]. }
  destruct (IsInitialized d st) eqn:Hinit; cbv iota in H; simpl negb in H;
    cbv iota in H; [|by injection H as <- <-].
  pure_step H caKey HcaKey.
  pure_step H caCert HcaCert.
  pure_step H index Hindex.
  pure_step H crlNum HcrlNum.
  apply bind_inv in H as [(revokedEntries & st0 & Hm & H)|(? & Hm & ->)];
    apply lift_inv in Hm as [-> Hrev]; [|done].
  pure_step H akiValue Haki.
  destruct (isSigner caKey); simpl negb in H; cbv iota in H;
    [|by injection H as <- <-].
  pure_step H crlDER HcrlDER.
  clear Hsame.
  stage_step H Hf1 Hd1; try frame_closer.
  stage_step H Hf2 Hd2; try frame_closer.
  cbn [commitAll] in H.
  apply bind_inv in H as [(u0 & st3 & Hc & H)|(? & Hc & ->)].
  2:{ commit_step Hc d1 Hs1 Hf3 Hd3; try frame_closer.
      commit_step Hc d2 Hs2 Hf4 Hd4; try frame_closer. }
  commit_step Hc d1 Hs1 Hf3 Hd3; try frame_closer.
  commit_step Hc d2 Hs2 Hf4 Hd4; try frame_closer.
  injection Hc as <-. injection H as <- <-.
  frame_closer.
Qed.

(** What a successful GenerateCRL has read, built and written. *)
Lemma GenerateCRL_ok ft rnd now d hours st st' res :
  GenerateCRL ft rnd now d hours st = (st', Ok res) →
  ∃ caKey caCert index entries aki crlDER,
    IsInitialized d st = true
    ∧ (LoadPrivateKey (inDir d "ca.key") st).2 = Ok caKey
    ∧ (LoadCertificate (inDir d "ca.crt") st).2 = Ok caCert
    ∧ (LoadIndex d st).2 = Ok index
    ∧ (ReadCounter (inDir d "crlnumber") st).2 = Ok (crCRLNumber res)
    ∧ revokedEntriesOf index = Ok entries
    ∧ asn1_MarshalAKI (certSubjectKeyId caCert) = Ok aki
    ∧ x509_CreateRevocationList rnd
        (mkRevocationList entries (crCRLNumber res) now
           (now + durationOf hours hourNs) (sigAlgorithm caKey)
           [mkExtension [2; 5; 29; 35] false aki]) caCert caKey = Ok crlDER
    ∧ res = mkCRLResult now (now + durationOf hours hourNs) (crCRLNumber res)
              (length entries) (inDir d "ca.crl")
    ∧ files st' !! inDir d "ca.crl" = Some (pem_EncodeToMemory "X509 CRL" crlDER)
    ∧ files st' !! inDir d "crlnumber"
      = Some (FormatSerial (wrap64 (crCRLNumber res + 1)) +:+ LF).
Proof.
  intros H. unfold GenerateCRL in H.
  rewrite (bind_eq _ _ _ _ _ (gets_eq _ st)) in H.
  destruct (IsInitialized d st) eqn:Hinit; cbv iota in H; simpl negb in H;
    cbv iota in H; [|done].
  ok_step H caKey HcaKey.
  eapply pure_step_inv in HcaKey as [-> [(? & [= <-] & HcaKey)|(? & [=])]];
    [|by auto with readonly].
  ok_step H caCert HcaCert.
  eapply pure_step_inv in HcaCert as [-> [(? & [= <-] & HcaCert)|(? & [=])]];
    [|by auto with readonly].
  ok_step H index Hindex.
  eapply pure_step_inv in Hindex as [-> [(? & [= <-] & Hindex)|(? & [=])]];
    [|by auto with readonly].
  ok_step H crlNum HcrlNum.
  eapply pure_step_inv in HcrlNum as [-> [(? & [= <-] & HcrlNum)|(? & [=])]];
    [|by auto with readonly].
  ok_step H entries Hrev. apply lift_inv in Hrev as [-> Hrev].
  ok_step H aki Haki.
  eapply pure_step_inv in Haki as [-> [(? & [= <-] & Haki)|(? & [=])]]; [|done].
  destruct (isSigner caKey); simpl negb in H; cbv iota in H; [|done].
  ok_step H crlDER Hder.
  eapply pure_step_inv in Hder as [-> [(? & [= <-] & Hder)|(? & [=])]]; [|done].
  ok_step H u1 Hs1. apply stage_inv in Hs1 as [(_ & _ & Hf1 & _)|((? & [=]) & _)].
  ok_step H u2 Hs2. apply stage_inv in Hs2 as [(_ & _ & Hf2 & _)|((? & [=]) & _)].
  cbn [commitAll] in H. ok_step H u3 Hc.
  ok_step Hc u4 Hc1.
  apply commitOne_inv in Hc1 as [(_ & _ & _ & d1 & Hsrc1 & Hf3)|((? & [=]) & _)].
  ok_step Hc u5 Hc2.
  apply commitOne_inv in Hc2 as [(_ & _ & _ & d2 & Hsrc2 & Hf4)|((? & [=]) & _)].
  injection Hc as <-. injection H as <- <-.
  rewrite ?Join2 in *.
  rewrite Hf2, lookup_insert_ne, Hf1, lookup_insert_eq in Hsrc1 by path_ne.
  injection Hsrc1 as <-.
  rewrite Hf3, lookup_insert_ne, lookup_delete_ne, Hf2, lookup_insert_eq in Hsrc2
    by path_ne.
  injection Hsrc2 as <-.
  exists caKey, caCert, index, entries, aki, crlDER. simpl.
  split_and!; try done.
  - rewrite Hf4, lookup_insert_ne, lookup_delete_ne, Hf3, lookup_insert_eq
      by path_ne. done.
  - by rewrite Hf4, lookup_insert_eq.
Qed.

Lemma revokedEntriesOf_spec index entries :
  revokedEntriesOf index = Ok entries →
  Forall2 listsRevoked (filter (λ e, Status e = "revoked") index) entries.
Proof.
  revert entries. induction index as [|entry rest IH]; intros entries; simpl.
  - intros [= <-]. constructor.
  - case_bool_decide as Hst.
    + rewrite filter_cons_False by done. apply IH.
    + rewrite filter_cons_True by done.
      destruct (strconv.ParseInt16 (Serial entry)) as [|serial] eqn:Hserial; [done|].
      destruct (time_Parse (RevokedAt entry)) as [at_|] eqn:Hat; [|done].
      destruct (revokedEntriesOf rest) as [es|]; [|done].
      intros [= <-]. constructor; [|by apply IH].
      split; [done|]. split; [done|]. simpl.
      by destruct (ReasonCodes (RevocationReason entry)).
Qed.

Lemma wrap64_range z : inInt64 (wrap64 z).
Proof.
  unfold inInt64, wrap64, minInt64, maxInt64.
  pose proof (Z.mod_pos_bound (z + 2 ^ 63) (2 ^ 64) ltac:(lia)). lia.
Qed.

(** X10. The CRL that a successful GenerateCRL signs and writes to ca.crl
    lists exactly the revoked entries of the index, in their order: one
    entry each, with the serial and the revocation time parsed from the
    index entry and the code of its reason (0 when the reason is unknown);
    the count reported is the number of revoked index entries. *)
Theorem GenerateCRL_lists_revoked ft rnd now d hours st st' res :
  GenerateCRL ft rnd now d hours st = (st', Ok res) →
  ∃ caKey caCert index entries aki crlDER,
    (LoadIndex d st).2 = Ok index
    ∧ Forall2 listsRevoked (filter (λ e, Status e = "revoked") index) entries
    ∧ crRevokedCount res = length (filter (λ e, Status e = "revoked") index)
    ∧ x509_CreateRevocationList rnd
        (mkRevocationList entries (crCRLNumber res) now
           (now + durationOf hours hourNs) (sigAlgorithm caKey)
           [mkExtension [2; 5; 29; 35] false aki]) caCert caKey = Ok crlDER
    ∧ files st' !! inDir d "ca.crl" = Some (pem_EncodeToMemory "X509 CRL" crlDER).
Proof.
  intros (caKey & caCert & index & entries & aki & crlDER & _ & _ & _ & Hidx & _
          & Hrev & _ & Hder & Hres & Hcrl & _)%GenerateCRL_ok.
  apply revokedEntriesOf_spec in Hrev.
  exists caKey, caCert, index, entries, aki, crlDER.
  split_and!; try done.
  rewrite Hres. simpl. symmetry. by eapply Forall2_length.
Qed.

(** X11. The CRL number: a successful GenerateCRL gives the CRL the number
    it reads from crlnumber and leaves the next int64 value there, so that
    the next CRL carries the number plus one. *)
Theorem GenerateCRL_number ft rnd now d hours st st' res :
  GenerateCRL ft rnd now d hours st = (st', Ok res) →
  (ReadCounter (inDir d "crlnumber") st).2 = Ok (crCRLNumber res)
  ∧ (ReadCounter (inDir d "crlnumber") st').2 = Ok (wrap64 (crCRLNumber res + 1))
  ∧ (crCRLNumber res < maxInt64 →
     ∀ ft' rnd' now' hours' st'' res',
       GenerateCRL ft' rnd' now' d hours' st' = (st'', Ok res') →
       crCRLNumber res' = crCRLNumber res + 1).
Proof.
  intros H. pose proof H as Hok.
  apply GenerateCRL_ok in Hok
    as (caKey & caCert & index & entries & aki & crlDER & _ & _ & _ & _ & Hnum
        & _ & _ & _ & _ & _ & Hfile).
  assert (Hnext : (ReadCounter (inDir d "crlnumber") st').2
                  = Ok (wrap64 (crCRLNumber res + 1))).
  { unfold ReadCounter, onErr, os_ReadFile. unfold mbind, IO_bind, bind.
    rewrite Hfile. simpl. unfold FormatSerial.
    destruct (Sprintf02x_plain (wrap64 (crCRLNumber res + 1))) as [Hplain Hne].
    rewrite TrimSpace_line by done.
    by rewrite ParseInt16_Sprintf02x_int64 by apply wrap64_range. }
  split; [done|]. split; [done|].
  intros Hlt ft' rnd' now' hours' st'' res' H'.
  apply GenerateCRL_ok in H'
    as (? & ? & ? & ? & ? & ? & _ & _ & _ & _ & Hnum' & _).
  rewrite Hnext in Hnum'. injection Hnum' as <-.
  apply wrap64_id. split; [|lia].
  assert (inInt64 (crCRLNumber res)) as [Hlo _]; [|lia].
  clear -Hnum. unfold ReadCounter, onErr, os_ReadFile in Hnum.
  unfold mbind, IO_bind, bind in Hnum.
  destruct (files st !! inDir d "crlnumber"); simpl in Hnum;
    [|by case_bool_decide].
  destruct (strconv.ParseInt16 _) as [|v] eqn:Hparse; simpl in Hnum; [done|].
  injection Hnum as <-. by eapply ParseInt16_range.
Qed.

(** The loop over the index stops at the first revoked entry whose serial
    or revocation time does not parse, with the error text of that entry. *)
Lemma revokedEntriesOf_fails index bad :
  bad ∈ index →
  Status bad = "revoked" →
  (∃ err, strconv.ParseInt16 (Serial bad) = inl err)
  ∨ (∃ err, time_Parse (RevokedAt bad) = Err err) →
  ∃ entry e,
    entry ∈ index ∧ Status entry = "revoked"
    ∧ revokedEntriesOf index = Err e
    ∧ ((∃ err, strconv.ParseInt16 (Serial entry) = inl err
               ∧ e = "failed to parse serial " +:+ Serial entry +:+ ": "
                     +:+ strconv.numErrorText strconv_Quote (Serial entry) err)
       ∨ (∃ err, time_Parse (RevokedAt entry) = Err err
                 ∧ e = "failed to parse revocation time for serial "
                       +:+ Serial entry +:+ ": " +:+ err)).
Proof.
  intros Hin Hst Hbad.
  induction index as [|entry rest IH]; [by apply elem_of_nil in Hin|].
  assert (Hrest : bad ∈ rest →
            ∃ entry0 e, entry0 ∈ entry :: rest ∧ Status entry0 = "revoked"
              ∧ revokedEntriesOf rest = Err e
              ∧ ((∃ err, strconv.ParseInt16 (Serial entry0) = inl err
                    ∧ e = "failed to parse serial " +:+ Serial entry0 +:+ ": "
                          +:+ strconv.numErrorText strconv_Quote (Serial entry0) err)
                 ∨ (∃ err, time_Parse (RevokedAt entry0) = Err err
                      ∧ e = "failed to parse revocation time for serial "
                            +:+ Serial entry0 +:+ ": " +:+ err))).
  { intros Hr. destruct (IH Hr) as (entry0 & e & Hin0 & Hrest).
    exists entry0, e. split; [by right|done]. }
  simpl. case_bool_decide as Hentry.
  - apply elem_of_cons in Hin as [->|Hin]; [done|]. by apply Hrest.
  - destruct (strconv.ParseInt16 (Serial entry)) as [err|serial] eqn:Hserial.
    { exists entry. eexists. split; [by left|]. split; [done|].
      split; [done|]. left. by exists err. }
    destruct (time_Parse (RevokedAt entry)) as [at_|err] eqn:Hat.
    2:{ exists entry. eexists. split; [by left|]. split; [done|].
        split; [done|]. right. by exists err. }
    apply elem_of_cons in Hin as [->|Hin].
    { destruct Hbad as [[err Herr]|[err Herr]]; congruence. }
    destruct (Hrest Hin) as (entry0 & e & Hin0 & Hst0 & Hrev & Htext).
    exists entry0, e. rewrite Hrev. done.
Qed.


End CRLProps.

(** ** Issuing *)

Section SignProps.
Context `{L : GoLib}.
Import pathFacts.

(** X13. SignCSR, whatever its outcome and the faults, changes no file
    outside certs/ but serial, index.json and their .tmp files: the CA key
    and certificate, crlnumber and ca.crl are as before. It creates no
    directory, and removes none but one at a .tmp path (the cleanup of a
    failed run takes an empty directory of such a name away). *)
Theorem SignCSR_leaves_rest ft rnd now d csrPEM csrPath days st st' r :
  SignCSR ft rnd now d csrPEM csrPath days st = (st', r) →
  dirsButTmp st st'
  ∧ ∀ q, underCerts d q = false →
         q ∉ [inDir d "serial"; inDir d "index.json";
              inDir d "serial" +:+ ".tmp"; inDir d "index.json" +:+ ".tmp"] →
         files st' !! q = files st !! q.
Proof.
  intros H. unfold SignCSR in H.
  rewrite (bind_eq _ _ _ _ _ (gets_eq _ st)) in H.
  assert (Hsame : dirsButTmp st st
                  ∧ ∀ q, underCerts d q = false →
                         q ∉ [inDir d "serial"; inDir d "index.json";
                              inDir d "serial" +:+ ".tmp";
                              inDir d "index.json" +:+ ".tmp"] →
                         files st !! q = files st !! q).
  { split; [by apply dirsButTmp_same|done]. }
  destruct (IsInitialized d st) eqn:Hinit; simpl in H;
    [|by injection H as <- <-].
  destruct (pem_Decode csrPEM) as [[typ der]|]; [|by injection H as <- <-].
  destruct (x509_ParseCertificateRequest der) as [csr|e0];
    [|by injection H as <- <-].
  destruct (CheckSignature csr) as [e0|] eqn:Hsig; [by injection H as <- <-|].
  inv_bind H u st1 Hm; apply lift_inv in Hm as [-> Hkey]; [|done].
  destruct u.
  pure_step H caKey HcaKey.
  pure_step H caCert HcaCert.
  pure_step H serialVal Hserial.
  pure_step H subjectSKI Hski.
  pure_step H certDER HcertDER.
  pure_step H index Hindex.
  pure_step H indexData HindexData.
  stage_step H Hf1 Hd1; try frame_closer.
  stage_step H Hf2 Hd2; try frame_closer.
  stage_step H Hf3 Hd3; try frame_closer.
  apply bind_inv in H as [(u & st4 & Hm & H)|(? & Hm & ->)].
  2:{ commit_step Hm d1 Hs1 Hf4 Hd4; try frame_closer.
      commit_step Hm d2 Hs2 Hf5 Hd5; try frame_closer.
      commit_step Hm d3 Hs3 Hf6 Hd6; try frame_closer. }
  commit_step Hm d1 Hs1 Hf4 Hd4; try frame_closer.
  commit_step Hm d2 Hs2 Hf5 Hd5; try frame_closer.
  commit_step Hm d3 Hs3 Hf6 Hd6; try frame_closer.
  injection Hm as <-. injection H as <- <-.
  frame_closer.
Qed.

Lemma InitCA_rejects ft rnd now d subject keyAlgo days st st' e :
  String.prefix "Error: " e = true →
  InitCA ft rnd now d subject keyAlgo days st = (st', Err e) → st' = st.
Proof.
  intros Hpre H. unfold InitCA in H.
  rewrite (bind_eq _ _ _ _ _ (gets_eq _ st)) in H.
  destruct (IsInitialized d st) eqn:Hinit; cbv iota in H;
    [by injection H as <- _|].
  pure_step H privKey HprivKey.
  pure_step H ski Hski.
  pure_step H certDER HcertDER.
  apply bind_inv in H as [(u & st0 & Hm & H)|(? & Hm & ?)];
    apply InitDataDir_inv in Hm as (Hf0 & _ & [([=] & _ & _)|[? ?]]);
    simplify_eq.
  pure_step H keyDER HkeyDER.
  stage_step H Hf1 Hd1. stage_step H Hf2 Hd2. stage_step H Hf3 Hd3.
  stage_step H Hf4 Hd4. stage_step H Hf5 Hd5.
  cbn [commitAll] in H.
  apply bind_inv in H as [(u0 & st6 & Hc & H)|(? & Hc & ?)]; [done|].
  simplify_eq.
  commit_step Hc d1 Hs1 Hf6 Hd6. commit_step Hc d2 Hs2 Hf7 Hd7.
  commit_step Hc d3 Hs3 Hf8 Hd8. commit_step Hc d4 Hs4 Hf9 Hd9.
  commit_step Hc d5 Hs5 Hf10 Hd10.
Qed.

Lemma prefix_head a p c e :
  String.prefix (String a p) (String c e) = true → a = c.
Proof. simpl. by destruct (ascii_dec a c). Qed.

Lemma SignCSR_rejects ft rnd now d csrPEM csrPath days st st' e :
  String.prefix "Error: " e = true →
  SignCSR ft rnd now d csrPEM csrPath days st = (st', Err e) → st' = st.
Proof.
  intros Hpre H.
  apply SignCSR_inv in H
    as [[-> _]|[(e' & [= <-] & He & _)|(res & ? & ? & ? & ? & ? & [=] & _)]];
    [done|].
  destruct e as [|c e]; [done|].
  apply prefix_head in Hpre, He. congruence.
Qed.

Lemma RevokeCert_rejects ft now d serialHex reason st st' e :
  String.prefix "Error: " e = true →
  RevokeCert ft now d serialHex reason st = (st', Err e) → st' = st.
Proof.
  intros Hpre H. unfold RevokeCert in H.
  rewrite (bind_eq _ _ _ _ _ (gets_eq _ st)) in H.
  destruct (IsInitialized d st) eqn:Hinit; cbv iota in H; simpl negb in H;
    cbv iota in H; [|by injection H as <- _].
  pure_step H index Hindex.
  destruct (findSerial index serialHex) as [[found entry]|] eqn:Hfound;
    [|by injection H as <- _].
  case_bool_decide as Hst; [by injection H as <- _|].
  apply wrapping_inv in H as [(u & _ & [=])|(e' & _ & [= ->])].
  done.
Qed.

Lemma GenerateCRL_rejects ft rnd now d hours st st' e :
  String.prefix "Error: " e = true →
  GenerateCRL ft rnd now d hours st = (st', Err e) → st' = st.
Proof.
  intros Hpre H. unfold GenerateCRL in H.
  rewrite (bind_eq _ _ _ _ _ (gets_eq _ st)) in H.
  destruct (IsInitialized d st) eqn:Hinit; cbv iota in H; simpl negb in H;
    cbv iota in H; [|by injection H as <- _].
  pure_step H caKey HcaKey.
  pure_step H caCert HcaCert.
  pure_step H index Hindex.
  pure_step H crlNum HcrlNum.
  apply bind_inv in H as [(revokedEntries & st0 & Hm & H)|(? & Hm & ?)];
    apply lift_inv in Hm as [-> Hrev]; [|done].
  pure_step H akiValue Haki.
  destruct (isSigner caKey); simpl negb in H; cbv iota in H;
    [|by injection H as <- _].
  pure_step H crlDER HcrlDER.
  stage_step H Hf1 Hd1. stage_step H Hf2 Hd2.
  cbn [commitAll] in H.
  apply bind_inv in H as [(u0 & st3 & Hc & H)|(? & Hc & ?)]; [done|].
  simplify_eq.
  commit_step Hc d1 Hs1 Hf3 Hd3. commit_step Hc d2 Hs2 Hf4 Hd4.
Qed.

(** X14. Validate before mutate: when InitCA, SignCSR, RevokeCert or
    GenerateCRL rejects a call with one of its "Error: ..." texts, it has
    not called the file system: the store is as it was. *)
Theorem rejections_change_nothing ft rnd now d st st' e :
  String.prefix "Error: " e = true →
  (∀ subject keyAlgo days,
     InitCA ft rnd now d subject keyAlgo days st = (st', Err e) → st' = st)
  ∧ (∀ csrPEM csrPath days,
       SignCSR ft rnd now d csrPEM csrPath days st = (st', Err e) → st' = st)
  ∧ (∀ serialHex reason,
       RevokeCert ft now d serialHex reason st = (st', Err e) → st' = st)
  ∧ (∀ hours, GenerateCRL ft rnd now d hours st = (st', Err e) → st' = st).
Proof.
  intros Hpre. split_and!; intros.
  - by eapply InitCA_rejects.
  - by eapply SignCSR_rejects.
  - by eapply RevokeCert_rejects.
  - by eapply GenerateCRL_rejects.
Qed.

End SignProps.

(** ** Initialization *)

Section InitProps.
Context `{L : GoLib} {laws : GoLibLaws L}.
Import pathFacts.

(** What a successful InitCA has generated and written. *)
Lemma InitCA_ok ft rnd now d subject keyAlgo days st st' res :
  InitCA ft rnd now d subject keyAlgo days st = (st', Ok res) →
  ∃ privKey ski certDER keyDER,
    IsInitialized d st = false
    ∧ generateKeyPair rnd keyAlgo = Ok privKey
    ∧ computeSKI (publicKey privKey) = Ok ski
    ∧ x509_CreateCertificate rnd
        (mkCertificate 1 subject emptyName now
           (now + durationOf (wrap64 (days * 24)) hourNs)
           (Z.lor KeyUsageCertSign KeyUsageCRLSign) true true ski "" [] [] []
           (sigAlgorithm privKey) NilPublicKey)
        (mkCertificate 1 subject emptyName now
           (now + durationOf (wrap64 (days * 24)) hourNs)
           (Z.lor KeyUsageCertSign KeyUsageCRLSign) true true ski "" [] [] []
           (sigAlgorithm privKey) NilPublicKey)
        (publicKey privKey) privKey = Ok certDER
    ∧ x509_MarshalPKCS8PrivateKey privKey = Ok keyDER
    ∧ res = mkInitResult (FormatDN subject) (AlgoDisplayName keyAlgo)
              (FormatSerial 1) (now + durationOf (wrap64 (days * 24)) hourNs)
              (inDir d "ca.crt") (inDir d "ca.key")
    ∧ files st' !! inDir d "ca.key"
      = Some (pem_EncodeToMemory "PRIVATE KEY" keyDER)
    ∧ files st' !! inDir d "ca.crt"
      = Some (pem_EncodeToMemory "CERTIFICATE" certDER)
    ∧ files st' !! inDir d "serial" = Some (FormatSerial 2 +:+ LF)
    ∧ files st' !! inDir d "crlnumber" = Some (FormatSerial 1 +:+ LF)
    ∧ files st' !! inDir d "index.json" = Some ("[]" +:+ LF)
    ∧ (∀ q, q ∈ initTmpPaths d → files st' !! q = None)
    ∧ inDir d "certs" ∈ dirs st'.
Proof.
  intros H. unfold InitCA in H.
  rewrite (bind_eq _ _ _ _ _ (gets_eq _ st)) in H.
  destruct (IsInitialized d st) eqn:Hinit; cbv iota in H; [done|].
  ok_step H privKey Hkey.
  eapply pure_step_inv in Hkey as [-> [(? & [= <-] & Hkey)|(? & [=])]]; [|done].
  ok_step H ski Hski.
  eapply pure_step_inv in Hski as [-> [(? & [= <-] & Hski)|(? & [=])]]; [|done].
  ok_step H certDER Hder.
  eapply pure_step_inv in Hder as [-> [(? & [= <-] & Hder)|(? & [=])]]; [|done].
  ok_step H u0 Hdir.
  apply InitDataDir_inv in Hdir as (Hf0 & _ & [(_ & Hcerts & _)|[? [=]]]).
  ok_step H keyDER HkeyDER.
  eapply pure_step_inv in HkeyDER as [-> [(? & [= <-] & HkeyDER)|(? & [=])]];
    [|done].
  ok_step H u1 Hs1. apply stage_inv in Hs1 as [(_ & _ & Hf1 & Hd1)|((? & [=]) & _)].
  ok_step H u2 Hs2. apply stage_inv in Hs2 as [(_ & _ & Hf2 & Hd2)|((? & [=]) & _)].
  ok_step H u3 Hs3. apply stage_inv in Hs3 as [(_ & _ & Hf3 & Hd3)|((? & [=]) & _)].
  ok_step H u4 Hs4. apply stage_inv in Hs4 as [(_ & _ & Hf4 & Hd4)|((? & [=]) & _)].
  ok_step H u5 Hs5. apply stage_inv in Hs5 as [(_ & _ & Hf5 & Hd5)|((? & [=]) & _)].
  cbn [commitAll] in H. ok_step H u6 Hc.
  ok_step Hc v1 Hc1.
  apply commitOne_inv in Hc1
    as [(_ & _ & Hd6 & d1 & Hsrc1 & Hf6)|((? & [=]) & _)].
  ok_step Hc v2 Hc2.
  apply commitOne_inv in Hc2
    as [(_ & _ & Hd7 & d2 & Hsrc2 & Hf7)|((? & [=]) & _)].
  ok_step Hc v3 Hc3.
  apply commitOne_inv in Hc3
    as [(_ & _ & Hd8 & d3 & Hsrc3 & Hf8)|((? & [=]) & _)].
  ok_step Hc v4 Hc4.
  apply commitOne_inv in Hc4
    as [(_ & _ & Hd9 & d4 & Hsrc4 & Hf9)|((? & [=]) & _)].
  ok_step Hc v5 Hc5.
  apply commitOne_inv in Hc5
    as [(_ & _ & Hd10 & d5 & Hsrc5 & Hf10)|((? & [=]) & _)].
  injection Hc as <-. injection H as <- <-.
  rewrite ?Join2 in *.
  assert (Some d1 = Some (pem_EncodeToMemory "PRIVATE KEY" keyDER)) as [= ->]
    by staged_data.
  assert (Some d2 = Some (pem_EncodeToMemory "CERTIFICATE" certDER)) as [= ->]
    by staged_data.
  assert (Some d3 = Some (FormatSerial 2 +:+ LF)) as [= ->] by staged_data.
  assert (Some d4 = Some (FormatSerial 1 +:+ LF)) as [= ->] by staged_data.
  assert (Some d5 = Some ("[]" +:+ LF)) as [= ->] by staged_data.
  exists privKey, ski, certDER, keyDER.
  split_and!; try done.
  - lookup_chain. by rewrite lookup_insert_eq.
  - lookup_chain. by rewrite lookup_insert_eq.
  - lookup_chain. by rewrite lookup_insert_eq.
  - lookup_chain. by rewrite lookup_insert_eq.
  - lookup_chain. by rewrite lookup_insert_eq.
  - intros q Hq. unfold initTmpPaths in Hq.
    repeat (apply elem_of_cons in Hq as [->|Hq];
            [lookup_chain; by rewrite lookup_delete_eq|]).
    by apply elem_of_nil in Hq.
  - by rewrite Hd10, Hd9, Hd8, Hd7, Hd6, Hd5, Hd4, Hd3, Hd2, Hd1.
Qed.

(** X15. A successful InitCA leaves an initialized CA: IsInitialized holds,
    the serial counter reads 2 and the CRL number 1, the index loads as the
    empty list and lists no certificate, no .tmp file is left, the certs
    directory exists, the serial reported for the root certificate is "01",
    and the paths reported are those of ca.crt and ca.key as filepath.Join
    cleans them. Every further InitCA on the directory is rejected and
    leaves the store as it is. *)
Theorem InitCA_establishes ft rnd now d subject keyAlgo days st st' res :
  InitCA ft rnd now d subject keyAlgo days st = (st', Ok res) →
  IsInitialized d st' = true
  ∧ ReadCounter (inDir d "serial") st' = (st', Ok 2)
  ∧ ReadCounter (inDir d "crlnumber") st' = (st', Ok 1)
  ∧ LoadIndex d st' = (st', Ok [])
  ∧ (∀ now', ListCerts now' d st' = (st', Ok []))
  ∧ (∀ q, q ∈ initTmpPaths d → files st' !! q = None)
  ∧ inDir d "certs" ∈ dirs st'
  ∧ irSerial res = "01"
  ∧ irCertPath res = inDir d "ca.crt" ∧ irKeyPath res = inDir d "ca.key"
  ∧ ∀ ft' rnd' now' subject' keyAlgo' days',
      InitCA ft' rnd' now' d subject' keyAlgo' days' st'
      = (st', Err ("Error: CA already initialized at " +:+ d)).
Proof using laws.
  intros (privKey & ski & certDER & keyDER & _ & _ & _ & _ & _ & -> & Hkey & Hcrt
          & Hserial & Hnum & Hidx & Htmp & Hdir)%InitCA_ok.
  assert (Hinit : IsInitialized d st' = true).
  { unfold IsInitialized, statOk. rewrite !Join2, Hkey, Hcrt.
    by rewrite !bool_decide_eq_true_2 by eauto. }
  assert (Hload : LoadIndex d st' = (st', Ok [])).
  { apply io_eq; [apply LoadIndex_store|].
    eapply LoadIndex_file; [exact Hidx|apply json_Unmarshal_empty]. }
  split_and!; try done.
  - apply io_eq; [apply ReadCounter_store|].
    apply ReadCounter_line; [done|]. unfold maxInt64. lia.
  - apply io_eq; [apply ReadCounter_store|].
    apply ReadCounter_line; [done|]. unfold maxInt64. lia.
  - intros now'. unfold ListCerts.
    rewrite (bind_eq _ _ _ _ _ (gets_eq _ st')), Hinit. simpl.
    by erewrite bind_eq; [|apply wrapping_ok, Hload].
  - intros. by apply InitCA_already_initialized.
Qed.

End InitProps.

(** ** The certificate that SignCSR issues *)

Section IssueProps.
Context `{L : GoLib} {laws : GoLibLaws L}.
Import pathFacts counterFacts serialFacts.

(** ReadCounter reads a line that FormatSerial wrote, on all of int64. *)
Lemma ReadCounter_int64 path st v :
  files st !! path = Some (FormatSerial v +:+ LF) → inInt64 v →
  (ReadCounter path st).2 = Ok v.
Proof.
  intros Hf Hv. unfold ReadCounter, onErr, os_ReadFile.
  unfold mbind, IO_bind, bind. rewrite Hf. simpl. unfold FormatSerial.
  destruct (Sprintf02x_plain v) as [Hplain Hne].
  rewrite TrimSpace_line by done. by rewrite ParseInt16_Sprintf02x_int64.
Qed.

(** X16. The certificate of a successful SignCSR: it is made for the
    subject, the public key and the alternative names of the CSR, with the
    serial read from the counter, valid from now for the given days, not a
    CA, with the key identifier of the CA certificate as its authority, and
    signed with the CA key; certs/<serial>.pem holds it; the index gains
    one entry at its end, active, with that serial, subject and times (the
    subject as encoding/json writes it: a byte that is not valid UTF-8
    becomes U+FFFD); and the counter is one higher. *)
Theorem SignCSR_records_certificate ft rnd now d csrPEM csrPath days st st' res :
  SignCSR ft rnd now d csrPEM csrPath days st = (st', Ok res) →
  ∃ csr caKey caCert v ski certDER index,
    decodedCSR csrPEM = Some csr
    ∧ (LoadPrivateKey (inDir d "ca.key") st).2 = Ok caKey
    ∧ (LoadCertificate (inDir d "ca.crt") st).2 = Ok caCert
    ∧ (ReadCounter (inDir d "serial") st).2 = Ok v
    ∧ (LoadIndex d st).2 = Ok index
    ∧ computeSKI (csrPublicKey csr) = Ok ski
    ∧ x509_CreateCertificate rnd
        (mkCertificate v (csrSubject csr) emptyName now (srNotAfter res)
           (if isRSA (csrPublicKey csr)
            then Z.lor KeyUsageDigitalSignature KeyUsageKeyEncipherment
            else KeyUsageDigitalSignature)
           true false ski (certSubjectKeyId caCert) (csrDNSNames csr)
           (csrIPAddresses csr) (csrEmailAddresses csr) (sigAlgorithm caKey)
           NilPublicKey)
        caCert (csrPublicKey csr) caKey = Ok certDER
    ∧ srSerial res = FormatSerial v
    ∧ srSubject res = FormatDN (csrSubject csr)
    ∧ srNotAfter res = now + durationOf (wrap64 (days * 24)) hourNs
    ∧ srCertPath res = inDir d (certName (srSerial res))
    ∧ files st' !! srCertPath res = Some (pem_EncodeToMemory "CERTIFICATE" certDER)
    ∧ (LoadIndex d st').2
      = Ok (index ++ [mkIndexEntry (srSerial res) (utf8.coerce (srSubject res))
                        (time_Format now) (time_Format (srNotAfter res))
                        "active" "" ""])
    ∧ (ReadCounter (inDir d "serial") st').2 = Ok (wrap64 (v + 1)).
Proof using laws.
  intros (csr & caKey & caCert & v & ski & certDER & index & data & _ & Hcsr & _ & _
          & Hkey & Hcert & Hv & Hski & Hder & Hidx & Hdata & -> & Hfile & Hf
          & Hserial)%SignCSR_ok.
  exists csr, caKey, caCert, v, ski, certDER, index. simpl.
  split_and!; try done.
  - rewrite (LoadIndex_written _ _ _ _ Hf Hdata), fmap_app.
    rewrite (jsonEntry_fixed index) by by eapply LoadIndex_valid.
    unfold jsonEntry. simpl. rewrite !time_Format_valid.
    by rewrite utf8Facts.coerce_ascii by apply FormatSerial_ascii.
  - apply ReadCounter_int64; [done|]. apply wrap64_range.
Qed.

(** X17. Serial numbers are not reused: after InitCA on a directory with
    nothing under certs/ and any sequence of successful SignCSR calls, the
    serials of the index entries are pairwise different and different from
    the serial "01" of the root certificate, and every entry of the index
    has its certificate file certs/<serial>.pem. *)
Theorem issued_serials_distinct ft rnd now d subject keyAlgo days st0 st1 res reqs st2 :
  (∀ q, underCerts d q = true → files st0 !! q = None) →
  InitCA ft rnd now d subject keyAlgo days st0 = (st1, Ok res) →
  signAll d reqs st1 = Some st2 →
  2 + Z.of_nat (length reqs) ≤ maxInt64 →
  ∃ index,
    (LoadIndex d st2).2 = Ok index
    ∧ NoDup (Serial <$> index)
    ∧ (irSerial res ∉ Serial <$> index)
    ∧ (∀ entry, entry ∈ index →
                is_Some (files st2 !! inDir d (certName (Serial entry)))).
Proof using laws.
  intros Hfresh Hinit Hsigns Hn.
  pose proof Hinit as Hres.
  apply InitCA_ok in Hres as (? & ? & ? & ? & _ & _ & _ & _ & _ & -> & _).
  apply InitCA_inv in Hinit as [[[=] _]|(_ & _ & Hidx & Hserial & Hcerts)].
  assert (H0 : issued d 0 st1).
  { split; [done|]. split.
    - exists []. split; [|done].
      eapply LoadIndex_file; [exact Hidx|apply json_Unmarshal_empty].
    - intros q Hq. rewrite (Hcerts q Hq), (Hfresh q Hq).
      split; [by intros [? [=]]|]. by intros ?%elem_of_nil. }
  pose proof (signAll_issued d reqs 0 st1 st2 H0) as Hinv.
  simpl in Hinv. specialize (Hinv ltac:(lia) Hsigns).
  destruct Hinv as (_ & (index & Hidx2 & Hserials) & Hcerts2).
  exists index. split; [done|]. rewrite Hserials. split; [|split].
  - apply NoDup_fmap_2_strong; [|apply NoDup_seqZ].
    intros a b Ha%elem_of_seqZ Hb%elem_of_seqZ Heq.
    apply counterFacts.Sprintf02x_inj in Heq; [done|lia..].
  - cbn [irSerial]. intros (k & Heq & Hk%elem_of_seqZ)%list_elem_of_fmap.
    unfold FormatSerial in Heq.
    apply counterFacts.Sprintf02x_inj in Heq; [lia|unfold maxInt64; lia|lia].
  - intros entry Hentry.
    assert (Hs : Serial entry ∈ Serial <$> index)
      by (apply list_elem_of_fmap; eauto).
    rewrite Hserials in Hs. apply list_elem_of_fmap in Hs as (k & -> & Hk).
    apply Hcerts2; [apply underCerts_certName|].
    unfold issuedPaths. apply list_elem_of_fmap. eauto.
Qed.

End IssueProps.

(** ** From a revocation to the CRL and to the verification report *)

Section RevocationChain.
Context `{L : GoLib} {laws : GoLibLaws L}.

(** The reasons with a code are ASCII texts: what encoding/json does with a
    reason does not change its code. *)
Lemma coerce_literal reason text :
  strings.isASCII text = true →
  bool_decide (utf8.coerce reason = text) = bool_decide (reason = text).
Proof.
  intros Htext. apply bool_decide_ext. split.
  - by apply utf8Facts.coerce_eq_ascii.
  - intros ->. by apply utf8Facts.coerce_ascii.
Qed.

Lemma ReasonCodes_coerce reason :
  ReasonCodes (utf8.coerce reason) = ReasonCodes reason.
Proof. unfold ReasonCodes. by rewrite !coerce_literal. Qed.

(** X18. A revoked certificate is on the next CRL: when GenerateCRL succeeds
    on the store a successful RevokeCert has left, the list it signs and
    writes to ca.crl has an entry with the number the revoked serial parses
    to, the time of the revocation as index.json carries it, and the code
    of the reason given (0 for a reason without a code). *)
Theorem revoked_listed_in_CRL
    ft ft' rnd now now' d serialHex reason hours st st' st'' res :
  RevokeCert ft now d serialHex reason st = (st', Ok tt) →
  GenerateCRL ft' rnd now' d hours st' = (st'', Ok res) →
  ∃ caKey caCert entries aki crlDER r,
    r ∈ entries
    ∧ strconv.ParseInt16 serialHex = inr (rleSerialNumber r)
    ∧ time_Parse (time_Format now) = Ok (rleRevocationTime r)
    ∧ rleReasonCode r = default 0 (ReasonCodes reason)
    ∧ (0 < crRevokedCount res)%nat
    ∧ x509_CreateRevocationList rnd
        (mkRevocationList entries (crCRLNumber res) now'
           (now' + durationOf hours hourNs) (sigAlgorithm caKey)
           [mkExtension [2; 5; 29; 35] false aki]) caCert caKey = Ok crlDER
    ∧ files st'' !! inDir d "ca.crl" = Some (pem_EncodeToMemory "X509 CRL" crlDER).
Proof using laws.
  intros (_ & index & i & entry & data & Hidx & Hfound & Hst & Hdata & Hf & _
          & _)%RevokeCert_ok
         (caKey & caCert & index' & entries & aki & crlDER & _ & _ & _ & Hidx' & _
          & Hrev & _ & Hder & Hres & Hcrl & _)%GenerateCRL_ok.
  pose proof (findSerial_Some _ _ _ _ Hfound) as [Hi Hserial].
  assert (Hload : (LoadIndex d st').2
            = Ok (<[i := revoked entry (time_Format now) (utf8.coerce reason)]>
                    index)).
  { by eapply LoadIndex_revoked. }
  rewrite Hload in Hidx'. injection Hidx' as <-.
  apply revokedEntriesOf_spec in Hrev.
  assert (Hin : revoked entry (time_Format now) (utf8.coerce reason)
                ∈ filter (λ e, Status e = "revoked")
                    (<[i := revoked entry (time_Format now) (utf8.coerce reason)]>
                       index)).
  { apply list_elem_of_filter. split; [done|].
    apply list_elem_of_lookup. exists i. apply list_lookup_insert_eq.
    by eapply lookup_lt_Some. }
  apply list_elem_of_lookup in Hin as [j Hj].
  destruct (Forall2_lookup_l _ _ _ _ _ Hrev Hj) as (r & Hr & Hp & Ht & Hc).
  simpl in Hp, Ht, Hc. rewrite Hserial in Hp. rewrite ReasonCodes_coerce in Hc.
  exists caKey, caCert, entries, aki, crlDER, r.
  split_and!; try done.
  - by eapply list_elem_of_lookup_2.
  - rewrite Hres. simpl. apply lookup_lt_Some in Hr. lia.
Qed.

(** X19. The reason a verification report shows: for the first CRL entry
    with the serial of the certificate, built from an index entry as
    GenerateCRL does, findRevoked returns "REVOKED" with the reason of the
    index entry when that is one of the valid reasons, with "unspecified"
    otherwise, and with the revocation time. *)
Theorem revocation_reason_shown entry r before after :
  listsRevoked entry r →
  (∀ r', r' ∈ before → rleSerialNumber r' ≠ rleSerialNumber r) →
  findRevoked (before ++ r :: after) (rleSerialNumber r)
  = Some ("REVOKED (reason: "
          +:+ (if decide (RevocationReason entry ∈ ValidReasons)
               then RevocationReason entry else "unspecified")
          +:+ ", date: " +:+ time_Format (rleRevocationTime r) +:+ ")").
Proof.
  intros (_ & _ & Hcode) Hbefore.
  induction before as [|x before IH]; simpl.
  - rewrite Z.eqb_refl, Hcode. clear.
    destruct entry as [? ? ? ? ? ? reason]. cbn [RevocationReason].
    destruct (decide (reason = "unspecified")) as [->|H1]; [by vm_compute|].
    destruct (decide (reason = "keyCompromise")) as [->|H2]; [by vm_compute|].
    destruct (decide (reason = "affiliationChanged")) as [->|H3]; [by vm_compute|].
    destruct (decide (reason = "superseded")) as [->|H4]; [by vm_compute|].
    destruct (decide (reason = "cessationOfOperation")) as [->|H5];
      [by vm_compute|].
    unfold ReasonCodes.
    rewrite (bool_decide_eq_false_2 _ H1), (bool_decide_eq_false_2 _ H2),
      (bool_decide_eq_false_2 _ H3), (bool_decide_eq_false_2 _ H4),
      (bool_decide_eq_false_2 _ H5).
    simpl.
    rewrite decide_False; [done|]. unfold ValidReasons.
    rewrite !not_elem_of_cons. split_and!; try done. apply not_elem_of_nil.
  - destruct (Z.eqb_spec (rleSerialNumber x) (rleSerialNumber r)) as [Heq|_].
    + exfalso. by apply (Hbefore x); [left|].
    + apply IH. intros r' Hr'. apply Hbefore. by right.
Qed.

End RevocationChain.

(** ** Verification against a CRL; the operations that only read *)

Section VerifyProps.
Context `{L : GoLib}.

Lemma findRevoked_None entries serial :
  findRevoked entries serial = None ↔ serial ∉ (rleSerialNumber <$> entries).
Proof.
  induction entries as [|x es IH]; simpl.
  - split; [intros _; apply not_elem_of_nil | done].
  - destruct (Z.eqb_spec (rleSerialNumber x) serial) as [Heq|Hne].
    + split; [done|]. intros Hn. exfalso. apply Hn. rewrite Heq. left.
    + rewrite IH, not_elem_of_cons. split; [by split|by intros [_ ?]].
Qed.

Lemma findRevoked_Some entries serial status :
  findRevoked entries serial = Some status →
  String.prefix "REVOKED (reason: " status = true.
Proof.
  induction entries as [|x es IH]; simpl; [done|].
  destruct (rleSerialNumber x =? serial); [|done]. intros [= <-].
  by apply prefix_weaken.
Qed.

(** X20. Verification with a ca.crl file in the data directory, for a
    certificate whose signature verifies. A CRL that does not load makes
    VerifyCert fail with "failed to load CRL: ..." instead of a report. A
    CRL that loads gives the status "OK (not revoked)" when no entry has the
    serial of the certificate, and otherwise a status "REVOKED (reason:
    ..." and a report that is not valid, whatever the validity period. The
    store is as before in every case. *)
Theorem VerifyCert_with_CRL
    (now : Z) (dataDir certPEM certPath : string) (st : Store)
    (typ der : string) (cert caCert : Certificate) :
  IsInitialized dataDir st = true →
  pem_Decode certPEM = Some (typ, der) →
  x509_ParseCertificate der = Ok cert →
  (LoadCertificate (inDir dataDir "ca.crt") st).2 = Ok caCert →
  CheckSignatureFrom cert caCert = None →
  statOk (inDir dataDir "ca.crl") st = true →
  (∀ e, (LoadCRL (inDir dataDir "ca.crl") st).2 = Err e →
        VerifyCert now dataDir certPEM certPath st
        = (st, Err ("failed to load CRL: " +:+ e)))
  ∧ (∀ crl, (LoadCRL (inDir dataDir "ca.crl") st).2 = Ok crl →
       ∃ r, VerifyCert now dataDir certPEM certPath st = (st, Ok r)
            ∧ SigOK r = true
            ∧ (certSerialNumber cert
                 ∉ (rleSerialNumber <$> RevokedCertificateEntries crl) →
               RevStatus r = "OK (not revoked)")
            ∧ (certSerialNumber cert
                 ∈ (rleSerialNumber <$> RevokedCertificateEntries crl) →
               Valid r = false
               ∧ String.prefix "REVOKED (reason: " (RevStatus r) = true)).
Proof.
  intros Hinit Hpem Hparse Hca Hsig Hstat.
  pose proof (io_eq _ _ _ _ (LoadCertificate_store _ st) Hca) as Hload.
  assert (Hrun :
    VerifyCert now dataDir certPEM certPath st
    = ('(isRevoked, revStatus) ←
         (crl ← wrapping "failed to load CRL" (LoadCRL (inDir dataDir "ca.crl"));
          match findRevoked (RevokedCertificateEntries crl) (certSerialNumber cert) with
          | Some status => mret (true, status)
          | None => mret (false, "OK (not revoked)")
          end);
       mret (mkVerifyResult
               (true && (negb (now <? certNotBefore cert)
                         && negb (certNotAfter cert <? now)) && negb isRevoked)
               (FormatDN (certSubject cert))
               (FormatSerialBig (certSerialNumber cert))
               (FormatDN (certIssuer cert))
               (certNotBefore cert) (certNotAfter cert) true ""
               (negb (now <? certNotBefore cert) && negb (certNotAfter cert <? now))
               revStatus)) st).
  { unfold VerifyCert.
    rewrite (bind_eq _ _ _ _ _ (gets_eq _ st)), Hinit. simpl.
    rewrite Hpem, !pathFacts.Join2.
    erewrite bind_eq; [|apply wrapping_ok; unfold lift; by rewrite Hparse].
    erewrite bind_eq; [|apply wrapping_ok, Hload].
    rewrite Hsig.
    by rewrite (bind_eq _ _ _ _ _ (gets_eq _ st)), Hstat. }
  split.
  - intros e He.
    pose proof (io_eq _ _ _ _ (LoadCRL_store _ st) He) as HloadCRL.
    rewrite Hrun. unfold mbind, IO_bind, bind.
    by rewrite (wrapping_err _ _ _ _ _ HloadCRL).
  - intros crl Hcrl.
    pose proof (io_eq _ _ _ _ (LoadCRL_store _ st) Hcrl) as HloadCRL.
    rewrite Hrun. unfold mbind, IO_bind, bind.
    rewrite (wrapping_ok _ _ _ _ _ HloadCRL).
    destruct (findRevoked _ _) as [status|] eqn:Hf.
    + eexists. split; [reflexivity|]. simpl. split; [done|]. split.
      * intros Hn%findRevoked_None. congruence.
      * intros _. rewrite andb_false_r. split; [done|].
        by eapply findRevoked_Some.
    + eexists. split; [reflexivity|]. simpl. split; [done|]. split; [done|].
      intros Hin. by apply findRevoked_None in Hf.
Qed.

(** X21. Listing and verifying only read: whatever they return, ListCerts
    and VerifyCert leave every file and directory as it is and make no
    call that changes the file system. *)
Theorem listing_and_verifying_only_read now d certPEM certPath st :
  (ListCerts now d st).1 = st
  ∧ (VerifyCert now d certPEM certPath st).1 = st.
Proof. split; [apply ListCerts_store|apply VerifyCert_store]. Qed.

End VerifyProps.

(** ** The names ParseDN returns *)

Module trimFacts.
Import strings stringsFacts.

Lemma trimLeftFuel_suffix fuel l : trimLeftFuel fuel l `suffix_of` l.
Proof.
  revert l. induction fuel as [|fuel IH]; intros l; simpl; [done|].
  destruct (leadingSpace l) as [r|]; [|done].
  etrans; [apply IH|]. apply suffix_drop.
Qed.

Lemma trimRightFuel_prefix fuel l : trimRightFuel fuel l `prefix_of` l.
Proof.
  revert l. induction fuel as [|fuel IH]; intros l; simpl; [done|].
  destruct (trailingSpace l) as [r|]; [|done].
  etrans; [apply IH|]. apply prefix_take.
Qed.

Lemma trimLeftFuel_clean fuel l :
  (length l ≤ fuel)%nat → leadingSpace (trimLeftFuel fuel l) = None.
Proof.
  revert l. induction fuel as [|fuel IH]; intros l Hlen; simpl.
  - destruct l; [|simpl in Hlen; lia]. apply leadingSpace_None.
    intros r Hr Hp%prefix_length. apply spaceRune_nonempty in Hr.
    simpl in Hp. lia.
  - destruct (leadingSpace l) as [r|] eqn:Hr; [|done].
    apply IH. apply leadingSpace_Some in Hr as [Hr Hp%prefix_length].
    apply spaceRune_nonempty in Hr. rewrite length_drop. lia.
Qed.

Lemma trimRightFuel_clean fuel l :
  (length l ≤ fuel)%nat → trailingSpace (trimRightFuel fuel l) = None.
Proof.
  revert l. induction fuel as [|fuel IH]; intros l Hlen; simpl.
  - destruct l; [|simpl in Hlen; lia]. apply trailingSpace_None.
    intros r Hr Hp%suffix_length. apply spaceRune_nonempty in Hr.
    simpl in Hp. lia.
  - destruct (trailingSpace l) as [r|] eqn:Hr; [|done].
    apply IH. apply trailingSpace_Some in Hr as [Hr Hp%suffix_length].
    apply spaceRune_nonempty in Hr. rewrite length_take. lia.
Qed.

(** TrimSpace leaves nothing to trim. *)
Lemma TrimSpace_idem s : TrimSpace (TrimSpace s) = TrimSpace s.
Proof.
  apply TrimSpace_fixed. unfold TrimSpace. rewrite bytesOf_ofBytes. split.
  - apply leadingSpace_None. intros r Hr Hp.
    pose proof (trimLeftFuel_clean (length (bytesOf s)) (bytesOf s) (le_n _))
      as Hclean.
    rewrite leadingSpace_None in Hclean. apply (Hclean r Hr).
    etrans; [exact Hp|]. apply trimRightFuel_prefix.
  - by apply trimRightFuel_clean.
Qed.

(** TrimSpace and slicing bring in no byte. *)
Lemma TrimSpace_elem c s : c ∈ bytesOf (TrimSpace s) → c ∈ bytesOf s.
Proof.
  unfold TrimSpace. rewrite bytesOf_ofBytes. intros Hc.
  pose proof (trimRightFuel_prefix (length (trimLeft (bytesOf s)))
                (trimLeft (bytesOf s))) as [k1 Hk1].
  pose proof (trimLeftFuel_suffix (length (bytesOf s)) (bytesOf s)) as [k2 Hk2].
  rewrite Hk2. apply elem_of_app. right.
  fold (trimLeft (bytesOf s)). rewrite Hk1. apply elem_of_app. by left.
Qed.

Lemma sliceFrom_elem c s i : c ∈ bytesOf (sliceFrom s i) → c ∈ bytesOf s.
Proof.
  unfold sliceFrom. rewrite bytesOf_ofBytes. intros Hc.
  rewrite <- (take_drop (Z.to_nat i) (bytesOf s)). apply elem_of_app. by right.
Qed.

Lemma Split_pieces s : Forall noComma (Split s ",").
Proof.
  unfold noComma. induction s as [|c s IH]; simpl.
  - constructor; [apply not_elem_of_nil|constructor].
  - case_bool_decide as Hc.
    + constructor; [apply not_elem_of_nil|done].
    + destruct (Split s ",") as [|piece pieces].
      * constructor; [|constructor]. simpl. rewrite not_elem_of_cons.
        split; [done|apply not_elem_of_nil].
      * apply Forall_cons_iff in IH as [Hp Hps]. constructor; [|done].
        simpl. rewrite not_elem_of_cons. by split.
Qed.

End trimFacts.

Section NameNormal.
Context `{L : GoLib}.
Import strings stringsFacts trimFacts.

(** The value of a component that parseComponent accepts is one the codec
    carries. *)
Lemma parseComponent_value name part name' :
  noComma part →
  parseComponent name part = Ok name' →
  name' = name
  ∨ ∃ v, goodValue v
         ∧ (name' = withCommonName name v ∨ name' = addOrganization name v
            ∨ name' = addOrganizationalUnit name v ∨ name' = addLocality name v
            ∨ name' = addProvince name v ∨ name' = addCountry name v).
Proof.
  intros Hpart. unfold parseComponent.
  case_bool_decide as Hempty; [intros [= <-]; by left|].
  destruct (_ <? 0); [done|].
  case_bool_decide as Hv; [done|].
  set (v := TrimSpace (sliceFrom (TrimSpace part) _)) in *.
  assert (Hgood : goodValue v).
  { split; [done|]. split; [|apply TrimSpace_idem].
    intros Hin. apply Hpart.
    by apply TrimSpace_elem, sliceFrom_elem, TrimSpace_elem in Hin. }
  repeat case_bool_decide; intros [= <-]; right; exists v; split; try done;
    tauto.
Qed.

Lemma codecName_add name v :
  name = emptyName ∨ codecName name → goodValue v →
  codecName (withCommonName name v) ∧ codecName (addOrganization name v)
  ∧ codecName (addOrganizationalUnit name v) ∧ codecName (addLocality name v)
  ∧ codecName (addProvince name v) ∧ codecName (addCountry name v).
Proof.
  intros Hname Hv.
  assert (Hfields :
    (CommonName name = "" ∨ goodValue (CommonName name))
    ∧ Forall goodValue (Organization name)
    ∧ Forall goodValue (OrganizationalUnit name)
    ∧ Forall goodValue (Locality name) ∧ Forall goodValue (Province name)
    ∧ Forall goodValue (Country name) ∧ StreetAddress name = []
    ∧ PostalCode name = [] ∧ SerialNumberAttr name = "").
  { destruct Hname as [->|[]]; [|done]. simpl. split; [by left|].
    by repeat split. }
  destruct Hfields as (Hcn & Ho & Hou & Hl & Hst & Hc & Hsa & Hpc & Hsn).
  assert (Hne : v ≠ "") by apply Hv.
  split_and!; split; simpl;
    first
      [ done
      | by right
      | apply Forall_app_2; [done|constructor; [done|constructor]]
      | unfold dnParts; simpl; rewrite ?bool_decide_eq_true_2 by done;
        intros Hnil; apply (f_equal length) in Hnil;
        repeat (rewrite length_app in Hnil || rewrite length_fmap in Hnil);
        simpl in Hnil; lia ].
Qed.

Lemma parseComponents_codec parts name name' :
  Forall noComma parts →
  name = emptyName ∨ codecName name →
  parseComponents parts name = Ok name' →
  name' = emptyName ∨ codecName name'.
Proof.
  intros Hparts. revert name.
  induction Hparts as [|part parts Hpart Hparts IH]; intros name Hname; simpl.
  - by intros [= <-].
  - destruct (parseComponent name part) as [name1|] eqn:Hc; [|done].
    apply IH. apply parseComponent_value in Hc; [|done].
    destruct Hc as [->|(v & Hv & Hc)]; [done|].
    right. destruct (codecName_add name v Hname Hv) as (? & ? & ? & ? & ? & ?).
    by destruct Hc as [->|[->|[->|[->|[->| ->]]]]].
Qed.

(** FormatDN and ParseDN on the names the codec carries. *)
Lemma ParseDN_FormatDN_codec name :
  codecName name → ParseDN (FormatDN name) = Ok name.
Proof.
  intros Hname. unfold ParseDN, FormatDN.
  assert (Hhead : ∃ c s, Join (dnParts name) "," = String c s ∧ plain c).
  { apply Join_head; [apply Hname|]. apply dnParts_Forall; [done|].
    intros pre v Hpre _.
    repeat (apply elem_of_cons in Hpre as [->|Hpre];
            [eexists _, _; split; [reflexivity|by vm_compute]|]).
    by apply elem_of_nil in Hpre. }
  destruct Hhead as (c & s & Hjoin & Hc).
  rewrite bool_decide_eq_false_2
    by (rewrite Hjoin; by apply TrimSpace_nonempty).
  rewrite Split_Join; [|apply Hname|].
  2:{ apply dnParts_Forall; [done|]. intros pre v Hpre (_ & Hv & _).
      unfold noComma. rewrite bytesOf_app, elem_of_app. intros [Hin|Hin]; [|done].
      revert Hin.
      repeat (apply elem_of_cons in Hpre as [->|Hpre];
              [intros Hin; simpl in Hin;
               repeat (apply elem_of_cons in Hin as [Hin|Hin]; [discriminate|]);
               by apply elem_of_nil in Hin|]).
      by apply elem_of_nil in Hpre. }
  destruct Hname as [Hcn Ho Hou Hl Hst Hco Hsa Hpc Hsn _]. unfold dnParts.
  rewrite parseComponents_app.
  assert (Hfirst :
    parseComponents
      (if bool_decide (CommonName name ≠ "") then ["CN=" +:+ CommonName name] else [])
      emptyName = Ok (withCommonName emptyName (CommonName name))).
  { case_bool_decide as Hne; simpl.
    - destruct Hcn as [?|Hcn]; [done|]. by rewrite parse_CN.
    - by rewrite Hne. }
  rewrite Hfirst.
  rewrite parseComponents_app,
    (parseComponents_attr "O=" addOrganization) by (done || apply parse_O).
  rewrite parseComponents_app,
    (parseComponents_attr "OU=" addOrganizationalUnit) by (done || apply parse_OU).
  rewrite parseComponents_app,
    (parseComponents_attr "L=" addLocality) by (done || apply parse_L).
  rewrite parseComponents_app,
    (parseComponents_attr "ST=" addProvince) by (done || apply parse_ST).
  rewrite (parseComponents_attr "C=" addCountry) by (done || apply parse_C).
  rewrite foldl_addOrganization, foldl_addOrganizationalUnit, foldl_addLocality,
    foldl_addProvince, foldl_addCountry.
  destruct name; simpl in *. by subst.
Qed.

(** X22. The names ParseDN returns are the ones the codec carries: every
    value is not empty, has no comma and no white space at its ends, and
    only CN, O, OU, L, ST and C are set. Unless it has no attribute at all
    (an input of separators only), such a name is a fixed point: FormatDN
    writes a text that ParseDN reads back as the same name. *)
Theorem ParseDN_normal dn name :
  ParseDN dn = Ok name →
  (name = emptyName ∨ codecName name)
  ∧ (name ≠ emptyName → ParseDN (FormatDN name) = Ok name).
Proof.
  unfold ParseDN at 1. case_bool_decide as Hempty; [done|]. intros Hparse.
  apply parseComponents_codec in Hparse; [|apply Split_pieces|by left].
  split; [done|]. intros Hne. apply ParseDN_FormatDN_codec.
  by destruct Hparse.
Qed.

End NameNormal.

(** ** The SAN parser *)

Section SANProps.
Context `{L : GoLib}.
Variable net_ParseIP : string → option string.
Import strings stringsFacts trimFacts.

Lemma TrimPrefix_elem c s pre :
  c ∈ bytesOf (TrimPrefix s pre) → c ∈ bytesOf s.
Proof.
  unfold TrimPrefix. destruct (HasPrefix s pre); [apply sliceFrom_elem|done].
Qed.

Lemma TrimPrefix_append pre v : TrimPrefix (pre +:+ v) pre = v.
Proof.
  unfold TrimPrefix, HasPrefix, sliceFrom.
  rewrite pathFacts.prefix_self, Nat2Z.id, bytesOf_app, <- length_bytesOf.
  by rewrite drop_app_length, ofBytes_bytesOf.
Qed.

Lemma parseSANParts_sound parts dns ips dns' ips' :
  Forall noComma parts →
  Forall (λ n, n ≠ "" ∧ noComma n) dns →
  Forall (λ ip, ∃ t, noComma t ∧ net_ParseIP t = Some ip) ips →
  parseSANParts net_ParseIP parts dns ips = Ok (dns', ips') →
  Forall (λ n, n ≠ "" ∧ noComma n) dns'
  ∧ Forall (λ ip, ∃ t, noComma t ∧ net_ParseIP t = Some ip) ips'.
Proof.
  intros Hparts. revert dns ips.
  induction Hparts as [|part parts Hpart Hparts IH]; intros dns ips Hdns Hips;
    simpl.
  - by intros [= <- <-].
  - case_bool_decide as Hempty; [by apply IH|].
    assert (Hsub : ∀ pre, noComma (TrimPrefix (TrimSpace part) pre)).
    { intros pre Hin. apply Hpart. by apply TrimPrefix_elem, TrimSpace_elem in Hin. }
    destruct (HasPrefix (TrimSpace part) "DNS:").
    + case_bool_decide as Hname; [done|]. apply IH; [|done].
      apply Forall_app_2; [done|]. constructor; [|constructor]. by split.
    + destruct (HasPrefix (TrimSpace part) "IP:"); [|done].
      destruct (net_ParseIP _) as [ip|] eqn:Hip; [|done].
      apply IH; [done|]. apply Forall_app_2; [done|].
      constructor; [|constructor]. eauto.
Qed.

(** X23. What ParseSANs returns: no DNS name is empty or has a comma, and
    every address is what net.ParseIP made of a text between two commas. *)
Theorem ParseSANs_sound sanList dnsNames ips :
  ParseSANs net_ParseIP sanList = Ok (dnsNames, ips) →
  Forall (λ n, n ≠ "" ∧ noComma n) dnsNames
  ∧ Forall (λ ip, ∃ t, noComma t ∧ net_ParseIP t = Some ip) ips.
Proof.
  unfold ParseSANs. case_bool_decide as Hempty.
  - intros [= <- <-]. split; constructor.
  - apply parseSANParts_sound; [apply Split_pieces|constructor..].
Qed.

Lemma sanText_shape san :
  okSAN net_ParseIP san →
  ∃ pre v, sanText san = pre +:+ v ∧ pre ∈ ["DNS:"; "IP:"] ∧ goodValue v.
Proof.
  destruct san as [name|text]; simpl.
  - intros Hv. exists "DNS:", name. split; [done|]. split; [|done].
    by repeat constructor.
  - intros [Hv _]. exists "IP:", text. split; [done|]. split; [|done].
    by repeat constructor.
Qed.

Lemma TrimSpace_sanText san :
  okSAN net_ParseIP san → TrimSpace (sanText san) = sanText san ∧ sanText san ≠ "".
Proof.
  intros (pre & v & -> & Hpre & Hne & _ & Htrim)%sanText_shape.
  apply TrimSpace_fixed in Htrim as [_ Hr].
  assert (Hshape : ∃ c pre', pre = String c pre' ∧ plain c
            ∧ Forall (λ c, highByte c = false) (bytesOf pre)).
  { repeat (apply elem_of_cons in Hpre as [->|Hpre];
            [eexists _, _; split; [reflexivity|];
             split; [by vm_compute|by repeat constructor]|]).
    by apply elem_of_nil in Hpre. }
  destruct Hshape as (c & pre' & -> & Hc & Hall).
  split; [|done]. apply TrimSpace_fixed. split.
  - by apply leadingSpace_plain.
  - rewrite bytesOf_app. apply trailingSpace_app; [done| |done].
    by rewrite bytesOf_nil.
Qed.

Lemma parseSANParts_texts sans dns ips :
  Forall (okSAN net_ParseIP) sans →
  parseSANParts net_ParseIP (sanText <$> sans) dns ips
  = Ok (dns ++ sanNames sans, ips ++ sanAddresses net_ParseIP sans).
Proof.
  intros Hsans. revert dns ips.
  induction Hsans as [|san sans Hsan Hsans IH]; intros dns ips.
  - unfold sanNames, sanAddresses. simpl. by rewrite !List.app_nil_r.
  - rewrite fmap_cons. cbn [parseSANParts].
    destruct (TrimSpace_sanText san Hsan) as [-> Hne].
    rewrite bool_decide_eq_false_2 by done.
    destruct san as [name|text]; simpl in Hsan.
    + destruct Hsan as (Hname & _ & _).
      cbn [sanText]. rewrite TrimPrefix_append.
      assert (HasPrefix ("DNS:" +:+ name) "DNS:" = true) as ->
        by apply pathFacts.prefix_self.
      rewrite bool_decide_eq_false_2 by done. rewrite IH.
      unfold sanNames, sanAddresses. simpl.
      by rewrite <- !List.app_assoc.
    + destruct Hsan as [_ [ip Hip]].
      cbn [sanText]. rewrite TrimPrefix_append.
      assert (HasPrefix ("IP:" +:+ text) "DNS:" = false) as -> by by vm_compute.
      assert (HasPrefix ("IP:" +:+ text) "IP:" = true) as ->
        by apply pathFacts.prefix_self.
      rewrite Hip, IH. unfold sanNames, sanAddresses. simpl. rewrite Hip. simpl.
      by rewrite <- !List.app_assoc.
Qed.

(** X24. ParseSANs reads back a list that is written entry by entry: for a
    list of DNS names and address texts, none empty, none with a comma or
    with white space at its ends, and every address text one that
    net.ParseIP accepts, the text "DNS:<name>,IP:<address>,..." parses to
    the names, in their order, and to the parsed addresses, in theirs. *)
Theorem ParseSANs_round_trip sans :
  sans ≠ [] → Forall (okSAN net_ParseIP) sans →
  ParseSANs net_ParseIP (Join (sanText <$> sans) ",")
  = Ok (sanNames sans, sanAddresses net_ParseIP sans).
Proof.
  intros Hne Hsans. unfold ParseSANs.
  assert (Hparts : sanText <$> sans ≠ []) by by destruct sans.
  assert (Hhead : ∃ c s, Join (sanText <$> sans) "," = String c s ∧ plain c).
  { apply Join_head; [done|]. apply Forall_fmap.
    eapply Forall_impl; [|exact Hsans]. intros san Hsan. simpl.
    destruct san; eexists _, _; (split; [reflexivity|by vm_compute]). }
  destruct Hhead as (c & s & Hjoin & Hc).
  rewrite bool_decide_eq_false_2
    by (rewrite Hjoin; by apply TrimSpace_nonempty).
  rewrite Split_Join; [|done|].
  - by rewrite parseSANParts_texts.
  - apply Forall_fmap. eapply Forall_impl; [|exact Hsans].
    intros san Hsan. unfold compose.
    apply sanText_shape in Hsan as (pre & v & -> & Hpre & _ & Hv & _).
    unfold noComma. rewrite bytesOf_app, elem_of_app. intros [Hin|Hin]; [|done].
    revert Hin.
    repeat (apply elem_of_cons in Hpre as [->|Hpre];
            [intros Hin; simpl in Hin;
             repeat (apply elem_of_cons in Hin as [Hin|Hin]; [discriminate|]);
             by apply elem_of_nil in Hin|]).
    by apply elem_of_nil in Hpre.
Qed.

End SANProps.

(** ** The request utility *)

Section RequestProps.
Context `{L : GoLib}.
Variable x509_CreateCertificateRequest :
  N → CertificateRequest → PrivateKey → result string.


End RequestProps.

(** ** Serial numbers under faults *)

Section SerialSafety.
Context `{L : GoLib}.
Import pathFacts counterFacts serialFacts.

(** The three final files of SignCSR are as before. *)
Ltac untouched :=
  left; split_and!; [lookup_chain; done..|done].

Lemma SignCSR_serial_first ft rnd now d csrPEM csrPath days st st' r v :
  (ReadCounter (inDir d "serial") st).2 = Ok v →
  SignCSR ft rnd now d csrPEM csrPath days st = (st', r) →
  (files st' !! inDir d "serial" = files st !! inDir d "serial"
   ∧ files st' !! inDir d (certName (FormatSerial v))
     = files st !! inDir d (certName (FormatSerial v))
   ∧ files st' !! inDir d "index.json" = files st !! inDir d "index.json"
   ∧ isOk r = false)
  ∨ files st' !! inDir d "serial" = Some (FormatSerial (wrap64 (v + 1)) +:+ LF).
Proof.
  intros Hv H. unfold SignCSR in H.
  rewrite (bind_eq _ _ _ _ _ (gets_eq _ st)) in H.
  destruct (IsInitialized d st) eqn:Hinit; simpl in H;
    [|injection H as <- <-; by left].
  destruct (pem_Decode csrPEM) as [[typ der]|]; [|injection H as <- <-; by left].
  destruct (x509_ParseCertificateRequest der) as [csr|e0];
    [|injection H as <- <-; by left].
  destruct (CheckSignature csr) as [e0|] eqn:Hsig;
    [injection H as <- <-; by left|].
  inv_bind H u st1 Hm; apply lift_inv in Hm as [-> Hkey]; [|by left].
  destruct u.
  pure_step H caKey HcaKey.
  pure_step H caCert HcaCert.
  pure_step H serialVal Hserial.
  rewrite Join2, Hv in Hserial. injection Hserial as <-.
  pure_step H subjectSKI Hski.
  pure_step H certDER HcertDER.
  pure_step H index Hindex.
  pure_step H indexData HindexData.
  rewrite ?Join2, ?Join_cert in *.
  stage_step H Hf1 Hd1; try untouched.
  stage_step H Hf2 Hd2; try untouched.
  stage_step H Hf3 Hd3; try untouched.
  apply bind_inv in H as [(u & st4 & Hm & H)|(? & Hm & ->)].
  2:{ commit_step Hm d1 Hs1 Hf4 Hd4; try untouched.
      assert (Some d1 = Some (FormatSerial (wrap64 (v + 1)) +:+ LF)) as [= ->]
        by staged_data.
      commit_step Hm d2 Hs2 Hf5 Hd5;
        try (right; lookup_chain; by rewrite lookup_insert_eq).
      commit_step Hm d3 Hs3 Hf6 Hd6;
        try (right; lookup_chain; by rewrite lookup_insert_eq). }
  commit_step Hm d1 Hs1 Hf4 Hd4.
  assert (Some d1 = Some (FormatSerial (wrap64 (v + 1)) +:+ LF)) as [= ->]
    by staged_data.
  commit_step Hm d2 Hs2 Hf5 Hd5.
  commit_step Hm d3 Hs3 Hf6 Hd6.
  injection Hm as <-. injection H as <- <-.
  right. lookup_chain. by rewrite lookup_insert_eq.
Qed.

Lemma ReadCounter_same path st st' v :
  (ReadCounter path st).2 = Ok v →
  files st' !! path = files st !! path →
  (ReadCounter path st').2 = Ok v.
Proof.
  unfold ReadCounter, onErr, os_ReadFile. unfold mbind, IO_bind, bind.
  intros Hv ->. destruct (files st !! path); simpl in *;
    [by destruct (strconv.ParseInt16 _)|by case_bool_decide].
Qed.

Lemma ReadCounter_range path st v : (ReadCounter path st).2 = Ok v → inInt64 v.
Proof.
  unfold ReadCounter, onErr, os_ReadFile. unfold mbind, IO_bind, bind.
  destruct (files st !! path); simpl; [|by case_bool_decide].
  destruct (strconv.ParseInt16 _) as [|w] eqn:Hparse; simpl; [done|].
  intros [= <-]. by eapply ParseInt16_range.
Qed.

(** X26. SignCSR consumes a serial before it uses it, under every pattern
    of faults: after the call the counter reads the value [v] it had or
    [v + 1]; when it still reads [v], the call has failed and neither
    certs/<v>.pem nor index.json has changed. No certificate file and no
    index entry with the serial [v] is written while the counter still
    offers [v] to the next call. *)
Theorem SignCSR_consumes_serial_first
    ft rnd now d csrPEM csrPath days st st' r v :
  (ReadCounter (inDir d "serial") st).2 = Ok v →
  v < maxInt64 →
  SignCSR ft rnd now d csrPEM csrPath days st = (st', r) →
  ((ReadCounter (inDir d "serial") st').2 = Ok v
   ∧ isOk r = false
   ∧ files st' !! inDir d (certName (FormatSerial v))
     = files st !! inDir d (certName (FormatSerial v))
   ∧ files st' !! inDir d "index.json" = files st !! inDir d "index.json")
  ∨ (ReadCounter (inDir d "serial") st').2 = Ok (v + 1).
Proof.
  intros Hv Hmax H.
  pose proof (ReadCounter_range _ _ _ Hv) as [Hlo Hhi].
  eapply SignCSR_serial_first in H as [(Hs & Hc & Hi & Hr)|Hs]; [| |exact Hv].
  - left. split; [by eapply ReadCounter_same|done].
  - right. rewrite wrap64_id in Hs by (unfold inInt64; lia).
    unfold ReadCounter, onErr, os_ReadFile. unfold mbind, IO_bind, bind.
    rewrite Hs. simpl. unfold FormatSerial.
    destruct (Sprintf02x_plain (v + 1)) as [Hplain Hne].
    rewrite TrimSpace_line by done.
    by rewrite ParseInt16_Sprintf02x_int64 by (unfold inInt64; lia).
Qed.

(** X27. A GenerateCRL that fails does not consume a CRL number: crlnumber
    is as before. ca.crl is as before too, unless the failure is that of
    the last step, the commit of crlnumber (the error text names the path
    as filepath.Join cleans it), which leaves the new CRL in place. *)
Theorem GenerateCRL_failure_keeps_number ft rnd now d hours st st' e :
  GenerateCRL ft rnd now d hours st = (st', Err e) →
  files st' !! inDir d "crlnumber" = files st !! inDir d "crlnumber"
  ∧ (files st' !! inDir d "ca.crl" = files st !! inDir d "ca.crl"
     ∨ String.prefix ("failed to commit " +:+ inDir d "crlnumber") e = true).
Proof.
  intros H. unfold GenerateCRL in H.
  rewrite (bind_eq _ _ _ _ _ (gets_eq _ st)) in H.
  destruct (IsInitialized d st) eqn:Hinit; cbv iota in H; simpl negb in H;
    cbv iota in H; [|injection H as <- _; by split; [|left]].
  pure_step H caKey HcaKey; [|by split; [|left]].
  pure_step H caCert HcaCert; [|by split; [|left]].
  pure_step H index Hindex; [|by split; [|left]].
  pure_step H crlNum HcrlNum; [|by split; [|left]].
  apply bind_inv in H as [(revokedEntries & st0 & Hm & H)|(? & Hm & ?)];
    apply lift_inv in Hm as [-> Hrev]; [|simplify_eq; by split; [|left]].
  pure_step H akiValue Haki; [|by split; [|left]].
  destruct (isSigner caKey); simpl negb in H; cbv iota in H;
    [|injection H as <- _; by split; [|left]].
  pure_step H crlDER HcrlDER; [|by split; [|left]].
  rewrite ?Join2 in *.
  stage_step H Hf1 Hd1; [|split; [|left]; lookup_chain; done].
  stage_step H Hf2 Hd2; [|split; [|left]; lookup_chain; done].
  cbn [commitAll] in H.
  apply bind_inv in H as [(u0 & st3 & Hc & H)|(? & Hc & ?)]; [done|].
  simplify_eq.
  commit_step Hc d1 Hs1 Hf3 Hd3; [|split; [|left]; lookup_chain; done].
  commit_step Hc d2 Hs2 Hf4 Hd4.
  split; [lookup_chain; done|]. right.
  rewrite <- stringsFacts.append_assoc. apply prefix_self.
Qed.

End SerialSafety.

(** ** The further properties on the worked history *)

Lemma writeFileAtomic_all_or_nothing_witness :
  let out :=
    writeFileAtomic (Sample.renameFails "ca/serial.tmp") "ca/serial" "03"
      Sample.initialized in
  dirsKept ["ca/serial" +:+ ".tmp"] Sample.initialized out.1
  ∧ files out.1 !! ("ca/serial" +:+ ".tmp") = None
  ∧ (∀ q, q ≠ "ca/serial" → q ≠ "ca/serial" +:+ ".tmp" →
          files out.1 !! q = files Sample.initialized !! q)
  ∧ (out.2 = Ok tt ∧ dirs out.1 = dirs Sample.initialized
     ∧ files out.1 !! "ca/serial" = Some "03"
     ∨ (∃ e, out.2 = Err e)
       ∧ files out.1 !! "ca/serial" = files Sample.initialized !! "ca/serial").
Proof.
  intros out.
  apply (writeFileAtomic_all_or_nothing (Sample.renameFails "ca/serial.tmp")
           "ca/serial" "03" Sample.initialized out.1 out.2).
  apply surjective_pairing.
Defined.

(** A failed atomic write takes an empty directory at the .tmp path away,
    and no other directory. *)
Lemma writeFileAtomic_removes_empty_directory :
  let st :=
    setDirs (dirs Sample.initialized ∪ {["ca/serial.tmp"]}) Sample.initialized in
  let out :=
    writeFileAtomic (Sample.writeFails "ca/serial.tmp") "ca/serial" "03" st in
  bool_decide ("ca/serial.tmp" ∈ dirs st) = true
  ∧ bool_decide ("ca/serial.tmp" ∈ dirs out.1) = false
  ∧ bool_decide ("ca/certs" ∈ dirs out.1) = true
  ∧ out.2 = Err "failed to write ca/serial: no space left on device".
Proof. repeat split; vm_compute; reflexivity. Qed.

Lemma counter_round_trip_witness :
  let st' := (WriteCounter noFaults "ca/serial" (-255) Sample.initialized).1 in
  ReadCounter (L := Ref.lib) "ca/serial" st' = (st', Ok (-255)).
Proof.
  intros st'.
  apply (counter_round_trip (L := Ref.lib) noFaults "ca/serial" (-255)
           Sample.initialized st').
  - unfold inInt64, minInt64, maxInt64. lia.
  - transitivity ((WriteCounter noFaults "ca/serial" (-255) Sample.initialized).1,
                  (WriteCounter noFaults "ca/serial" (-255) Sample.initialized).2);
      [apply surjective_pairing|].
    f_equal.
Defined.

Lemma FormatSerial_text_witness :
  (2 ≤ String.length (FormatSerial 10))%nat
  ∧ Forall (λ c, c = "-"%char ∨ lowerHex c) (strings.bytesOf (FormatSerial 10))
  ∧ (FormatSerial 10 = FormatSerial 171 → 10 = 171).
Proof.
  apply (FormatSerial_text 10 171); unfold inInt64, minInt64, maxInt64; lia.
Defined.


Lemma RevokeCert_once_witness :
  RevokeCert (L := Ref.lib) (Sample.writeFails "ca/index.json.tmp") 5000 "ca" "02"
    "superseded" Sample.revokedFirst
  = (Sample.revokedFirst, Err "Error: certificate with serial 02 is already revoked").
Proof.
  apply (RevokeCert_once (L := Ref.lib) (laws := RefFacts.lib_laws)
           noFaults (Sample.writeFails "ca/index.json.tmp") 3000 5000 "ca" "02"
           "keyCompromise" "superseded" Sample.signedTwice Sample.revokedFirst).
  vm_compute; reflexivity.
Defined.

Lemma ListCerts_after_revoke_witness :
  ∃ rows i row,
    ListCerts (L := Ref.lib) 5000 "ca" Sample.signedTwice
    = (Sample.signedTwice, Ok rows)
    ∧ ListCerts (L := Ref.lib) 5000 "ca" Sample.revokedFirst
      = (Sample.revokedFirst, Ok (<[i := row]> rows))
    ∧ (i < length rows)%nat
    ∧ ciSerial row = "02"
    ∧ ciStatus row = "revoked".
Proof.
  apply (ListCerts_after_revoke (L := Ref.lib) (laws := RefFacts.lib_laws)
           noFaults 3000 5000 "ca" "02" "keyCompromise" Sample.signedTwice
           Sample.revokedFirst).
  vm_compute; reflexivity.
Defined.

Lemma GenerateCRL_leaves_rest_witness :
  dirsKept [inDir "ca" "ca.crl" +:+ ".tmp"; inDir "ca" "crlnumber" +:+ ".tmp"]
    Sample.revokedFirst Sample.withCRL
  ∧ ∀ q, q ∉ [inDir "ca" "ca.crl"; inDir "ca" "crlnumber";
              inDir "ca" "ca.crl" +:+ ".tmp"; inDir "ca" "crlnumber" +:+ ".tmp"] →
         files Sample.withCRL !! q = files Sample.revokedFirst !! q.
Proof.
  apply (GenerateCRL_leaves_rest (L := Ref.lib) noFaults 7 4000 "ca" 24
           Sample.revokedFirst Sample.withCRL
           (GenerateCRL (L := Ref.lib) noFaults 7 4000 "ca" 24
              Sample.revokedFirst).2).
  apply surjective_pairing.
Defined.

Lemma GenerateCRL_lists_revoked_witness :
  ∃ res,
    GenerateCRL (L := Ref.lib) noFaults 7 4000 "ca" 24 Sample.revokedFirst
    = (Sample.withCRL, Ok res)
    ∧ ∃ caKey caCert index entries aki crlDER,
        (LoadIndex (L := Ref.lib) "ca" Sample.revokedFirst).2 = Ok index
        ∧ Forall2 (listsRevoked (L := Ref.lib))
            (filter (λ e, Status e = "revoked") index) entries
        ∧ crRevokedCount res = length (filter (λ e, Status e = "revoked") index)
        ∧ Ref.createCRL 7
            (mkRevocationList entries (crCRLNumber res) 4000
               (4000 + durationOf 24 hourNs) (sigAlgorithm caKey)
               [mkExtension [2; 5; 29; 35] false aki]) caCert caKey = Ok crlDER
        ∧ files Sample.withCRL !! inDir "ca" "ca.crl" = Some crlDER.
Proof.
  assert (∃ res, GenerateCRL (L := Ref.lib) noFaults 7 4000 "ca" 24
                   Sample.revokedFirst = (Sample.withCRL, Ok res))
    as [res Hrun] by (eexists; vm_compute; reflexivity).
  exists res. split; [exact Hrun|].
  exact (GenerateCRL_lists_revoked (L := Ref.lib) noFaults 7 4000 "ca" 24
           Sample.revokedFirst Sample.withCRL res Hrun).
Defined.

Lemma GenerateCRL_number_witness :
  ∃ res,
    GenerateCRL (L := Ref.lib) noFaults 7 4000 "ca" 24 Sample.revokedFirst
    = (Sample.withCRL, Ok res)
    ∧ (ReadCounter (L := Ref.lib) (inDir "ca" "crlnumber") Sample.revokedFirst).2
      = Ok (crCRLNumber res)
    ∧ (ReadCounter (L := Ref.lib) (inDir "ca" "crlnumber") Sample.withCRL).2
      = Ok (wrap64 (crCRLNumber res + 1))
    ∧ crCRLNumber res = 1.
Proof.
  assert (∃ res, GenerateCRL (L := Ref.lib) noFaults 7 4000 "ca" 24
                   Sample.revokedFirst = (Sample.withCRL, Ok res))
    as [res Hrun] by (eexists; vm_compute; reflexivity).
  exists res. split; [exact Hrun|].
  destruct (GenerateCRL_number (L := Ref.lib) noFaults 7 4000 "ca" 24
              Sample.revokedFirst Sample.withCRL res Hrun) as (H1 & H2 & _).
  split; [exact H1|]. split; [exact H2|].
  revert Hrun. vm_compute. by intros [= <-].
Defined.


Lemma SignCSR_leaves_rest_witness :
  dirsButTmp Sample.initialized Sample.signedOnce
  ∧ ∀ q, underCerts "ca" q = false →
         q ∉ [inDir "ca" "serial"; inDir "ca" "index.json";
              inDir "ca" "serial" +:+ ".tmp"; inDir "ca" "index.json" +:+ ".tmp"] →
         files Sample.signedOnce !! q = files Sample.initialized !! q.
Proof.
  apply (SignCSR_leaves_rest (L := Ref.lib) noFaults 7 2000 "ca" "csr:rsa2048"
           "a.csr" 365 Sample.initialized Sample.signedOnce
           (SignCSR (L := Ref.lib) noFaults 7 2000 "ca" "csr:rsa2048" "a.csr" 365
              Sample.initialized).2).
  apply surjective_pairing.
Defined.

Lemma rejections_change_nothing_witness :
  (SignCSR (L := Ref.lib) (Sample.writeFails "ca/serial.tmp") 7 2000 "ca"
     "csr:rsa1024" "weak.csr" 365 Sample.initialized).1
  = Sample.initialized.
Proof.
  refine (proj1 (proj2 (rejections_change_nothing (L := Ref.lib)
                          (Sample.writeFails "ca/serial.tmp") 7 2000 "ca"
                          Sample.initialized _ errUnsupportedCSRKey _))
            "csr:rsa1024" "weak.csr" 365 _).
  - reflexivity.
  - transitivity
      ((SignCSR (L := Ref.lib) (Sample.writeFails "ca/serial.tmp") 7 2000 "ca"
          "csr:rsa1024" "weak.csr" 365 Sample.initialized).1,
       (SignCSR (L := Ref.lib) (Sample.writeFails "ca/serial.tmp") 7 2000 "ca"
          "csr:rsa1024" "weak.csr" 365 Sample.initialized).2);
      [apply surjective_pairing|].
    f_equal.
Defined.

Lemma InitCA_establishes_witness :
  ∃ res,
    InitCA (L := Ref.lib) noFaults 7 1000 "./ca" Ref.leafName "ecdsa-p256" 3650
      emptyStore = (Sample.initialized, Ok res)
    ∧ IsInitialized "./ca" Sample.initialized = true
    ∧ ReadCounter (L := Ref.lib) (inDir "./ca" "serial") Sample.initialized
      = (Sample.initialized, Ok 2)
    ∧ ReadCounter (L := Ref.lib) (inDir "./ca" "crlnumber") Sample.initialized
      = (Sample.initialized, Ok 1)
    ∧ LoadIndex (L := Ref.lib) "./ca" Sample.initialized = (Sample.initialized, Ok [])
    ∧ irSerial res = "01"
    ∧ irCertPath res = "ca/ca.crt" ∧ irKeyPath res = "ca/ca.key"
    ∧ InitCA (L := Ref.lib) noFaults 9 8000 "./ca" testName "rsa-2048" 30
        Sample.initialized
      = (Sample.initialized, Err ("Error: CA already initialized at " +:+ "./ca")).
Proof.
  assert (∃ res, InitCA (L := Ref.lib) noFaults 7 1000 "./ca" Ref.leafName
                   "ecdsa-p256" 3650 emptyStore = (Sample.initialized, Ok res))
    as [res Hinit] by (eexists; vm_compute; reflexivity).
  exists res. split; [exact Hinit|].
  destruct (InitCA_establishes (L := Ref.lib) (laws := RefFacts.lib_laws)
              noFaults 7 1000 "./ca" Ref.leafName "ecdsa-p256" 3650 emptyStore
              Sample.initialized res Hinit)
    as (H1 & H2 & H3 & H4 & _ & _ & _ & H8 & H9 & H10 & H11).
  split; [exact H1|]. split; [exact H2|]. split; [exact H3|].
  split; [exact H4|]. split; [exact H8|]. split; [exact H9|].
  split; [exact H10|]. apply H11.
Defined.

Lemma SignCSR_records_certificate_witness :
  ∃ res csr caKey caCert v ski certDER index,
    SignCSR (L := Ref.lib) noFaults 7 2000 "./ca" "csr:rsa2048" "a.csr" 365
      Sample.initialized = (Sample.signedOnce, Ok res)
    ∧ decodedCSR (L := Ref.lib) "csr:rsa2048" = Some csr
    ∧ (LoadPrivateKey (L := Ref.lib) (inDir "./ca" "ca.key") Sample.initialized).2
      = Ok caKey
    ∧ (LoadCertificate (L := Ref.lib) (inDir "./ca" "ca.crt") Sample.initialized).2
      = Ok caCert
    ∧ (ReadCounter (L := Ref.lib) (inDir "./ca" "serial") Sample.initialized).2 = Ok v
    ∧ (LoadIndex (L := Ref.lib) "./ca" Sample.initialized).2 = Ok index
    ∧ computeSKI (L := Ref.lib) (csrPublicKey csr) = Ok ski
    ∧ srSerial res = FormatSerial v
    ∧ srCertPath res = inDir "./ca" (certName (srSerial res))
    ∧ srCertPath res = "ca/certs/02.pem"
    ∧ files Sample.signedOnce !! srCertPath res = Some certDER
    ∧ (LoadIndex (L := Ref.lib) "./ca" Sample.signedOnce).2
      = Ok (index ++ [mkIndexEntry (srSerial res) (utf8.coerce (srSubject res))
                        (Ref.timeFormat 2000) (Ref.timeFormat (srNotAfter res))
                        "active" "" ""])
    ∧ (ReadCounter (L := Ref.lib) (inDir "./ca" "serial") Sample.signedOnce).2
      = Ok (wrap64 (v + 1)).
Proof.
  assert (∃ res, SignCSR (L := Ref.lib) noFaults 7 2000 "./ca" "csr:rsa2048" "a.csr"
                   365 Sample.initialized = (Sample.signedOnce, Ok res))
    as [res Hrun] by (eexists; vm_compute; reflexivity).
  destruct (SignCSR_records_certificate (L := Ref.lib) (laws := RefFacts.lib_laws)
              noFaults 7 2000 "./ca" "csr:rsa2048" "a.csr" 365 Sample.initialized
              Sample.signedOnce res Hrun)
    as (csr & caKey & caCert & v & ski & certDER & index & H1 & H2 & H3 & H4 & H5
        & H6 & _ & H8 & _ & _ & H11 & H12 & H13 & H14).
  exists res, csr, caKey, caCert, v, ski, certDER, index.
  split; [exact Hrun|]. split; [exact H1|]. split; [exact H2|]. split; [exact H3|].
  split; [exact H4|]. split; [exact H5|]. split; [exact H6|]. split; [exact H8|].
  split; [exact H11|]. split; [rewrite H11, H8; revert H4; vm_compute; by intros [= <-]|].
  split; [exact H12|]. split; [exact H13|]. exact H14.
Defined.

Lemma issued_serials_distinct_witness :
  ∃ index,
    (LoadIndex (L := Ref.lib) "ca" Sample.signedTwice).2 = Ok index
    ∧ NoDup (Serial <$> index)
    ∧ ("01" ∉ Serial <$> index)
    ∧ (∀ entry, entry ∈ index →
         is_Some (files Sample.signedTwice !! inDir "ca" (certName (Serial entry)))).
Proof.
  assert (Hinit : InitCA (L := Ref.lib) noFaults 7 1000 "ca" Ref.leafName
                    "ecdsa-p256" 3650 emptyStore
                  = (Sample.initialized,
                     Ok (mkInitResult "CN=leaf.example.com" "ECDSA P-256" "01"
                           (1000 + durationOf (wrap64 (3650 * 24)) hourNs)
                           "ca/ca.crt" "ca/ca.key")))
    by (vm_compute; reflexivity).
  apply (issued_serials_distinct (L := Ref.lib) (laws := RefFacts.lib_laws)
           noFaults 7 1000 "ca" Ref.leafName "ecdsa-p256" 3650 emptyStore
           Sample.initialized
           (mkInitResult "CN=leaf.example.com" "ECDSA P-256" "01"
              (1000 + durationOf (wrap64 (3650 * 24)) hourNs)
              "ca/ca.crt" "ca/ca.key")
           Sample.requests Sample.signedTwice).
  - intros q _. apply lookup_empty.
  - exact Hinit.
  - vm_compute; reflexivity.
  - vm_compute; discriminate.
Defined.

Lemma revoked_listed_in_CRL_witness :
  ∃ res caKey caCert entries aki crlDER r,
    GenerateCRL (L := Ref.lib) noFaults 7 4000 "ca" 24 Sample.revokedFirst
    = (Sample.withCRL, Ok res)
    ∧ r ∈ entries
    ∧ strconv.ParseInt16 "02" = inr (rleSerialNumber r)
    ∧ Ref.timeParse (Ref.timeFormat 3000) = Ok (rleRevocationTime r)
    ∧ rleReasonCode r = default 0 (ReasonCodes "keyCompromise")
    ∧ (0 < crRevokedCount res)%nat
    ∧ Ref.createCRL 7
        (mkRevocationList entries (crCRLNumber res) 4000
           (4000 + durationOf 24 hourNs) (sigAlgorithm caKey)
           [mkExtension [2; 5; 29; 35] false aki]) caCert caKey = Ok crlDER
    ∧ files Sample.withCRL !! inDir "ca" "ca.crl" = Some crlDER.
Proof.
  assert (∃ res, GenerateCRL (L := Ref.lib) noFaults 7 4000 "ca" 24
                   Sample.revokedFirst = (Sample.withCRL, Ok res))
    as [res Hrun] by (eexists; vm_compute; reflexivity).
  destruct (revoked_listed_in_CRL (L := Ref.lib) (laws := RefFacts.lib_laws)
              noFaults noFaults 7 3000 4000 "ca" "02" "keyCompromise" 24
              Sample.signedTwice Sample.revokedFirst Sample.withCRL res
              ltac:(vm_compute; reflexivity) Hrun)
    as (caKey & caCert & entries & aki & crlDER & r & H).
  exists res, caKey, caCert, entries, aki, crlDER, r. split; [exact Hrun|exact H].
Defined.

Lemma revocation_reason_shown_witness :
  findRevoked (L := Ref.lib) [mkRLEntry 5 0 0; mkRLEntry 2 3000 1; mkRLEntry 2 9 4] 2
  = Some ("REVOKED (reason: " +:+ "keyCompromise" +:+ ", date: "
          +:+ Ref.timeFormat 3000 +:+ ")").
Proof.
  apply (revocation_reason_shown (L := Ref.lib)
           (mkIndexEntry "02" "CN=leaf.example.com" "T7d0" "T7009d32da307d0"
              "revoked" "Tbb8" "keyCompromise")
           (mkRLEntry 2 3000 1) [mkRLEntry 5 0 0] [mkRLEntry 2 9 4]).
  - repeat split; vm_compute; reflexivity.
  - intros r' Hr'. apply elem_of_cons in Hr' as [->|Hr']; [simpl; lia|].
    by apply elem_of_nil in Hr'.
Defined.

Lemma VerifyCert_with_CRL_witness :
  ∃ r, VerifyCert (L := Ref.lib) 5000 "ca" "2:7d0:7009d32da307d0:8" "a.pem"
         Sample.withCRL = (Sample.withCRL, Ok r)
       ∧ SigOK r = true ∧ Valid r = false
       ∧ String.prefix "REVOKED (reason: " (RevStatus r) = true.
Proof.
  destruct (VerifyCert_with_CRL (L := Ref.lib) 5000 "ca" "2:7d0:7009d32da307d0:8"
              "a.pem" Sample.withCRL "" "2:7d0:7009d32da307d0:8"
              (mkCertificate 2 emptyName emptyName 2000 31536000000002000 0 true false
                 "8" "8" [] [] [] UnknownSignatureAlgorithm NilPublicKey)
              (mkCertificate 1 emptyName emptyName 1000 315360000000001000 0 true false
                 "8" "8" [] [] [] UnknownSignatureAlgorithm NilPublicKey))
    as [_ Hok]; try (vm_compute; reflexivity).
  destruct (Hok (mkRevocationList [mkRLEntry 2 0 1] 0 0 0 UnknownSignatureAlgorithm [])
              ltac:(vm_compute; reflexivity))
    as (r & Hrun & Hsig & _ & Hrev).
  exists r. split; [exact Hrun|]. split; [exact Hsig|].
  apply Hrev. vm_compute. by left.
Defined.

Lemma ParseDN_normal_witness :
  ParseDN (L := Ref.lib) " o = Acme ,cn=ca,, O=Labs "
  = Ok (mkName [] ["Acme"; "Labs"] [] [] [] [] [] "" "ca")
  ∧ FormatDN (mkName [] ["Acme"; "Labs"] [] [] [] [] [] "" "ca") = "CN=ca,O=Acme,O=Labs"
  ∧ ParseDN (L := Ref.lib) "CN=ca,O=Acme,O=Labs"
    = Ok (mkName [] ["Acme"; "Labs"] [] [] [] [] [] "" "ca").
Proof.
  assert (Hparse : ParseDN (L := Ref.lib) " o = Acme ,cn=ca,, O=Labs "
                   = Ok (mkName [] ["Acme"; "Labs"] [] [] [] [] [] "" "ca"))
    by (vm_compute; reflexivity).
  split; [exact Hparse|]. split; [reflexivity|].
  apply (proj2 (ParseDN_normal (L := Ref.lib) " o = Acme ,cn=ca,, O=Labs "
                  (mkName [] ["Acme"; "Labs"] [] [] [] [] [] "" "ca") Hparse)).
  discriminate.
Defined.

Lemma ParseSANs_sound_witness :
  ParseSANs (L := Ref.lib) Ref.parseIP " DNS:example.com, IP:10.0.0.1 ,,DNS: b "
  = Ok (["example.com"; " b"], ["10.0.0.1"])
  ∧ Forall (λ n, n ≠ "" ∧ noComma n) ["example.com"; " b"]
  ∧ Forall (λ ip, ∃ t, noComma t ∧ Ref.parseIP t = Some ip) ["10.0.0.1"].
Proof.
  assert (Hparse : ParseSANs (L := Ref.lib) Ref.parseIP
                     " DNS:example.com, IP:10.0.0.1 ,,DNS: b "
                   = Ok (["example.com"; " b"], ["10.0.0.1"]))
    by (vm_compute; reflexivity).
  split; [exact Hparse|].
  exact (ParseSANs_sound (L := Ref.lib) Ref.parseIP _ _ _ Hparse).
Defined.

Lemma ParseSANs_round_trip_witness :
  strings.Join (sanText <$> Sample.sans) ","
  = "DNS:example.com,IP:10.0.0.1,DNS:www.example.com"
  ∧ ParseSANs (L := Ref.lib) Ref.parseIP (strings.Join (sanText <$> Sample.sans) ",")
    = Ok (["example.com"; "www.example.com"], ["10.0.0.1"]).
Proof.
  split; [reflexivity|].
  assert (Hgood : ∀ v, bool_decide (v ≠ "") = true →
            bool_decide (","%char ∉ strings.bytesOf v) = true →
            bool_decide (strings.TrimSpace v = v) = true → goodValue v).
  { intros v ?%bool_decide_eq_true ?%bool_decide_eq_true ?%bool_decide_eq_true.
    by repeat split. }
  apply (ParseSANs_round_trip (L := Ref.lib) Ref.parseIP Sample.sans).
  - discriminate.
  - unfold Sample.sans.
    constructor; [simpl; by apply Hgood|].
    constructor; [simpl; split; [by apply Hgood|by eexists]|].
    constructor; [simpl; by apply Hgood|constructor].
Defined.


Lemma SignCSR_consumes_serial_first_witness :
  let out :=
    SignCSR (L := Ref.lib) (Sample.renameFails "ca/index.json.tmp") 7 2000 "ca"
      "csr:rsa2048" "a.csr" 365 Sample.initialized in
  out.2 = Err "failed to commit ca/index.json: input/output error"
  ∧ (ReadCounter (L := Ref.lib) (inDir "ca" "serial") Sample.initialized).2 = Ok 2
  ∧ (ReadCounter (L := Ref.lib) (inDir "ca" "serial") out.1).2 = Ok (2 + 1)
  ∧ is_Some (files out.1 !! "ca/certs/02.pem").
Proof.
  intros out. split; [vm_compute; reflexivity|].
  split; [vm_compute; reflexivity|].
  split; [|vm_compute; by eexists].
  destruct (SignCSR_consumes_serial_first (L := Ref.lib)
              (Sample.renameFails "ca/index.json.tmp") 7 2000 "ca" "csr:rsa2048"
              "a.csr" 365 Sample.initialized out.1 out.2 2)
    as [(_ & _ & Hcert & _)|Hnext].
  - vm_compute; reflexivity.
  - vm_compute; reflexivity.
  - apply surjective_pairing.
  - exfalso. revert Hcert. vm_compute. discriminate.
  - exact Hnext.
Defined.

Lemma GenerateCRL_failure_keeps_number_witness :
  let out :=
    GenerateCRL (L := Ref.lib) (Sample.renameFails "ca/crlnumber.tmp") 7 4000 "./ca"
      24 Sample.revokedFirst in
  out.2 = Err "failed to commit ca/crlnumber: input/output error"
  ∧ files out.1 !! inDir "./ca" "crlnumber"
    = files Sample.revokedFirst !! inDir "./ca" "crlnumber"
  ∧ files out.1 !! "ca/ca.crl" = Some "2"
  ∧ files Sample.revokedFirst !! "ca/ca.crl" = None.
Proof.
  intros out.
  assert (Hrun : out.2 = Err "failed to commit ca/crlnumber: input/output error")
    by (vm_compute; reflexivity).
  split; [exact Hrun|].
  split; [|split; vm_compute; reflexivity].
  refine (proj1 (GenerateCRL_failure_keeps_number (L := Ref.lib)
                   (Sample.renameFails "ca/crlnumber.tmp") 7 4000 "./ca" 24
                   Sample.revokedFirst out.1
                   "failed to commit ca/crlnumber: input/output error" _)).
  rewrite <- Hrun. apply surjective_pairing.
Defined.
